(** * db-mcp: a shallow embedding of the query path and its checked properties

    The development follows the TypeScript sources of the repository:

    - [JS]               the string and array primitives the code relies on;
    - [Regex]            regular expressions used through [RegExp.test];
    - [QueryValidator]   [security/query-validator] (validate, normalizeQuery, ...);
    - [QueryExecutor]    [database/query-executor] (executeQuery and its helpers);
    - [Factory]          [database/adapters/factory] (detectDatabaseType);
    - [MySQLAdapter]     [database/adapters/mysql/mysql-adapter] (query);
    - [SchemaCache]      [database/schema-cache] (set, warmup);
    - [MultiDb]          [mcp/multi-database-server] (handleCrossDatabaseQuery).

    Conventions.  A JavaScript string is the list of its UTF-16 code units.
    Numbers that the code uses as counters, lengths and millisecond stamps are
    integers ([Z]); fractional values are outside the embedding.  An [await]
    on the driver is answered by an explicit outcome supplied by the
    environment, and every mutable object is threaded as explicit state.  A
    function that can throw returns a sum: [inl message] for an [Error] with
    that message, [inr value] for a normal return.  The logger is embedded
    where a property speaks of it (the schema cache) and left out elsewhere.

    The definitions come first, module by module; the properties follow, in
    the same order, each section closing with its closed examples. *)

From Stdlib Require Import List ZArith NArith Bool Lia String Ascii DecimalString.
Import ListNotations.

(* ================================================================== *)
(** ** JavaScript strings *)
(* ================================================================== *)

Module JS.

(** A string is its sequence of UTF-16 code units. *)
Definition str := list N.

Definition lit (s : string) : str := map N_of_ascii (list_ascii_of_string s).
Arguments lit s%_string.

Definition eqb (a b : str) : bool :=
  if list_eq_dec N.eq_dec a b then true else false.

(** [LineTerminator]: LF, CR, LS, PS. *)
Definition isLineTerminator (c : N) : bool :=
  existsb (N.eqb c) [10; 13; 8232; 8233]%N.

(** The class [\s], which is also what [String.prototype.trim] strips:
    WhiteSpace and LineTerminator code points. *)
Definition isWhiteSpace (c : N) : bool :=
  existsb (N.eqb c) [9; 10; 11; 12; 13; 32; 160; 5760; 8232; 8233; 8239; 8287; 12288; 65279]%N
  || ((8192 <=? c) && (c <=? 8202))%N.

Fixpoint trimStart (s : str) : str :=
  match s with
  | [] => []
  | c :: t => if isWhiteSpace c then trimStart t else s
  end.

Fixpoint trimEnd (s : str) : str :=
  match s with
  | [] => []
  | c :: t =>
      match trimEnd t with
      | [] => if isWhiteSpace c then [] else [c]
      | t' => c :: t'
      end
  end.

Definition trim (s : str) : str := trimEnd (trimStart s).

Fixpoint startsWith (p s : str) : bool :=
  match p, s with
  | [], _ => true
  | _ :: _, [] => false
  | a :: p', b :: s' => N.eqb a b && startsWith p' s'
  end.

(** [s.indexOf(p)]: the first position at which [p] occurs. *)
Fixpoint indexOf (p s : str) : option nat :=
  if startsWith p s then Some 0%nat
  else match s with
       | [] => None
       | _ :: t => option_map S (indexOf p t)
       end.

Definition includes (p s : str) : bool :=
  match indexOf p s with Some _ => true | None => false end.

(** [a.includes(x)] on an array of strings. *)
Definition arrayIncludes (x : str) (a : list str) : bool := existsb (eqb x) a.

(** Length of the longest prefix whose code units satisfy [p]. *)
Fixpoint spanLen (p : N -> bool) (s : str) : nat :=
  match s with
  | [] => 0
  | c :: t => if p c then S (spanLen p t) else 0
  end.

(** [s.replace(re, by)] for a global regular expression [re] that never
    matches the empty string.  [m t] is the length of the match of [re]
    that starts at the head of [t], if there is one; scanning resumes after
    the match, as [lastIndex] does. *)
Fixpoint replaceFrom (m : str -> option nat) (by_ : str) (skip : nat) (s : str) : str :=
  match s with
  | [] => []
  | c :: t =>
      match skip with
      | S k => replaceFrom m by_ k t
      | O =>
          match m s with
          | Some (S n) => by_ ++ replaceFrom m by_ n t
          | _ => c :: replaceFrom m by_ 0 t
          end
      end
  end.

Definition replaceAll (m : str -> option nat) (by_ : str) (s : str) : str :=
  replaceFrom m by_ 0 s.

(** The expression behind [m] matches at no position of [s]. *)
Fixpoint noMatch (m : str -> option nat) (s : str) : Prop :=
  match s with
  | [] => True
  | _ :: t => m s = None /\ noMatch m t
  end.

(** [s.split(/\s+/)]. *)
Fixpoint splitWsFrom (cur : str) (s : str) : list str :=
  match s with
  | [] => [cur]
  | c :: t =>
      if isWhiteSpace c then
        match t with
        | [] => [cur; []]
        | c' :: _ => if isWhiteSpace c' then splitWsFrom cur t else cur :: splitWsFrom [] t
        end
      else splitWsFrom (cur ++ [c]) t
  end.

Definition splitWs (s : str) : list str := splitWsFrom [] s.

(** [toUpperCase] of one code unit.  Exact on code units below 256 (the
    sharp s becomes SS, the micro sign and y-diaeresis leave Latin-1);
    higher code units are left as they are. *)
Definition upperUnit (c : N) : str :=
  if ((97 <=? c) && (c <=? 122))%N then [c - 32]%N
  else if (c =? 223)%N then [83; 83]%N
  else if (c =? 181)%N then [924]%N
  else if (c =? 255)%N then [376]%N
  else if ((224 <=? c) && (c <=? 254) && negb (c =? 247))%N then [c - 32]%N
  else [c].

Definition toUpperCase (s : str) : str := flat_map upperUnit s.

(** The strings of code units below 256: on them [toUpperCase] above and
    [toLowerCase] below are those of the code. *)
Definition latin1 (s : str) : bool := forallb (fun c => (c <? 256)%N) s.

(** [toLowerCase] of one code unit, exact below 256 like [upperUnit]. *)
Definition lowerUnit (c : N) : str :=
  if ((65 <=? c) && (c <=? 90))%N then [c + 32]%N
  else if ((192 <=? c) && (c <=? 222) && negb (c =? 215))%N then [c + 32]%N
  else [c].

Definition toLowerCase (s : str) : str := flat_map lowerUnit s.

Fixpoint join (sep : str) (l : list str) : str :=
  match l with
  | [] => []
  | [x] => x
  | x :: rest => x ++ sep ++ join sep rest
  end.

(** [String(n)], which is also what a template literal prints, for an
    integral number: its decimal digits (numbers of magnitude 10^21 and
    above, which JavaScript prints with an exponent, are outside the
    embedding). *)
Definition numToString (z : Z) : str := lit (NilZero.string_of_int (Z.to_int z)).

(** [s.substring(0, n)]. *)
Definition substring0 (n : nat) (s : str) : str := firstn n s.

End JS.

Definition jstr : Type := JS.str.

(* ================================================================== *)
(** ** Regular expressions, as used by [RegExp.prototype.test] *)
(* ================================================================== *)

Module Regex.

Inductive re : Type :=
| Nul                       (* matches nothing *)
| Eps                       (* the empty string *)
| Cls (f : N -> bool)       (* one code unit of a class *)
| Cat (r1 r2 : re)
| Alt (r1 r2 : re)
| Star (r : re).

(** [Canonicalize] of the [i] flag (no [u] flag).  Every pattern of the
    program is ASCII, and no code unit above 127 canonicalizes to an ASCII
    one, so folding the ASCII letters is all that a comparison with a
    pattern character can observe. *)
Definition canon (c : N) : N :=
  if ((97 <=? c) && (c <=? 122))%N then (c - 32)%N else c.

Definition chr (c : N) : re := Cls (N.eqb c).
Definition chri (c : N) : re := Cls (fun x => N.eqb (canon x) (canon c)).
Definition dot : re := Cls (fun x => negb (JS.isLineTerminator x)).
Definition ws : re := Cls JS.isWhiteSpace.
Definition plus (r : re) : re := Cat r (Star r).

Fixpoint seq (l : list re) : re :=
  match l with
  | [] => Eps
  | [r] => r
  | r :: rest => Cat r (seq rest)
  end.

Fixpoint alt (l : list re) : re :=
  match l with
  | [] => Nul
  | [r] => r
  | r :: rest => Alt r (alt rest)
  end.

(** A literal, case-sensitive and under the [i] flag. *)
Definition word (s : jstr) : re := seq (map chr s).
Definition wordi (s : jstr) : re := seq (map chri s).

Fixpoint nullable (r : re) : bool :=
  match r with
  | Nul => false
  | Eps => true
  | Cls _ => false
  | Cat a b => nullable a && nullable b
  | Alt a b => nullable a || nullable b
  | Star _ => true
  end.

(** Brzozowski derivative. *)
Fixpoint deriv (c : N) (r : re) : re :=
  match r with
  | Nul => Nul
  | Eps => Nul
  | Cls f => if f c then Eps else Nul
  | Cat a b => if nullable a then Alt (Cat (deriv c a) b) (deriv c b) else Cat (deriv c a) b
  | Alt a b => Alt (deriv c a) (deriv c b)
  | Star a => Cat (deriv c a) (Star a)
  end.

(** Some prefix of [s] is matched by [r]. *)
Fixpoint matchPrefix (r : re) (s : jstr) : bool :=
  nullable r ||
  match s with
  | [] => false
  | c :: t => matchPrefix (deriv c r) t
  end.

(** [re.test(s)]: [r] matches somewhere in [s]. *)
Fixpoint test (r : re) (s : jstr) : bool :=
  matchPrefix r s ||
  match s with
  | [] => false
  | _ :: t => test r t
  end.

(** The language of a regular expression. *)
Inductive lang : re -> jstr -> Prop :=
| LEps : lang Eps []
| LCls f c : f c = true -> lang (Cls f) [c]
| LCat a b s t : lang a s -> lang b t -> lang (Cat a b) (s ++ t)
| LAltL a b s : lang a s -> lang (Alt a b) s
| LAltR a b s : lang b s -> lang (Alt a b) s
| LStar0 a : lang (Star a) []
| LStarS a s t : lang a s -> lang (Star a) t -> lang (Star a) (s ++ t).

End Regex.

(* ================================================================== *)
(** ** config/index.ts: the security configuration *)
(* ================================================================== *)

Module Config.

Record SecurityConfig : Type := {
  maxExecutionTime : Z;
  maxResultRows : Z;
  maxQueryLength : Z;
  allowedKeywords : list jstr
}.

Definition allowedKeywordList : list jstr :=
  map JS.lit
    [ "SELECT"; "FROM"; "WHERE"; "JOIN"; "INNER"; "LEFT"; "RIGHT"; "FULL"; "OUTER";
      "ORDER"; "BY"; "GROUP"; "HAVING"; "LIMIT"; "OFFSET"; "DISTINCT";
      "AS"; "AND"; "OR"; "NOT"; "IN"; "EXISTS"; "BETWEEN"; "LIKE"; "IS"; "NULL";
      "COUNT"; "SUM"; "AVG"; "MIN"; "MAX"; "CASE"; "WHEN"; "THEN"; "ELSE"; "END";
      "UNION"; "INTERSECT"; "EXCEPT"; "WITH"; "RECURSIVE";
      "SHOW"; "DESCRIBE"; "DESC"; "EXPLAIN"; "ANALYZE" ]%string.

(** [securityConfig] when no environment variable overrides a default. *)
Definition securityConfig : SecurityConfig :=
  {| maxExecutionTime := 30000;
     maxResultRows := 10000;
     maxQueryLength := 10000;
     allowedKeywords := allowedKeywordList |}.

End Config.

(* ================================================================== *)
(** ** security/query-validator.ts *)
(* ================================================================== *)

Module QueryValidator.

Import Config.

(** [ValidationResult].  The [warnings] array is not part of the embedding:
    no step reads it back, and it influences neither [isValid], [errors]
    nor [sanitizedQuery]. *)
Record ValidationResult : Type := {
  isValid : bool;
  errors : list jstr;
  sanitizedQuery : option jstr
}.

(** [result.isValid = false; result.errors.push(msg)]. *)
Definition reject (result : ValidationResult) (msg : jstr) : ValidationResult :=
  {| isValid := false;
     errors := errors result ++ [msg];
     sanitizedQuery := sanitizedQuery result |}.

(** [result.errors.push(msg)] alone. *)
Definition pushError (result : ValidationResult) (msg : jstr) : ValidationResult :=
  {| isValid := isValid result;
     errors := errors result ++ [msg];
     sanitizedQuery := sanitizedQuery result |}.

Definition forbiddenKeywords : list jstr :=
  map JS.lit
    [ "INSERT"; "UPDATE"; "DELETE"; "REPLACE"; "MERGE";
      "CREATE"; "ALTER"; "DROP"; "TRUNCATE"; "RENAME";
      "BEGIN"; "COMMIT"; "ROLLBACK"; "START TRANSACTION";
      "GRANT"; "REVOKE"; "SET PASSWORD"; "CREATE USER"; "DROP USER";
      "LOAD DATA"; "SELECT ... INTO OUTFILE"; "LOAD_FILE";
      "CALL"; "EXECUTE"; "EXEC";
      "FLUSH"; "RESET"; "KILL"; "SHUTDOWN" ]%string.

(** A regular expression literal: its [source] text and what it matches. *)
Record Pattern : Type := { source : jstr; regex : Regex.re }.

Definition quotePattern : Pattern :=
  {| source := JS.lit "('|(\x27)|(\x2D\x2D)|(%27)|(%2D%2D))";
     regex := Regex.alt [ Regex.chri 39; Regex.chri 39; Regex.wordi (JS.lit "--");
                          Regex.wordi (JS.lit "%27"); Regex.wordi (JS.lit "%2D%2D") ] |}.

Definition suspiciousPatterns : list Pattern :=
  [ quotePattern;
    {| source := JS.lit "(\x00|\n|\r|\x1a)";
       regex := Regex.alt [ Regex.chri 0; Regex.chri 10; Regex.chri 13; Regex.chri 26 ] |};
    {| source := JS.lit "(union.*select)";
       regex := Regex.seq [ Regex.wordi (JS.lit "union"); Regex.Star Regex.dot;
                            Regex.wordi (JS.lit "select") ] |};
    {| source := JS.lit "(concat.*\()";
       regex := Regex.seq [ Regex.wordi (JS.lit "concat"); Regex.Star Regex.dot;
                            Regex.chri 40 ] |};
    {| source := JS.lit "(information_schema)";
       regex := Regex.wordi (JS.lit "information_schema") |};
    {| source := JS.lit "(mysql\.user)";
       regex := Regex.wordi (JS.lit "mysql.user") |};
    {| source := JS.lit "(into\s+outfile)";
       regex := Regex.seq [ Regex.wordi (JS.lit "into"); Regex.plus Regex.ws;
                            Regex.wordi (JS.lit "outfile") ] |};
    {| source := JS.lit "(load_file)"; regex := Regex.wordi (JS.lit "load_file") |};
    {| source := JS.lit "(@@)"; regex := Regex.wordi (JS.lit "@@") |};
    {| source := JS.lit "(script)"; regex := Regex.wordi (JS.lit "script") |};
    {| source := JS.lit "(javascript)"; regex := Regex.wordi (JS.lit "javascript") |};
    {| source := JS.lit "(vbscript)"; regex := Regex.wordi (JS.lit "vbscript") |} ].

Definition validateBasicInput (cfg : SecurityConfig) (query : jstr)
    (result : ValidationResult) : ValidationResult :=
  match query with
  | [] => reject result (JS.lit "Query must be a non-empty string")
  | _ :: _ =>
      if (Z.of_nat (List.length query) >? maxQueryLength cfg)%Z then
        reject result
          (JS.lit "Query exceeds maximum length of "
             ++ JS.numToString (maxQueryLength cfg) ++ JS.lit " characters")
      else
        match JS.trim query with
        | [] => reject result (JS.lit "Query cannot be empty or whitespace only")
        | _ :: _ => result
        end
  end.

(** [/\s+/g]: a maximal run of white space. *)
Definition matchWhiteSpaceRun (s : jstr) : option nat :=
  match JS.spanLen JS.isWhiteSpace s with
  | O => None
  | n => Some n
  end.

(** [/--.*$/gm]: two dashes and the rest of the line. *)
Definition matchLineComment (s : jstr) : option nat :=
  if JS.startsWith (JS.lit "--") s then
    Some (2 + JS.spanLen (fun c => negb (JS.isLineTerminator c)) (skipn 2 s))
  else None.

(** [/\/\*[\s\S]*?\*\//g]: from an opener to the nearest closer after it. *)
Definition matchBlockComment (s : jstr) : option nat :=
  if JS.startsWith (JS.lit "/*") s then
    match JS.indexOf (JS.lit "*/") (skipn 2 s) with
    | Some k => Some (2 + k + 2)
    | None => None
    end
  else None.

Definition collapseWhiteSpace (s : jstr) : jstr :=
  JS.replaceAll matchWhiteSpaceRun (JS.lit " ") s.

Definition stripLineComments (s : jstr) : jstr :=
  JS.replaceAll matchLineComment [] s.

Definition stripBlockComments (s : jstr) : jstr :=
  JS.replaceAll matchBlockComment [] s.

Definition normalizeQuery (query : jstr) : jstr :=
  JS.trim (stripBlockComments (stripLineComments (collapseWhiteSpace (JS.trim query)))).

Definition checkForbiddenKeywords (cfg : SecurityConfig) (query : jstr)
    (result : ValidationResult) : ValidationResult :=
  let queryUpper := JS.toUpperCase query in
  let words := JS.splitWs queryUpper in
  let result1 :=
    fold_left
      (fun r keyword =>
         if JS.arrayIncludes keyword words || JS.includes keyword queryUpper
         then reject r (JS.lit "Forbidden keyword detected: " ++ keyword)
         else r)
      forbiddenKeywords result in
  match words with
  | firstWord :: _ =>
      match firstWord with
      | [] => result1
      | _ :: _ =>
          if negb (JS.arrayIncludes firstWord (allowedKeywords cfg)) then
            reject result1
              (JS.lit "Operation '" ++ firstWord
                 ++ JS.lit "' is not allowed. Only read-only operations are permitted.")
          else result1
      end
  | [] => result1
  end.

Definition checkSuspiciousPatterns (query : jstr) (result : ValidationResult)
    : ValidationResult :=
  fold_left
    (fun r pattern =>
       if Regex.test (regex pattern) query
       then reject r (JS.lit "Suspicious pattern detected: " ++ source pattern)
       else r)
    suspiciousPatterns result.

(** The one step of [performAdvancedValidation] that writes to [errors]
    (the others only warn). *)
Definition performAdvancedValidation (query : jstr) (result : ValidationResult)
    : ValidationResult :=
  if Regex.test (Regex.Alt (Regex.wordi (JS.lit "DELETE")) (Regex.wordi (JS.lit "UPDATE"))) query
     && negb (Regex.test (Regex.wordi (JS.lit "WHERE")) query)
  then pushError result (JS.lit "DELETE/UPDATE without WHERE clause is not allowed")
  else result.

(** The result object [validate] starts from. *)
Definition freshResult : ValidationResult :=
  {| isValid := true; errors := []; sanitizedQuery := None |}.

(** [validate].  On a string no step of its [try] block throws, so the
    [catch] is never entered. *)
Definition validate (cfg : SecurityConfig) (query : jstr) : ValidationResult :=
  let result := validateBasicInput cfg query freshResult in
  if negb (isValid result) then result
  else
    let normalizedQuery := normalizeQuery query in
    let result := checkForbiddenKeywords cfg normalizedQuery result in
    let result := checkSuspiciousPatterns normalizedQuery result in
    let result := performAdvancedValidation normalizedQuery result in
    {| isValid := isValid result;
       errors := errors result;
       sanitizedQuery := Some normalizedQuery |}.

(** The query as it stands when [normalizeQuery] reaches the replacement
    of block comments. *)
Definition beforeBlockComments (query : jstr) : jstr :=
  stripLineComments (collapseWhiteSpace (JS.trim query)).

(** White space occurs only as single spaces: what [collapseWhiteSpace]
    leaves unchanged. *)
Fixpoint collapsed (s : jstr) : Prop :=
  match s with
  | [] => True
  | c :: t =>
      (JS.isWhiteSpace c = true ->
       c = 32%N /\ match t with [] => True | d :: _ => JS.isWhiteSpace d = false end)
      /\ collapsed t
  end.

End QueryValidator.

(* ================================================================== *)
(** ** JavaScript values and JSON *)
(* ================================================================== *)

Module JsValue.

(** The primitive values that travel as query parameters and row cells. *)
Inductive t : Type :=
| VNull
| VBoolean (b : bool)
| VNumber (z : Z)
| VString (s : jstr).

(** The [typeof] operator. *)
Definition typeOf (v : t) : jstr :=
  match v with
  | VNull => JS.lit "object"
  | VBoolean _ => JS.lit "boolean"
  | VNumber _ => JS.lit "number"
  | VString _ => JS.lit "string"
  end.

Definition isNull (v : t) : bool :=
  match v with VNull => true | _ => false end.

Definition hexDigit (n : N) : N :=
  if (n <? 10)%N then (48 + n)%N else (87 + n)%N.

(** [\uXXXX] with four lower-case hexadecimal digits. *)
Definition unicodeEscape (c : N) : jstr :=
  [92; 117; hexDigit ((c / 4096) mod 16); hexDigit ((c / 256) mod 16);
   hexDigit ((c / 16) mod 16); hexDigit (c mod 16)]%N.

Definition isHighSurrogate (c : N) : bool := ((55296 <=? c) && (c <=? 56319))%N.
Definition isLowSurrogate (c : N) : bool := ((56320 <=? c) && (c <=? 57343))%N.

(** [QuoteJSONString] without the surrounding quotes. *)
Fixpoint quoteBody (s : jstr) : jstr :=
  match s with
  | [] => []
  | c :: t =>
      if (c =? 8)%N then [92; 98]%N ++ quoteBody t
      else if (c =? 9)%N then [92; 116]%N ++ quoteBody t
      else if (c =? 10)%N then [92; 110]%N ++ quoteBody t
      else if (c =? 12)%N then [92; 102]%N ++ quoteBody t
      else if (c =? 13)%N then [92; 114]%N ++ quoteBody t
      else if (c =? 34)%N then [92; 34]%N ++ quoteBody t
      else if (c =? 92)%N then [92; 92]%N ++ quoteBody t
      else if (c <? 32)%N then unicodeEscape c ++ quoteBody t
      else if isHighSurrogate c then
        match t with
        | d :: t' => if isLowSurrogate d then c :: d :: quoteBody t'
                     else unicodeEscape c ++ quoteBody t
        | [] => unicodeEscape c
        end
      else if isLowSurrogate c then unicodeEscape c ++ quoteBody t
      else c :: quoteBody t
  end.

Definition stringify (v : t) : jstr :=
  match v with
  | VNull => JS.lit "null"
  | VBoolean true => JS.lit "true"
  | VBoolean false => JS.lit "false"
  | VNumber z => JS.numToString z
  | VString s => [34%N] ++ quoteBody s ++ [34%N]
  end.

(** [JSON.stringify] of an array of primitives. *)
Definition stringifyArray (l : list t) : jstr :=
  JS.lit "[" ++ JS.join (JS.lit ",") (map stringify l) ++ JS.lit "]".

End JsValue.

(** A result row: its own enumerable keys, in order, with their values. *)
Definition Row : Type := list (jstr * JsValue.t).

(** A [Map] with string keys: its entries in insertion order. *)
Module JsMap.

Definition t (V : Type) : Type := list (jstr * V).

(** [Map.prototype.get]. *)
Fixpoint get {V : Type} (k : jstr) (m : t V) : option V :=
  match m with
  | [] => None
  | (k', v) :: rest => if JS.eqb k k' then Some v else get k rest
  end.

(** [Map.prototype.set]: an existing key keeps its place. *)
Fixpoint set {V : Type} (k : jstr) (v : V) (m : t V) : t V :=
  match m with
  | [] => [(k, v)]
  | (k', v') :: rest => if JS.eqb k k' then (k', v) :: rest else (k', v') :: set k v rest
  end.

(** [Map.prototype.delete]. *)
Definition delete {V : Type} (k : jstr) (m : t V) : t V :=
  filter (fun kv => negb (JS.eqb k (fst kv))) m.

End JsMap.

(** A Number that reaches the code unchecked (an option of a tool call).
    Every finite double is a rational, written [num/den]; the two
    infinities and NaN complete the type.  Minus zero behaves as zero in
    every operation used here. *)
Module JsNumber.

Inductive t : Type :=
| Finite (num : Z) (den : positive)
| PosInfinity
| NegInfinity
| NaN.

Definition ofZ (z : Z) : t := Finite z 1.

(** [ToBoolean]: zero and NaN are falsy. *)
Definition truthy (n : t) : bool :=
  match n with
  | Finite num _ => negb (num =? 0)%Z
  | PosInfinity | NegInfinity => true
  | NaN => false
  end.

(** [len > n] for an integer [len]; a comparison with NaN is false. *)
Definition belowZ (n : t) (len : Z) : bool :=
  match n with
  | Finite num den => (num <? len * Z.pos den)%Z
  | PosInfinity => false
  | NegInfinity => true
  | NaN => false
  end.

Inductive IntegerOrInfinity : Type :=
| Integer (z : Z)
| PlusInfinity
| MinusInfinity.

(** [ToIntegerOrInfinity]: NaN becomes 0 and a finite value is truncated
    toward zero. *)
Definition toIntegerOrInfinity (n : t) : IntegerOrInfinity :=
  match n with
  | Finite num den => Integer (Z.quot num (Z.pos den))
  | PosInfinity => PlusInfinity
  | NegInfinity => MinusInfinity
  | NaN => Integer 0
  end.

(** Unary minus. *)
Definition neg (n : t) : t :=
  match n with
  | Finite num den => Finite (- num) den
  | PosInfinity => NegInfinity
  | NegInfinity => PosInfinity
  | NaN => NaN
  end.

(** The integer that a number is, when it is one. *)
Definition toZ (n : t) : option Z :=
  match n with
  | Finite num den =>
      if (Z.rem num (Z.pos den) =? 0)%Z then Some (Z.quot num (Z.pos den)) else None
  | PosInfinity | NegInfinity | NaN => None
  end.

End JsNumber.

(* ================================================================== *)
(** ** database/query-executor.ts *)
(* ================================================================== *)

Module QueryExecutor.

Import Config.

(** [QueryOptions].  [maxRows] is whatever number the caller passed.
    [timeout] is kept to whole milliseconds: the message of a timeout prints
    it, and the printing of a fraction is outside the embedding. *)
Record QueryOptions : Type := {
  timeout : option Z;
  maxRows : option JsNumber.t;
  enableAudit : option bool;
  dryRun : option bool
}.

Definition noOptions : QueryOptions :=
  {| timeout := None; maxRows := None; enableAudit := None; dryRun := None |}.

Record Field : Type := { fieldName : jstr; fieldType : jstr; nullable : bool }.

(** What [this.database.query] resolves to, or the message it rejects with. *)
Inductive DriverReply : Type :=
| RowSet (results : list Row)
| OkPacket (affectedRows : option Z)
| DriverError (message : jstr).

(** The part of [validator.getQueryAnalysis] that needs neither word
    boundaries nor captures; a dry run carries it and nothing reads it. *)
Record QueryAnalysis : Type := {
  operation : jstr;
  hasSubqueries : bool;
  hasAggregates : bool
}.

Record QueryResult : Type := {
  rows : list Row;
  fields : list Field;
  rowCount : Z;
  executionTime : Z;
  truncated : option bool;
  totalRows : option Z;
  metadata : option DriverReply;
  cached : option bool;
  cacheAge : option Z;
  analysis : option QueryAnalysis;
  isDryRun : option bool
}.

Record AuditLog : Type := {
  auditTimestamp : Z;
  auditQuery : jstr;
  auditExecutionTime : Z;
  auditRowCount : Z;
  success : bool;
  errorMessage : option jstr;
  userAgent : jstr;
  ipAddress : jstr
}.

Record QueryCacheEntry : Type := {
  key : jstr;
  result : QueryResult;
  timestamp : Z;
  ttl : Z
}.

(** The executor object: its audit ring, its [Map] cache in insertion order,
    the calls it has issued to [this.database.query] (oldest first) and the
    value [Date.now()] currently returns. *)
Record Executor : Type := {
  auditLogs : list AuditLog;
  queryCache : JsMap.t QueryCacheEntry;
  databaseCalls : list (jstr * list JsValue.t);
  now : Z
}.

(** How the race of [executeWithTimeout] ends: the query promise settles
    first, or the timer does; either way [elapsed] milliseconds have passed. *)
Inductive RaceOutcome : Type :=
| QuerySettles (elapsed : Z) (reply : DriverReply)
| TimerFires (elapsed : Z).

Definition cacheTTL : Z := 5 * 60 * 1000.

(** [a || b] on numbers: zero is falsy. *)
Definition orDefault (a : option Z) (b : Z) : Z :=
  match a with
  | Some v => if (v =? 0)%Z then b else v
  | None => b
  end.

Definition effectiveTimeout (cfg : SecurityConfig) (options : QueryOptions) : Z :=
  orDefault (timeout options) (maxExecutionTime cfg).

(** [options.maxRows || securityConfig.maxResultRows]: the option is any
    number the caller passed, the configured value an integer. *)
Definition effectiveMaxRows (cfg : SecurityConfig) (options : QueryOptions) : JsNumber.t :=
  match maxRows options with
  | Some n => if JsNumber.truthy n then n else JsNumber.ofZ (maxResultRows cfg)
  | None => JsNumber.ofZ (maxResultRows cfg)
  end.

Definition isTrue (b : option bool) : bool :=
  match b with Some true => true | _ => false end.

(** [options.enableAudit !== false]. *)
Definition auditEnabled (options : QueryOptions) : bool :=
  match enableAudit options with Some false => false | _ => true end.

(** [results.slice(0, end)]: [end] goes through [ToIntegerOrInfinity]; a
    negative one counts from the end of the array. *)
Definition slice0 {A : Type} (end_ : JsNumber.t) (l : list A) : list A :=
  match JsNumber.toIntegerOrInfinity end_ with
  | JsNumber.MinusInfinity => []
  | JsNumber.PlusInfinity => l
  | JsNumber.Integer z =>
      if (z <? 0)%Z then firstn (Z.to_nat (Z.max 0 (Z.of_nat (List.length l) + z))) l
      else firstn (Z.to_nat z) l
  end.

Definition extractFields (results : list Row) : list Field :=
  match results with
  | [] => []
  | firstRow :: _ =>
      map (fun kv => {| fieldName := fst kv;
                        fieldType := JsValue.typeOf (snd kv);
                        nullable := JsValue.isNull (snd kv) |}) firstRow
  end.

(** What [executeQueryInternal] builds from the driver's reply;
    [executionTime] is left at 0 for the caller to set. *)
Definition executeQueryInternal (reply : DriverReply) (maxRows_ : JsNumber.t)
    : jstr + QueryResult :=
  match reply with
  | RowSet results =>
      inr {| rows := slice0 maxRows_ results;
             fields := extractFields results;
             rowCount := Z.of_nat (List.length results);
             executionTime := 0;
             truncated := Some (JsNumber.belowZ maxRows_ (Z.of_nat (List.length results)));
             totalRows := Some (Z.of_nat (List.length results));
             metadata := None; cached := None; cacheAge := None;
             analysis := None; isDryRun := None |}
  | OkPacket affected =>
      inr {| rows := [];
             fields := [];
             rowCount := match affected with Some n => n | None => 0%Z end;
             executionTime := 0;
             truncated := None; totalRows := None;
             metadata := Some reply; cached := None; cacheAge := None;
             analysis := None; isDryRun := None |}
  | DriverError message => inl message
  end.

Definition setExecutionTime (r : QueryResult) (t : Z) : QueryResult :=
  {| rows := rows r; fields := fields r; rowCount := rowCount r;
     executionTime := t;
     truncated := truncated r; totalRows := totalRows r; metadata := metadata r;
     cached := cached r; cacheAge := cacheAge r;
     analysis := analysis r; isDryRun := isDryRun r |}.

Definition advance (ex : Executor) (elapsed : Z) : Executor :=
  {| auditLogs := auditLogs ex; queryCache := queryCache ex;
     databaseCalls := databaseCalls ex; now := (now ex + elapsed)%Z |}.

Definition recordCall (ex : Executor) (query : jstr) (parameters : list JsValue.t) : Executor :=
  {| auditLogs := auditLogs ex; queryCache := queryCache ex;
     databaseCalls := databaseCalls ex ++ [(query, parameters)]; now := now ex |}.

Definition timeoutMessage (timeout_ : Z) : jstr :=
  JS.lit "Query timeout after " ++ JS.numToString timeout_ ++ JS.lit "ms".

(** [executeWithTimeout]: the query is dispatched, then the race decides. *)
Definition executeWithTimeout (ex : Executor) (query : jstr) (parameters : list JsValue.t)
    (timeout_ : Z) (maxRows_ : JsNumber.t) (race : RaceOutcome)
    : Executor * (jstr + QueryResult) :=
  let startTime := now ex in
  let ex := recordCall ex query parameters in
  match race with
  | QuerySettles elapsed reply =>
      let ex := advance ex elapsed in
      match executeQueryInternal reply maxRows_ with
      | inr r => (ex, inr (setExecutionTime r (now ex - startTime)))
      | inl message => (ex, inl message)
      end
  | TimerFires elapsed =>
      (advance ex elapsed, inl (timeoutMessage timeout_))
  end.

(** The pattern written [/\\s+/g] in [generateCacheKey]: a backslash
    followed by one or more letters s. *)
Definition matchBackslashS (s : jstr) : option nat :=
  match s with
  | c :: t =>
      if (c =? 92)%N then
        match JS.spanLen (N.eqb 115) t with
        | O => None
        | n => Some (1 + n)
        end
      else None
  | [] => None
  end.

Definition generateCacheKey (query : jstr) (parameters : list JsValue.t) : jstr :=
  let normalizedQuery :=
    JS.toLowerCase (JS.trim (JS.replaceAll matchBackslashS (JS.lit " ") query)) in
  normalizedQuery ++ JS.lit ":" ++ JsValue.stringifyArray parameters.

Definition setCache (ex : Executor) (c : JsMap.t QueryCacheEntry) : Executor :=
  {| auditLogs := auditLogs ex; queryCache := c;
     databaseCalls := databaseCalls ex; now := now ex |}.

Definition getCachedResult (ex : Executor) (cacheKey : jstr) : Executor * option QueryResult :=
  match JsMap.get cacheKey (queryCache ex) with
  | None => (ex, None)
  | Some entry =>
      if (now ex - timestamp entry >? ttl entry)%Z then
        (setCache ex (JsMap.delete cacheKey (queryCache ex)), None)
      else
        let r := result entry in
        (ex, Some {| rows := rows r; fields := fields r; rowCount := rowCount r;
                     executionTime := executionTime r;
                     truncated := truncated r; totalRows := totalRows r;
                     metadata := metadata r;
                     cached := Some true;
                     cacheAge := Some (now ex - timestamp entry)%Z;
                     analysis := analysis r; isDryRun := isDryRun r |})
  end.

Definition cleanCache (ex : Executor) : Executor :=
  setCache ex
    (filter (fun kv => negb (now ex - timestamp (snd kv) >? ttl (snd kv))%Z) (queryCache ex)).

Definition cacheResult (ex : Executor) (cacheKey : jstr) (r : QueryResult) : Executor :=
  match metadata r with
  | None =>
      if (rowCount r <=? 1000)%Z then
        let ex :=
          setCache ex
            (JsMap.set cacheKey
               {| key := cacheKey; result := r; timestamp := now ex; ttl := cacheTTL |}
               (queryCache ex)) in
        if (100 <? List.length (queryCache ex))%nat then cleanCache ex else ex
      else ex
  | Some _ => ex
  end.

Definition nonDeterministicFunctions : list jstr :=
  map JS.lit [ "NOW()"; "RAND()"; "UUID()"; "CONNECTION_ID()" ]%string.

Definition shouldCacheQuery (query : jstr) : bool :=
  let queryUpper := JS.trim (JS.toUpperCase query) in
  if negb (JS.startsWith (JS.lit "SELECT") queryUpper) then false
  else negb (existsb (fun func => JS.includes (JS.toUpperCase func) queryUpper)
               nonDeterministicFunctions).

Definition logAudit (ex : Executor) (query : jstr) (executionTime_ rowCount_ : Z)
    (success_ : bool) (errorMessage_ : option jstr) : Executor :=
  let auditEntry :=
    {| auditTimestamp := now ex;
       auditQuery := JS.substring0 1000 query;
       auditExecutionTime := executionTime_;
       auditRowCount := rowCount_;
       success := success_;
       errorMessage := errorMessage_;
       userAgent := JS.lit "mcp-client";
       ipAddress := JS.lit "localhost" |} in
  let logs := auditLogs ex ++ [auditEntry] in
  {| auditLogs := if (1000 <? List.length logs)%nat
                  then skipn (List.length logs - 1000) logs else logs;
     queryCache := queryCache ex;
     databaseCalls := databaseCalls ex;
     now := now ex |}.

Definition getQueryAnalysis (query : jstr) : QueryAnalysis :=
  let normalizedQuery := QueryValidator.normalizeQuery query in
  {| operation :=
       match JS.splitWs (JS.toUpperCase normalizedQuery) with
       | ((_ :: _) as w) :: _ => w
       | _ => JS.lit "UNKNOWN"
       end;
     hasSubqueries :=
       Regex.test (Regex.seq [ Regex.chri 40; Regex.Star Regex.ws;
                               Regex.wordi (JS.lit "SELECT") ]) normalizedQuery;
     hasAggregates :=
       Regex.test (Regex.alt (map (fun w => Regex.wordi (JS.lit w))
                                [ "COUNT"; "SUM"; "AVG"; "MIN"; "MAX"; "GROUP BY" ]%string))
                  normalizedQuery |}.

Definition validationFailure (v : QueryValidator.ValidationResult) : jstr :=
  JS.lit "Query validation failed: " ++ JS.join (JS.lit ", ") (QueryValidator.errors v).

Definition dryRunResult (query : jstr) : QueryResult :=
  {| rows := []; fields := []; rowCount := 0; executionTime := 0;
     truncated := None; totalRows := None; metadata := None;
     cached := Some false; cacheAge := None;
     analysis := Some (getQueryAnalysis query); isDryRun := Some true |}.

(** The body of the [try] block of [executeQuery]: the state it leaves and
    either the message of the error it throws or the result it returns. *)
Definition executeQueryTry (cfg : SecurityConfig) (ex : Executor) (query : jstr)
    (parameters : list JsValue.t) (options : QueryOptions) (race : RaceOutcome)
    : Executor * (jstr + QueryResult) :=
  let validation := QueryValidator.validate cfg query in
  if negb (QueryValidator.isValid validation) then (ex, inl (validationFailure validation))
  else
    let cacheKey := generateCacheKey query parameters in
    let '(ex, cached_) := getCachedResult ex cacheKey in
    match cached_, isTrue (dryRun options) with
    | Some hit, false => (ex, inr hit)
    | _, true => (ex, inr (dryRunResult query))
    | None, false =>
        let sql := match QueryValidator.sanitizedQuery validation with
                   | Some s => s
                   | None => query
                   end in
        match executeWithTimeout ex sql parameters
                (effectiveTimeout cfg options) (effectiveMaxRows cfg options) race with
        | (ex, inr r) =>
            let ex := if shouldCacheQuery query then cacheResult ex cacheKey r else ex in
            let ex := if auditEnabled options
                      then logAudit ex query (executionTime r) (rowCount r) true None
                      else ex in
            (ex, inr r)
        | (ex, inl message) => (ex, inl message)
        end
    end.

(** [executeQuery]: the [try] block, and the [catch] that audits the failure
    and throws a new error around its message. *)
Definition executeQuery (cfg : SecurityConfig) (ex : Executor) (query : jstr)
    (parameters : list JsValue.t) (options : QueryOptions) (race : RaceOutcome)
    : Executor * (jstr + QueryResult) :=
  let startTime := now ex in
  match executeQueryTry cfg ex query parameters options race with
  | (ex, inr r) => (ex, inr r)
  | (ex, inl errorMessage_) =>
      let executionTime_ := (now ex - startTime)%Z in
      let ex := if auditEnabled options
                then logAudit ex query executionTime_ 0 false (Some errorMessage_)
                else ex in
      (ex, inl (JS.lit "Query execution failed: " ++ errorMessage_))
  end.

(** The call reaches [executeWithTimeout]: the query is admitted, it is not a
    dry run and the cache has no live entry for it. *)
Definition reachesDatabase (cfg : SecurityConfig) (ex : Executor) (query : jstr)
    (parameters : list JsValue.t) (options : QueryOptions) : bool :=
  QueryValidator.isValid (QueryValidator.validate cfg query)
  && negb (isTrue (dryRun options))
  && match snd (getCachedResult ex (generateCacheKey query parameters)) with
     | None => true
     | Some _ => false
     end.

Definition emptyExecutor : Executor :=
  {| auditLogs := []; queryCache := []; databaseCalls := []; now := 0 |}.

(** [a.slice(start)]: [start] goes through [ToIntegerOrInfinity]; a negative
    one counts from the end of the array. *)
Definition sliceFrom {A : Type} (start : JsNumber.t) (l : list A) : list A :=
  match JsNumber.toIntegerOrInfinity start with
  | JsNumber.MinusInfinity => l
  | JsNumber.PlusInfinity => []
  | JsNumber.Integer z =>
      if (z <? 0)%Z then skipn (Z.to_nat (Z.max 0 (Z.of_nat (List.length l) + z))) l
      else skipn (Z.to_nat z) l
  end.

(** [getAuditLogs(limit)], with its default of 100:
    [this.auditLogs.slice(-limit)]. *)
Definition getAuditLogs (ex : Executor) (limit : option JsNumber.t) : list AuditLog :=
  sliceFrom (JsNumber.neg (match limit with Some n => n | None => JsNumber.ofZ 100 end))
    (auditLogs ex).

(** [explainQuery]: the query behind the word EXPLAIN, with auditing off. *)
Definition explainQuery (cfg : SecurityConfig) (ex : Executor) (query : jstr)
    (parameters : list JsValue.t) (race : RaceOutcome) : Executor * (jstr + QueryResult) :=
  executeQuery cfg ex (JS.lit "EXPLAIN " ++ query) parameters
    {| timeout := None; maxRows := None; enableAudit := Some false; dryRun := None |} race.

End QueryExecutor.

(* ================================================================== *)
(** ** database/adapters/factory.ts *)
(* ================================================================== *)

Module Factory.

Inductive DatabaseType : Type := mysql | postgresql | sqlite.

Record DatabaseConfig : Type := {
  host : option jstr;
  port : Z;
  database : jstr;
  user : jstr;
  password : jstr;
  type : option DatabaseType
}.

(** [config.host?.includes(s)]. *)
Definition hostIncludes (s : jstr) (config : DatabaseConfig) : bool :=
  match host config with
  | Some h => JS.includes s h
  | None => false
  end.

Definition detectDatabaseType (config : DatabaseConfig) : DatabaseType :=
  match type config with
  | Some t => t
  | None =>
      if (port config =? 3306)%Z || hostIncludes (JS.lit "mysql") config then mysql
      else if (port config =? 5432)%Z || hostIncludes (JS.lit "postgres") config then postgresql
      else mysql
  end.

(** The precedence as the specification words it: the explicit type, then
    the port rule, then the host-substring rule, then the default. *)
Definition specifiedDatabaseType (config : DatabaseConfig) : DatabaseType :=
  match type config with
  | Some t => t
  | None =>
      if (port config =? 3306)%Z then mysql
      else if (port config =? 5432)%Z then postgresql
      else if hostIncludes (JS.lit "mysql") config then mysql
      else if hostIncludes (JS.lit "postgres") config then postgresql
      else mysql
  end.

End Factory.

(* ================================================================== *)
(** ** database/adapters/mysql/mysql-adapter.ts *)
(* ================================================================== *)

Module MySQLAdapter.

(** The counters of [AdapterMetrics]; the two ratios derived from them are
    floating-point values and are not embedded. *)
Record AdapterMetrics : Type := {
  queriesExecuted : Z;
  totalExecutionTime : Z;
  errorCount : Z
}.

Inductive AdapterEvent : Type :=
| query_executed (sql : jstr) (executionTime rowCount : Z)
| query_failed (sql : jstr) (error : jstr)
| metrics_collected (m : AdapterMetrics)
| connected
| disconnected (error : option jstr).

Record Adapter : Type := {
  pool : bool;                  (* [this.pool] is not null *)
  isShuttingDown : bool;
  activeQueries : Z;            (* [connectionStatus.activeQueries] *)
  metricsEnabled : bool;
  metrics : AdapterMetrics;
  emitted : list AdapterEvent;  (* events, oldest first *)
  now : Z
}.

(** What [pool.execute] resolves to, or the message it rejects with. *)
Inductive ExecuteReply : Type :=
| ExecuteRows (rows : list Row) (fields : list jstr)
| ExecuteHeader (fields : list jstr)
| ExecuteError (message : jstr).

Record QueryMetadata : Type := { metaAdapter : jstr; metaQuery : jstr; metaParams : Z }.

Record QueryResult : Type := {
  rows : list Row;
  fields : list jstr;
  rowCount : Z;
  executionTime : Z;
  metadata : QueryMetadata
}.

Definition setActiveQueries (a : Adapter) (n : Z) : Adapter :=
  {| pool := pool a; isShuttingDown := isShuttingDown a; activeQueries := n;
     metricsEnabled := metricsEnabled a; metrics := metrics a;
     emitted := emitted a; now := now a |}.

Definition emit (a : Adapter) (e : AdapterEvent) : Adapter :=
  {| pool := pool a; isShuttingDown := isShuttingDown a; activeQueries := activeQueries a;
     metricsEnabled := metricsEnabled a; metrics := metrics a;
     emitted := emitted a ++ [e]; now := now a |}.

Definition advance (a : Adapter) (elapsed : Z) : Adapter :=
  {| pool := pool a; isShuttingDown := isShuttingDown a; activeQueries := activeQueries a;
     metricsEnabled := metricsEnabled a; metrics := metrics a;
     emitted := emitted a; now := (now a + elapsed)%Z |}.

Definition updateMetrics (a : Adapter) (success : bool) (executionTime_ : Z) : Adapter :=
  if negb (metricsEnabled a) then a
  else
    let m := metrics a in
    let m' := {| queriesExecuted := (queriesExecuted m + 1)%Z;
                 totalExecutionTime := (totalExecutionTime m + executionTime_)%Z;
                 errorCount := if success then errorCount m else (errorCount m + 1)%Z |} in
    let a' := {| pool := pool a; isShuttingDown := isShuttingDown a;
                 activeQueries := activeQueries a;
                 metricsEnabled := metricsEnabled a; metrics := m';
                 emitted := emitted a; now := now a |} in
    if (queriesExecuted m' mod 100 =? 0)%Z then emit a' (metrics_collected m') else a'.

(** [s.substring(0, 100) + (s.length > 100 ? '...' : '')]. *)
Definition excerpt (s : jstr) : jstr :=
  JS.substring0 100 s ++ (if (100 <? List.length s)%nat then JS.lit "..." else []).

(** [query] up to the [await]: the two guards, then the increment. *)
Definition queryBegin (a : Adapter) : jstr + Adapter :=
  if negb (pool a) then inl (JS.lit "MySQL adapter not connected")
  else if isShuttingDown a then inl (JS.lit "MySQL adapter is shutting down")
  else inr (setActiveQueries a (activeQueries a + 1)).

(** [query] from the moment [pool.execute] settles: the [try] or the
    [catch] branch, then the [finally] block. *)
Definition queryEnd (a : Adapter) (startTime : Z) (sql : jstr) (params_ : list JsValue.t)
    (elapsed : Z) (reply : ExecuteReply) : Adapter * (jstr + QueryResult) :=
  let a := advance a elapsed in
  let executionTime_ := (now a - startTime)%Z in
  let '(a, outcome) :=
    match reply with
    | ExecuteError message =>
        let a := updateMetrics a false executionTime_ in
        let a := emit a (query_failed (JS.substring0 100 sql) message) in
        (a, inl message)
    | _ =>
        let a := updateMetrics a true executionTime_ in
        let found := match reply with ExecuteRows r _ => r | _ => [] end in
        let r := {| rows := found;
                    fields := match reply with
                              | ExecuteRows _ f | ExecuteHeader f => f
                              | ExecuteError _ => []
                              end;
                    rowCount := Z.of_nat (List.length found);
                    executionTime := executionTime_;
                    metadata := {| metaAdapter := JS.lit "mysql";
                                   metaQuery := excerpt sql;
                                   metaParams := Z.of_nat (List.length params_) |} |} in
        let a := emit a (query_executed (JS.substring0 100 sql) executionTime_ (rowCount r)) in
        (a, inr r)
    end in
  (setActiveQueries a (activeQueries a - 1), outcome).

Definition query (a : Adapter) (sql : jstr) (params_ : list JsValue.t)
    (elapsed : Z) (reply : ExecuteReply) : Adapter * (jstr + QueryResult) :=
  match queryBegin a with
  | inl message => (a, inl message)
  | inr a1 => queryEnd a1 (now a) sql params_ elapsed reply
  end.

(** Calls in flight on one adapter: each call is a [queryBegin] followed,
    after other calls have had their turn, by its [queryEnd]. *)
Inductive Turn : Type :=
| Begins
| Ends (startTime : Z) (sql : jstr) (params_ : list JsValue.t) (elapsed : Z) (reply : ExecuteReply).

Definition turn (a : Adapter) (t : Turn) : Adapter :=
  match t with
  | Begins => match queryBegin a with inr a1 => a1 | inl _ => a end
  | Ends startTime sql params_ elapsed reply =>
      fst (queryEnd a startTime sql params_ elapsed reply)
  end.

(** Calls that have begun and not yet ended after the turns [ts], starting
    from [inFlight] of them; [None] when some turn ends a call that never
    began. *)
Fixpoint pending (inFlight : nat) (ts : list Turn) : option nat :=
  match ts with
  | [] => Some inFlight
  | Begins :: rest => pending (S inFlight) rest
  | Ends _ _ _ _ _ :: rest =>
      match inFlight with
      | O => None
      | S k => pending k rest
      end
  end.

Definition setPool (a : Adapter) (p : bool) : Adapter :=
  {| pool := p; isShuttingDown := isShuttingDown a; activeQueries := activeQueries a;
     metricsEnabled := metricsEnabled a; metrics := metrics a;
     emitted := emitted a; now := now a |}.

Definition setShuttingDown (a : Adapter) (s : bool) : Adapter :=
  {| pool := pool a; isShuttingDown := s; activeQueries := activeQueries a;
     metricsEnabled := metricsEnabled a; metrics := metrics a;
     emitted := emitted a; now := now a |}.

(** How the awaited steps of [connect] end: [createPool] throws, the test
    connection or its ping rejects, or the ping resolves. *)
Inductive ConnectReply : Type :=
| CreatePoolThrows (message : jstr)
| PingRejects (message : jstr)
| PingResolves.

(** [connect].  The pool is assigned before it is tested.  Of
    [connectionStatus] only [activeQueries] is embedded; [isConnected] and
    [connectionCount] are read by [getConnectionStatus] alone. *)
Definition connect (a : Adapter) (reply : ConnectReply) : Adapter * (jstr + unit) :=
  if pool a then (a, inr tt)
  else
    match reply with
    | CreatePoolThrows message =>
        (emit a (disconnected (Some message)),
         inl (JS.lit "MySQL connection failed: " ++ message))
    | PingRejects message =>
        (emit (setPool a true) (disconnected (Some message)),
         inl (JS.lit "MySQL connection failed: " ++ message))
    | PingResolves => (emit (setPool a true) connected, inr tt)
    end.

(** How [pool.end()] settles. *)
Inductive EndReply : Type :=
| EndResolves
| EndRejects (message : jstr).

(** [disconnect]. *)
Definition disconnect (a : Adapter) (reply : EndReply) : Adapter * (jstr + unit) :=
  if negb (pool a) then (a, inr tt)
  else
    let a := setShuttingDown a true in
    match reply with
    | EndResolves =>
        (emit (setActiveQueries (setPool a false) 0) (disconnected None), inr tt)
    | EndRejects message => (a, inl message)
    end.

(** Calls made on one adapter, each awaited before the next. *)
Inductive Call : Type :=
| Connect (reply : ConnectReply)
| Disconnect (reply : EndReply)
| Query (sql : jstr) (params_ : list JsValue.t) (elapsed : Z) (reply : ExecuteReply).

Definition call (a : Adapter) (c : Call) : Adapter :=
  match c with
  | Connect reply => fst (connect a reply)
  | Disconnect reply => fst (disconnect a reply)
  | Query sql params_ elapsed reply => fst (query a sql params_ elapsed reply)
  end.







End MySQLAdapter.

(* ================================================================== *)
(** ** database/schema-cache.ts *)
(* ================================================================== *)

Module SchemaCache.

(** The length of [JSON.stringify(data)]; [None] when [estimateSize] falls
    into its [catch]. *)
Definition JsonLength : Type := option Z.

Record TableInfo : Type := {
  name : jstr;
  rowCount : option Z;
  tableJson : JsonLength
}.

Record SchemaInfo : Type := {
  tables : list TableInfo;
  schemaJson : JsonLength
}.

Inductive CacheData : Type :=
| DatabaseInfo (json : JsonLength)
| FullSchema (schema : SchemaInfo)
| Relationships (json : JsonLength)
| Table (table : TableInfo)
| Profile (json : JsonLength).

Definition jsonLength (d : CacheData) : JsonLength :=
  match d with
  | DatabaseInfo j | Relationships j | Profile j => j
  | FullSchema s => schemaJson s
  | Table t => tableJson t
  end.

Record CacheEntry : Type := {
  data : CacheData;
  timestamp : Z;
  ttl : Z;
  hits : Z;
  size : Z
}.

Record CacheOptions : Type := {
  defaultTTL : Z;
  maxSize : Z;
  maxEntries : Z;
  cleanupInterval : Z
}.

Inductive Level : Type := debug | info | warn | error.

Record LogEntry : Type := { level : Level; message : jstr; about : jstr }.

Record Cache : Type := {
  cache : JsMap.t CacheEntry;
  statHits : Z;
  statMisses : Z;
  options : CacheOptions;
  logged : list LogEntry;       (* the logger's output, oldest first *)
  now : Z
}.

Definition log (c : Cache) (l : Level) (msg about_ : jstr) : Cache :=
  {| cache := cache c; statHits := statHits c; statMisses := statMisses c;
     options := options c;
     logged := logged c ++ [{| level := l; message := msg; about := about_ |}];
     now := now c |}.

Definition setEntries (c : Cache) (m : JsMap.t CacheEntry) : Cache :=
  {| cache := m; statHits := statHits c; statMisses := statMisses c;
     options := options c; logged := logged c; now := now c |}.

Definition estimateSize (d : CacheData) : Z :=
  match jsonLength d with
  | Some n => (n * 2)%Z
  | None => 1024%Z
  end.

Definition getTotalSize (c : Cache) : Z :=
  fold_left (fun total kv => (total + size (snd kv))%Z) (cache c) 0%Z.

Definition shouldEvict (c : Cache) (newEntrySize : Z) : bool :=
  (Z.of_nat (List.length (cache c)) >=? maxEntries (options c))%Z
  || (getTotalSize c + newEntrySize >? maxSize (options c))%Z.

(** The comparator handed to [sort]: hits ascending, then timestamp. *)
Definition compareEntries (a b : CacheEntry) : Z :=
  if negb (hits a =? hits b)%Z then (hits a - hits b)%Z
  else (timestamp a - timestamp b)%Z.

Fixpoint insertSorted (x : jstr * CacheEntry) (l : list (jstr * CacheEntry))
    : list (jstr * CacheEntry) :=
  match l with
  | [] => [x]
  | y :: rest =>
      if (compareEntries (snd x) (snd y) <? 0)%Z then x :: l
      else y :: insertSorted x rest
  end.

(** [Array.prototype.sort], which is stable. *)
Definition sortEntries (l : list (jstr * CacheEntry)) : list (jstr * CacheEntry) :=
  fold_left (fun acc x => insertSorted x acc) l [].

(** The eviction loop: keys are taken in order until enough space is freed. *)
Fixpoint entriesToEvict (requiredSpace freedSpace : Z) (sorted : list (jstr * CacheEntry))
    : list jstr :=
  match sorted with
  | [] => []
  | (k, e) :: rest =>
      let freedSpace := (freedSpace + size e)%Z in
      if (freedSpace >=? requiredSpace)%Z then [k]
      else k :: entriesToEvict requiredSpace freedSpace rest
  end.

Definition evictEntries (c : Cache) (requiredSpace : Z) : Cache :=
  let victims := entriesToEvict requiredSpace 0 (sortEntries (cache c)) in
  let c := setEntries c (fold_left (fun m k => JsMap.delete k m) victims (cache c)) in
  match victims with
  | [] => c
  | _ :: _ => log c info (JS.lit "Cache eviction completed") []
  end.

(** [set(key, data, ttl)]; it has no failing path. *)
Definition set (c : Cache) (key : jstr) (d : CacheData) (ttl_ : option Z) : Cache :=
  let currentTime := now c in
  let entryTTL := match ttl_ with
                  | Some v => if (v =? 0)%Z then defaultTTL (options c) else v
                  | None => defaultTTL (options c)
                  end in
  let size_ := estimateSize d in
  let c := if shouldEvict c size_ then evictEntries c size_ else c in
  let entry := {| data := d; timestamp := currentTime; ttl := entryTTL;
                  hits := 0; size := size_ |} in
  let c := setEntries c (JsMap.set key entry (cache c)) in
  log c debug (JS.lit "Cache set") key.

Definition setDatabaseInfo (c : Cache) (databaseName : jstr) (i : JsonLength) : Cache :=
  set c (JS.lit "dbinfo:" ++ databaseName) (DatabaseInfo i) None.

Definition setFullSchema (c : Cache) (databaseName : jstr) (s : SchemaInfo) : Cache :=
  set c (JS.lit "schema:" ++ databaseName) (FullSchema s) None.

Definition setTableRelationships (c : Cache) (databaseName : jstr) (r : JsonLength) : Cache :=
  set c (JS.lit "relationships:" ++ databaseName) (Relationships r) None.

Definition setTableInfo (c : Cache) (databaseName tableName : jstr) (t : TableInfo) : Cache :=
  set c (JS.lit "table:" ++ databaseName ++ JS.lit ":" ++ tableName) (Table t) None.

Definition setTableProfile (c : Cache) (databaseName tableName : jstr) (p : JsonLength) : Cache :=
  set c (JS.lit "profile:" ++ databaseName ++ JS.lit ":" ++ tableName) (Profile p) None.

(** How an awaited call on the analyzer or the profiler ends. *)
Inductive Reply (A : Type) : Type :=
| Resolves (a : A)
| Rejects (message : jstr).
Arguments Resolves {A} a.
Arguments Rejects {A} message.

Record Analyzer : Type := {
  getDatabaseInfo : Reply JsonLength;
  analyzeFullSchema : Reply SchemaInfo;
  getTableRelationships : Reply JsonLength
}.

(** [profiler.profileTable(name, ...)]; a resolved [None] is a falsy profile. *)
Record Profiler : Type := {
  profileTable : jstr -> Reply (option JsonLength)
}.

(** The body of the [for] loop over [schema.tables]. *)
Definition warmTable (databaseName : jstr) (profiler : Profiler) (c : Cache) (table : TableInfo)
    : Cache :=
  let c := setTableInfo c databaseName (name table) table in
  let rowCount_ := match rowCount table with Some n => n | None => 0%Z end in
  if (rowCount_ <? 10000)%Z then
    match profileTable profiler (name table) with
    | Resolves (Some profile) => setTableProfile c databaseName (name table) profile
    | Resolves None => c
    | Rejects _ => log c warn (JS.lit "Failed to warm up table profile") (name table)
    end
  else c.

(** The [try] block of [warmup]. *)
Definition warmupTry (c : Cache) (databaseName : jstr) (analyzer : Analyzer)
    (profiler : Profiler) : Cache * (jstr + unit) :=
  match getDatabaseInfo analyzer with
  | Rejects e => (c, inl e)
  | Resolves dbInfo =>
      let c := setDatabaseInfo c databaseName dbInfo in
      match analyzeFullSchema analyzer with
      | Rejects e => (c, inl e)
      | Resolves schema =>
          let c := setFullSchema c databaseName schema in
          match getTableRelationships analyzer with
          | Rejects e => (c, inl e)
          | Resolves relationships =>
              let c := setTableRelationships c databaseName relationships in
              let c := fold_left (warmTable databaseName profiler) (tables schema) c in
              (log c info (JS.lit "Cache warmup completed") databaseName, inr tt)
          end
      end
  end.

(** [warmup]: [inr tt] when the promise resolves, [inl message] when it
    rejects with an error of that message. *)
Definition warmup (c : Cache) (databaseName : jstr) (analyzer : Analyzer)
    (profiler : Profiler) : Cache * (jstr + unit) :=
  let c := log c info (JS.lit "Starting cache warmup") databaseName in
  match warmupTry c databaseName analyzer profiler with
  | (c, inr tt) => (c, inr tt)
  | (c, inl e) => (log c error (JS.lit "Cache warmup failed") databaseName, inl e)
  end.

(** The two log lines that report a failure during a warm-up. *)
Definition profileFailure (table : TableInfo) : LogEntry :=
  {| level := warn;
     message := JS.lit "Failed to warm up table profile";
     about := name table |}.

Definition warmupFailure (databaseName : jstr) : LogEntry :=
  {| level := error; message := JS.lit "Cache warmup failed"; about := databaseName |}.

Definition defaultOptions : CacheOptions :=
  {| defaultTTL := 5 * 60 * 1000;
     maxSize := 100 * 1024 * 1024;
     maxEntries := 1000;
     cleanupInterval := 60 * 1000 |}.

Definition emptyCache : Cache :=
  {| cache := []; statHits := 0; statMisses := 0; options := defaultOptions;
     logged := []; now := 0 |}.

Definition setStats (c : Cache) (hits_ misses_ : Z) : Cache :=
  {| cache := cache c; statHits := hits_; statMisses := misses_;
     options := options c; logged := logged c; now := now c |}.

(** The clock moves on by [elapsed] milliseconds. *)
Definition advance (c : Cache) (elapsed : Z) : Cache :=
  {| cache := cache c; statHits := statHits c; statMisses := statMisses c;
     options := options c; logged := logged c; now := (now c + elapsed)%Z |}.

(** [get(key)]: a miss, an expired entry that is dropped, or a hit, which
    counts on the entry held by the map and on the statistics. *)
Definition get (c : Cache) (key : jstr) : Cache * option CacheData :=
  match JsMap.get key (cache c) with
  | None => (setStats c (statHits c) (statMisses c + 1), None)
  | Some entry =>
      if (now c - timestamp entry >? ttl entry)%Z then
        let c := setEntries c (JsMap.delete key (cache c)) in
        (setStats c (statHits c) (statMisses c + 1), None)
      else
        let entry := {| data := data entry; timestamp := timestamp entry;
                        ttl := ttl entry; hits := (hits entry + 1)%Z;
                        size := size entry |} in
        let c := setEntries c (JsMap.set key entry (cache c)) in
        let c := setStats c (statHits c + 1) (statMisses c) in
        (log c debug (JS.lit "Cache hit") key, Some (data entry))
  end.

Definition deleteKeys (keys : list jstr) (m : JsMap.t CacheEntry) : JsMap.t CacheEntry :=
  fold_left (fun m k => JsMap.delete k m) keys m.

(** [cleanup], the body of the interval timer. *)
Definition cleanup (c : Cache) : Cache :=
  let currentTime := now c in
  let expiredKeys :=
    map fst (filter (fun kv => (currentTime - timestamp (snd kv) >? ttl (snd kv))%Z)
               (cache c)) in
  let c := setEntries c (deleteKeys expiredKeys (cache c)) in
  match expiredKeys with
  | [] => c
  | _ :: _ => log c debug (JS.lit "Cache cleanup completed") []
  end.

(** [invalidate(pattern)] for a pattern that starts with [^]: [regex] is
    what follows the anchor, and it is tried at the start of each key. *)
Definition invalidateAnchored (c : Cache) (pattern : jstr) (regex : Regex.re) : Cache :=
  let keysToDelete := filter (Regex.matchPrefix regex) (map fst (cache c)) in
  let c := setEntries c (deleteKeys keysToDelete (cache c)) in
  log c info (JS.lit "Cache invalidated") pattern.

(** The characters that a pattern does not take literally. *)
Definition isSyntaxCharacter (ch : N) : bool :=
  existsb (N.eqb ch) [94; 36; 92; 46; 42; 43; 63; 40; 41; 91; 93; 123; 125; 124]%N.

(** A name that [new RegExp] reads as the literal it is. *)
Definition isLiteralName (s : jstr) : bool := forallb (fun ch => negb (isSyntaxCharacter ch)) s.

Definition databaseKinds : list jstr :=
  map JS.lit [ "schema"; "table"; "profile"; "relationships"; "dbinfo" ]%string.

(** [invalidateDatabase(databaseName)]: the name is pasted into the pattern
    [^(schema|table|profile|relationships|dbinfo):<name>] as it is.  The
    embedding covers the names for which [isLiteralName] holds; a name with
    a syntax character makes another pattern. *)
Definition invalidateDatabase (c : Cache) (databaseName : jstr) : Cache :=
  invalidateAnchored c
    (JS.lit "^(schema|table|profile|relationships|dbinfo):" ++ databaseName)
    (Regex.Cat (Regex.alt (map Regex.word databaseKinds))
       (Regex.Cat (Regex.chr 58) (Regex.word databaseName))).

End SchemaCache.

(* ================================================================== *)
(** ** mcp/multi-database-server.ts and database/connection-manager.ts *)
(* ================================================================== *)

Module MultiDb.

(** One element of the [queries] argument. *)
Record CrossQuery : Type := {
  database : jstr;
  query : jstr;
  alias : option jstr
}.

(** The registry of the connection manager: the names it holds, in
    insertion order, and the default name. *)
Record ConnectionManager : Type := {
  connections : list jstr;
  defaultConnectionName : option jstr
}.

(** [getConnection(name)]: the name of the adapter found, or the message of
    the error thrown. *)
Definition getConnection (mgr : ConnectionManager) (name : jstr) : jstr + jstr :=
  let connectionName :=
    match name with
    | _ :: _ => Some name
    | [] => defaultConnectionName mgr
    end in
  match connectionName with
  | None | Some [] =>
      inl (JS.lit "No connection name specified and no default connection configured")
  | Some n =>
      if JS.arrayIncludes n (connections mgr) then inr n
      else inl (JS.lit "Database connection '" ++ n ++ JS.lit "' not found. Available: "
                  ++ JS.join (JS.lit ", ") (connections mgr))
  end.

(** What [adapter.query] resolves to. *)
Record AdapterResult : Type := {
  rows : list Row;
  fields : list jstr;
  rowCount : Z;
  executionTime : Z
}.

(** How one [adapter.query] call ends, and when: [settledAt] orders the
    settlements of the calls that are in flight together. *)
Record Settlement : Type := {
  settledAt : nat;
  outcome : jstr + AdapterResult
}.

Record ResultItem : Type := {
  itemDatabase : jstr;
  itemAlias : jstr;
  itemQuery : jstr;
  itemExecutionTime : Z;
  itemRowCount : Z;
  itemRows : list Row;
  itemFields : list jstr
}.

Record Summary : Type := {
  totalQueries : Z;
  totalRows : Z;
  totalExecutionTime : Z
}.

(** The object whose JSON text the handler returns. *)
Record Payload : Type := { summary : Summary; results : list ResultItem }.

(** [s.substring(0, 100) + (s.length > 100 ? '...' : '')]. *)
Definition excerpt (s : jstr) : jstr :=
  JS.substring0 100 s ++ (if (100 <? List.length s)%nat then JS.lit "..." else []).

(** [alias || database]: an empty alias is falsy. *)
Definition aliasOrDatabase (q : CrossQuery) : jstr :=
  match alias q with
  | Some ((_ :: _) as a) => a
  | _ => database q
  end.

(** The promise of one [queries.map] callback: when it settles (0 for a
    callback that throws before its [await]) and how. *)
Definition itemPromise (mgr : ConnectionManager) (reply : Settlement) (q : CrossQuery)
    : nat * (jstr + ResultItem) :=
  match getConnection mgr (database q) with
  | inl message => (O, inl message)
  | inr _ =>
      (S (settledAt reply),
       match outcome reply with
       | inl message => inl message
       | inr r =>
           inr {| itemDatabase := database q;
                  itemAlias := aliasOrDatabase q;
                  itemQuery := excerpt (query q);
                  itemExecutionTime := executionTime r;
                  itemRowCount := rowCount r;
                  itemRows := rows r;
                  itemFields := fields r |}
       end)
  end.

(** The rejection that settles first; among equals, the earlier promise. *)
Fixpoint firstRejection {A : Type} (ps : list (nat * (jstr + A))) : option (nat * jstr) :=
  match ps with
  | [] => None
  | (at_, inl message) :: rest =>
      match firstRejection rest with
      | Some (at', message') =>
          if (at' <? at_)%nat then Some (at', message') else Some (at_, message)
      | None => Some (at_, message)
      end
  | (_, inr _) :: rest => firstRejection rest
  end.

Fixpoint fulfilled {A : Type} (ps : list (nat * (jstr + A))) : list A :=
  match ps with
  | [] => []
  | (_, inr a) :: rest => a :: fulfilled rest
  | (_, inl _) :: rest => fulfilled rest
  end.

(** [Promise.all]: every value in input order, or the first rejection. *)
Definition promiseAll {A : Type} (ps : list (nat * (jstr + A))) : jstr + list A :=
  match firstRejection ps with
  | Some (_, message) => inl message
  | None => inr (fulfilled ps)
  end.

(** The [queries.map] of the handler; [replies i] answers the [adapter.query]
    of the item at index [i]. *)
Fixpoint itemPromises (mgr : ConnectionManager) (replies : nat -> Settlement) (i : nat)
    (queries : list CrossQuery) : list (nat * (jstr + ResultItem)) :=
  match queries with
  | [] => []
  | q :: rest => itemPromise mgr (replies i) q :: itemPromises mgr replies (S i) rest
  end.

Definition handleCrossDatabaseQuery (mgr : ConnectionManager) (replies : nat -> Settlement)
    (queries : list CrossQuery) : jstr + Payload :=
  match queries with
  | [] => inl (JS.lit "Queries array is required")
  | _ :: _ =>
      match promiseAll (itemPromises mgr replies 0 queries) with
      | inl message => inl message
      | inr results_ =>
          inr {| summary :=
                   {| totalQueries := Z.of_nat (List.length results_);
                      totalRows := fold_left (fun sum r => (sum + itemRowCount r)%Z) results_ 0%Z;
                      totalExecutionTime :=
                        fold_left (fun sum r => (sum + itemExecutionTime r)%Z) results_ 0%Z |};
                 results := results_ |}
      end
  end.

(** What the [CallTool] request handler answers for [cross_database_query]:
    the JSON text of the payload, or one line of text for a caught error. *)
Inductive ToolResponse : Type :=
| JsonText (p : Payload)
| ErrorText (text : jstr).

Definition callCrossDatabaseQuery (mgr : ConnectionManager) (replies : nat -> Settlement)
    (queries : list CrossQuery) : ToolResponse :=
  match handleCrossDatabaseQuery mgr replies queries with
  | inr p => JsonText p
  | inl message => ErrorText (JS.lit "Error executing cross_database_query: " ++ message)
  end.

(** The sum of a list of numbers. *)
Definition sum (l : list Z) : Z := fold_right Z.add 0%Z l.

(** One [adapter.query] call made by a handler: the connection it went to,
    the statement and the parameters. *)
Record AdapterCall : Type := {
  callConnection : jstr;
  callSql : jstr;
  callParams : list jstr
}.

(** The object whose JSON text [handleExecuteQuery] returns; [truncated]
    and [cached] are not set by an adapter and do not reach the text. *)
Record ExecutePayload : Type := {
  payloadDatabase : jstr;
  payloadQuery : jstr;
  payloadExecutionTime : Z;
  payloadRowCount : Z;
  payloadRows : list Row;
  payloadFields : list jstr
}.

(** [s.substring(0, 200) + (s.length > 200 ? '...' : '')]. *)
Definition excerpt200 (s : jstr) : jstr :=
  JS.substring0 200 s ++ (if (200 <? List.length s)%nat then JS.lit "..." else []).

(** [handleExecuteQuery(query, database, parameters)]: the calls it makes
    on adapters, and the payload or the message of the error thrown.  A
    missing argument is [None]; [reply] is how [adapter.query] settles. *)
Definition handleExecuteQuery (mgr : ConnectionManager) (query : option jstr)
    (database : option jstr) (parameters : option (list jstr))
    (reply : jstr + AdapterResult) : list AdapterCall * (jstr + ExecutePayload) :=
  match query with
  | None | Some [] => ([], inl (JS.lit "Query is required"))
  | Some q =>
      let dbName := match database with
                    | Some ((_ :: _) as d) => Some d
                    | _ => defaultConnectionName mgr
                    end in
      match dbName with
      | None | Some [] =>
          ([], inl (JS.lit "No database specified and no default connection configured"))
      | Some n =>
          match getConnection mgr n with
          | inl message => ([], inl message)
          | inr adapter =>
              ([{| callConnection := adapter; callSql := q;
                   callParams := match parameters with Some ps => ps | None => [] end |}],
               match reply with
               | inl message => inl message
               | inr r =>
                   inr {| payloadDatabase := n;
                          payloadQuery := excerpt200 q;
                          payloadExecutionTime := executionTime r;
                          payloadRowCount := rowCount r;
                          payloadRows := rows r;
                          payloadFields := fields r |}
               end)
          end
      end
  end.

(** The class [[^\/]]. *)
Definition notSlash (c : N) : bool := negb (c =? 47)%N.

(** The pattern [^database:\/\/([^\/]+)\/(.+)$] between its anchors. *)
Definition resourcePattern : Regex.re :=
  Regex.Cat (Regex.word (JS.lit "database://"))
    (Regex.Cat (Regex.plus (Regex.Cls notSlash))
       (Regex.Cat (Regex.chr 47) (Regex.plus Regex.dot))).

(** [uri.match(...)]: the two groups of the pattern.  The first group
    cannot hold a slash and a slash must follow it, so it ends at the first
    slash after the prefix; the second group is the rest. *)
Definition matchResourceUri (uri : jstr) : option (jstr * jstr) :=
  if JS.startsWith (JS.lit "database://") uri then
    let rest := skipn 11 uri in
    let n := JS.spanLen notSlash rest in
    match n, skipn n rest with
    | S _, _ :: ((_ :: _) as resource) =>
        if forallb (fun c => negb (JS.isLineTerminator c)) resource
        then Some (firstn n rest, resource)
        else None
    | _, _ => None
    end
  else None.

(** Where the [ReadResource] handler sends a URI. *)
Inductive ResourceRoute : Type :=
| ReadConnections
| ReadDatabaseResource (database resource : jstr)
| UnknownResource.

Definition routeResource (uri : jstr) : ResourceRoute :=
  if JS.eqb uri (JS.lit "database://connections") then ReadConnections
  else
    match matchResourceUri uri with
    | Some (database_, resource) => ReadDatabaseResource database_ resource
    | None => UnknownResource
    end.

(** The URIs that the [ListResources] handler publishes. *)
Definition listedResources (mgr : ConnectionManager) : list jstr :=
  JS.lit "database://connections"
  :: flat_map (fun name => [ JS.lit "database://" ++ name ++ JS.lit "/schema";
                             JS.lit "database://" ++ name ++ JS.lit "/tables" ])
       (connections mgr).

End MultiDb.

(* ================================================================== *)
(** ** config/multi-database-config.ts *)
(* ================================================================== *)

Module MultiDatabaseConfigLoader.

(** [s.split(sep)] for a separator of one code unit. *)
Fixpoint splitOnFrom (sep : N) (cur : jstr) (s : jstr) : list jstr :=
  match s with
  | [] => [cur]
  | c :: t =>
      if (c =? sep)%N then cur :: splitOnFrom sep [] t
      else splitOnFrom sep (cur ++ [c]) t
  end.

Definition splitOn (sep : N) (s : jstr) : list jstr := splitOnFrom sep [] s.

(** The value of a digit or letter as a digit of a radix up to 36. *)
Definition digitValue (c : N) : option N :=
  if ((48 <=? c) && (c <=? 57))%N then Some (c - 48)%N
  else if ((97 <=? c) && (c <=? 122))%N then Some (c - 87)%N
  else if ((65 <=? c) && (c <=? 90))%N then Some (c - 55)%N
  else None.

(** The digits of the longest prefix that is a numeral of the radix. *)
Fixpoint takeDigits (radix : N) (s : jstr) : list N :=
  match s with
  | [] => []
  | c :: t =>
      match digitValue c with
      | Some d => if (d <? radix)%N then d :: takeDigits radix t else []
      | None => []
      end
  end.

(** [parseInt(s)] without a radix: leading white space, a sign, the prefix
    [0x] or [0X] for radix 16, then the longest numeral; [None] is NaN.
    The integer is exact, where the code rounds one above 2^53 to a
    double. *)
Definition parseInt (s : jstr) : option Z :=
  let s := JS.trimStart s in
  let '(sign, s) := match s with
                    | 45%N :: t => ((-1)%Z, t)
                    | 43%N :: t => (1%Z, t)
                    | _ => (1%Z, s)
                    end in
  let '(radix, s) := match s with
                     | 48%N :: x :: t =>
                         if ((x =? 120) || (x =? 88))%N then (16%N, t) else (10%N, s)
                     | _ => (10%N, s)
                     end in
  match takeDigits radix s with
  | [] => None
  | ds => Some (sign * Z.of_N (fold_left (fun acc d => (acc * radix + d)%N) ds 0%N))%Z
  end.

(** The value of an optional property of a connection. *)
Inductive PropertyValue : Type :=
| PString (s : jstr)
| PNumber (n : option Z)
| PTags (tags : list jstr)
| PSsl (mode ca : option jstr).

(** [DatabaseConnectionConfig]: the six properties every connection is
    created with, and the optional ones under their names, in the order of
    their first assignment. *)
Record DatabaseConnectionConfig : Type := {
  name : jstr;
  host : jstr;
  port : option Z;              (* [None] is NaN *)
  user : jstr;
  password : jstr;
  database : jstr;
  optional : JsMap.t PropertyValue
}.

Record MultiDatabaseConfig : Type := {
  connections : JsMap.t DatabaseConnectionConfig;
  defaultConnection : option jstr
}.

Definition blank (connectionName : jstr) : DatabaseConnectionConfig :=
  {| name := connectionName; host := []; port := Some 0%Z; user := []; password := [];
     database := []; optional := [] |}.

Definition setOptional (c : DatabaseConnectionConfig) (k : jstr) (v : PropertyValue)
    : DatabaseConnectionConfig :=
  {| name := name c; host := host c; port := port c; user := user c;
     password := password c; database := database c;
     optional := JsMap.set k v (optional c) |}.

(** [connections[connectionName].ssl], or the empty object made for it. *)
Definition sslOf (c : DatabaseConnectionConfig) : option jstr * option jstr :=
  match JsMap.get (JS.lit "ssl") (optional c) with
  | Some (PSsl mode ca) => (mode, ca)
  | _ => (None, None)
  end.

(** The [switch] over the name of the property. *)
Definition assign (c : DatabaseConnectionConfig) (property value : jstr)
    : DatabaseConnectionConfig :=
  if JS.eqb property (JS.lit "host") then
    {| name := name c; host := value; port := port c; user := user c;
       password := password c; database := database c; optional := optional c |}
  else if JS.eqb property (JS.lit "port") then
    {| name := name c; host := host c; port := parseInt value; user := user c;
       password := password c; database := database c; optional := optional c |}
  else if JS.eqb property (JS.lit "user") then
    {| name := name c; host := host c; port := port c; user := value;
       password := password c; database := database c; optional := optional c |}
  else if JS.eqb property (JS.lit "password") then
    {| name := name c; host := host c; port := port c; user := user c;
       password := value; database := database c; optional := optional c |}
  else if JS.eqb property (JS.lit "database") || JS.eqb property (JS.lit "db") then
    {| name := name c; host := host c; port := port c; user := user c;
       password := password c; database := value; optional := optional c |}
  else if JS.eqb property (JS.lit "type") then
    setOptional c (JS.lit "type") (PString value)
  else if JS.eqb property (JS.lit "description") then
    setOptional c (JS.lit "description") (PString value)
  else if JS.eqb property (JS.lit "tags") then
    setOptional c (JS.lit "tags") (PTags (map JS.trim (splitOn 44 value)))
  else if JS.eqb property (JS.lit "ssl_mode") then
    setOptional c (JS.lit "ssl") (PSsl (Some value) (snd (sslOf c)))
  else if JS.eqb property (JS.lit "ssl_ca") then
    setOptional c (JS.lit "ssl") (PSsl (fst (sslOf c)) (Some value))
  else if JS.eqb property (JS.lit "connection_timeout") then
    setOptional c (JS.lit "connectionTimeout") (PNumber (parseInt value))
  else if JS.eqb property (JS.lit "connection_limit") then
    setOptional c (JS.lit "connectionLimit") (PNumber (parseInt value))
  else if JS.eqb property (JS.lit "idle_timeout") then
    setOptional c (JS.lit "idleTimeout") (PNumber (parseInt value))
  else c.

(** The connection and the property that a variable names: the key starts
    with [DB_] and has three parts or more between underscores; the second
    part, in lower case, is the connection, the rest the property. *)
Definition parseKey (key : jstr) : option (jstr * jstr) :=
  if JS.startsWith (JS.lit "DB_") key then
    match splitOn 95 key with
    | _ :: connectionName :: ((_ :: _) as rest) =>
        Some (JS.toLowerCase connectionName, JS.toLowerCase (JS.join (JS.lit "_") rest))
    | _ => None
    end
  else None.

(** The body of the loop over [Object.entries(process.env)].  The record
    [connections] is a plain object: under the name [constructor] it
    answers with the inherited property, so no connection of that name is
    ever created (the assignments then land on that inherited object). *)
Definition loadVariable (connections_ : JsMap.t DatabaseConnectionConfig)
    (variable : jstr * jstr) : JsMap.t DatabaseConnectionConfig :=
  let '(key, value) := variable in
  match value with
  | [] => connections_
  | _ :: _ =>
      match parseKey key with
      | None => connections_
      | Some (connectionName, property) =>
          if JS.eqb connectionName (JS.lit "constructor") then connections_
          else
            let c := match JsMap.get connectionName connections_ with
                     | Some c => c
                     | None => blank connectionName
                     end in
            JsMap.set connectionName (assign c property value) connections_
      end
  end.

(** A property name that is an array index: the canonical numeral of an
    integer below 2^32 - 1. *)
Definition arrayIndex (k : jstr) : option N :=
  match k with
  | [] => None
  | c :: t =>
      if forallb (fun d => ((48 <=? d) && (d <=? 57))%N) k
         && (negb (c =? 48)%N || match t with [] => true | _ :: _ => false end)
      then
        let v := fold_left (fun acc d => (acc * 10 + (d - 48))%N) k 0%N in
        if (v <? 4294967295)%N then Some v else None
      else None
  end.

Fixpoint insertByIndex {V : Type} (x : N * (jstr * V)) (l : list (N * (jstr * V)))
    : list (N * (jstr * V)) :=
  match l with
  | [] => [x]
  | y :: rest => if (fst x <? fst y)%N then x :: l else y :: insertByIndex x rest
  end.

(** [Object.entries]: the array indices in ascending order, then the other
    names in the order of their creation. *)
Definition entries {V : Type} (m : JsMap.t V) : list (jstr * V) :=
  map snd
    (fold_left (fun acc kv => match arrayIndex (fst kv) with
                              | Some i => insertByIndex (i, kv) acc
                              | None => acc
                              end) m [])
  ++ filter (fun kv => match arrayIndex (fst kv) with Some _ => false | None => true end) m.

(** The checks of [validateConfig] on one connection. *)
Definition checkConnection (connectionName : jstr) (c : DatabaseConnectionConfig)
    : option jstr :=
  let complain what :=
    Some (JS.lit "Connection '" ++ connectionName ++ JS.lit "': " ++ JS.lit what) in
  match host c with
  | [] => complain "host is required"%string
  | _ :: _ =>
      if match port c with Some p => (p <=? 0)%Z | None => true end
      then complain "valid port is required"%string
      else
        match user c with
        | [] => complain "user is required"%string
        | _ :: _ =>
            match password c with
            | [] => complain "password is required"%string
            | _ :: _ =>
                match database c with
                | [] => complain "database is required"%string
                | _ :: _ => None
                end
            end
        end
  end.

Fixpoint firstComplaint (l : list (jstr * DatabaseConnectionConfig)) : option jstr :=
  match l with
  | [] => None
  | (connectionName, c) :: rest =>
      match checkConnection connectionName c with
      | Some message => Some message
      | None => firstComplaint rest
      end
  end.

(** [config.connections[name]] is truthy: a connection of that name, or a
    property that every object inherits. *)
Definition answers (connections_ : JsMap.t DatabaseConnectionConfig) (n : jstr) : bool :=
  match JsMap.get n connections_ with
  | Some _ => true
  | None => JS.eqb n (JS.lit "constructor") || JS.eqb n (JS.lit "__proto__")
  end.

(** [validateConfig]: the message of the error it throws, if any. *)
Definition validateConfig (config : MultiDatabaseConfig) : option jstr :=
  match connections config with
  | [] => Some (JS.lit "No database connections configured")
  | _ :: _ =>
      match firstComplaint (entries (connections config)) with
      | Some message => Some message
      | None =>
          match defaultConnection config with
          | Some ((_ :: _) as d) =>
              if answers (connections config) d then None
              else Some (JS.lit "Default connection '" ++ d
                           ++ JS.lit "' not found in connections")
          | _ => None
          end
      end
  end.

(** [loadFromEnvironment], on the variables of the environment in the
    order [Object.entries(process.env)] lists them. *)
Definition loadFromEnvironment (env : list (jstr * jstr)) : jstr + MultiDatabaseConfig :=
  let connections_ := fold_left loadVariable env [] in
  let defaultConnection_ :=
    match JsMap.get (JS.lit "DB_DEFAULT_CONNECTION") env with
    | Some v => match JS.toLowerCase v with
                | [] => None
                | (_ :: _) as d => Some d
                end
    | None => None
    end in
  let config := {| connections := connections_; defaultConnection := defaultConnection_ |} in
  match validateConfig config with
  | Some message => inl message
  | None => inr config
  end.

End MultiDatabaseConfigLoader.

(* ================================================================== *)
(** ** Concrete scenarios used by the examples below *)
(* ================================================================== *)

Module Scenario.

Import QueryExecutor.

Definition select1 : jstr := JS.lit "SELECT 1".

Definition deleteUsers : jstr := JS.lit "DELETE FROM users".

(** [{ timeout: 100 }]. *)
Definition timeout100 : QueryOptions :=
  {| timeout := Some 100%Z; maxRows := None; enableAudit := None; dryRun := None |}.

(** [{ maxRows: -1 }]. *)
Definition maxRowsMinus1 : QueryOptions :=
  {| timeout := None; maxRows := Some (JsNumber.ofZ (-1)); enableAudit := None;
     dryRun := None |}.

(** [{ maxRows: 2 }]. *)
Definition maxRows2 : QueryOptions :=
  {| timeout := None; maxRows := Some (JsNumber.ofZ 2); enableAudit := None;
     dryRun := None |}.

(** [{ maxRows: 2.5 }]. *)
Definition maxRowsTwoAndHalf : QueryOptions :=
  {| timeout := None; maxRows := Some (JsNumber.Finite 5 2); enableAudit := None;
     dryRun := None |}.

Definition idRow (n : Z) : Row := [(JS.lit "id", JsValue.VNumber n)].

(** [{ host: 'mysql-replica.internal', port: 5432, ... }] without [type]. *)
Definition mysqlHostPostgresPort : Factory.DatabaseConfig :=
  {| Factory.host := Some (JS.lit "mysql-replica.internal");
     Factory.port := 5432;
     Factory.database := JS.lit "d";
     Factory.user := JS.lit "u";
     Factory.password := JS.lit "p";
     Factory.type := None |}.

(** A query that reads a column whose name holds a forbidden keyword. *)
Definition updatedAtColumn : jstr := JS.lit "SELECT updated_at FROM orders".

(** A comment that holds a quote. *)
Definition quoteInComment : jstr := JS.lit "SELECT 1 -- it's".

(** A string literal in the [WHERE] clause. *)
Definition quoteInLiteral : jstr := JS.lit "SELECT name FROM t WHERE name = 'bob'".

(** A block comment in front of the statement. *)
Definition headerComment : jstr := JS.lit "/* report */ SELECT 1".

(** A block comment between two words. *)
Definition commentBetweenWords : jstr := JS.lit "SELECT 1 /* x */ FROM t".

(** Runs of white space and a trailing line comment. *)
Definition untidySelect : jstr := JS.lit "  SELECT  id   FROM t -- newest first ".

(** A connected adapter with no call in flight. *)
Definition idleAdapter : MySQLAdapter.Adapter :=
  {| MySQLAdapter.pool := true;
     MySQLAdapter.isShuttingDown := false;
     MySQLAdapter.activeQueries := 0;
     MySQLAdapter.metricsEnabled := true;
     MySQLAdapter.metrics :=
       {| MySQLAdapter.queriesExecuted := 0;
          MySQLAdapter.totalExecutionTime := 0;
          MySQLAdapter.errorCount := 0 |};
     MySQLAdapter.emitted := [];
     MySQLAdapter.now := 0 |}.

(** Two registered pools, [a] and [b]. *)
Definition twoPools : MultiDb.ConnectionManager :=
  {| MultiDb.connections := [JS.lit "a"; JS.lit "b"];
     MultiDb.defaultConnectionName := Some (JS.lit "a") |}.

Definition twoQueries : list MultiDb.CrossQuery :=
  [ {| MultiDb.database := JS.lit "a"; MultiDb.query := JS.lit "SELECT id FROM t";
       MultiDb.alias := Some (JS.lit "A") |};
    {| MultiDb.database := JS.lit "b"; MultiDb.query := JS.lit "SELECT id FROM u";
       MultiDb.alias := Some (JS.lit "B") |} ].

(** Three items: one with an alias, one without, one with an empty alias. *)
Definition mixedAliases : list MultiDb.CrossQuery :=
  [ {| MultiDb.database := JS.lit "a"; MultiDb.query := JS.lit "SELECT id FROM t";
       MultiDb.alias := Some (JS.lit "A") |};
    {| MultiDb.database := JS.lit "b"; MultiDb.query := JS.lit "SELECT id FROM u";
       MultiDb.alias := None |};
    {| MultiDb.database := JS.lit "a"; MultiDb.query := JS.lit "SELECT id FROM v";
       MultiDb.alias := Some [] |} ].

Definition rowsOf (n : nat) (ms : Z) : MultiDb.AdapterResult :=
  {| MultiDb.rows := map (fun i => idRow (Z.of_nat i)) (List.seq 0 n);
     MultiDb.fields := [JS.lit "id"];
     MultiDb.rowCount := Z.of_nat n;
     MultiDb.executionTime := ms |}.

(** Pool [a] answers three rows, pool [b] five. *)
Definition bothSucceed (i : nat) : MultiDb.Settlement :=
  match i with
  | O => {| MultiDb.settledAt := 1; MultiDb.outcome := inr (rowsOf 3 12) |}
  | _ => {| MultiDb.settledAt := 2; MultiDb.outcome := inr (rowsOf 5 20) |}
  end.

(** Pool [a] answers three rows, the query on pool [b] fails. *)
Definition secondFails (i : nat) : MultiDb.Settlement :=
  match i with
  | O => {| MultiDb.settledAt := 1; MultiDb.outcome := inr (rowsOf 3 12) |}
  | _ => {| MultiDb.settledAt := 2;
            MultiDb.outcome := inl (JS.lit "Unknown column 'id' in 'field list'") |}
  end.

(** Both queries fail; the one on pool [b] settles first. *)
Definition bothFail (i : nat) : MultiDb.Settlement :=
  match i with
  | O => {| MultiDb.settledAt := 5; MultiDb.outcome := inl (JS.lit "late failure on a") |}
  | _ => {| MultiDb.settledAt := 1; MultiDb.outcome := inl (JS.lit "early failure on b") |}
  end.

Definition usersTable : SchemaCache.TableInfo :=
  {| SchemaCache.name := JS.lit "users";
     SchemaCache.rowCount := Some 42%Z;
     SchemaCache.tableJson := Some 120%Z |}.

Definition shopSchema : SchemaCache.SchemaInfo :=
  {| SchemaCache.tables := [usersTable]; SchemaCache.schemaJson := Some 300%Z |}.

(** An analyzer whose [getDatabaseInfo] rejects. *)
Definition failingAnalyzer : SchemaCache.Analyzer :=
  {| SchemaCache.getDatabaseInfo := SchemaCache.Rejects (JS.lit "connect ETIMEDOUT");
     SchemaCache.analyzeFullSchema := SchemaCache.Resolves shopSchema;
     SchemaCache.getTableRelationships := SchemaCache.Resolves (Some 2%Z) |}.

Definition workingAnalyzer : SchemaCache.Analyzer :=
  {| SchemaCache.getDatabaseInfo := SchemaCache.Resolves (Some 80%Z);
     SchemaCache.analyzeFullSchema := SchemaCache.Resolves shopSchema;
     SchemaCache.getTableRelationships := SchemaCache.Resolves (Some 2%Z) |}.

(** A profiler whose [profileTable] always rejects. *)
Definition failingProfiler : SchemaCache.Profiler :=
  {| SchemaCache.profileTable := fun _ => SchemaCache.Rejects (JS.lit "profiling failed") |}.




(** The variables of one complete connection, [main]. *)
Definition mainOnly : list (jstr * jstr) :=
  [ (JS.lit "PATH", JS.lit "/usr/bin");
    (JS.lit "DB_MAIN_HOST", JS.lit "db.internal");
    (JS.lit "DB_MAIN_PORT", JS.lit "3306");
    (JS.lit "DB_MAIN_USER", JS.lit "app");
    (JS.lit "DB_MAIN_PASSWORD", JS.lit "secret");
    (JS.lit "DB_MAIN_DATABASE", JS.lit "shop") ].

(** The same, with [main] chosen as the default connection. *)
Definition mainAsDefault : list (jstr * jstr) :=
  mainOnly ++ [ (JS.lit "DB_DEFAULT_CONNECTION", JS.lit "main") ].

(** A cache limited to one entry and to 100 bytes, holding the info of
    database [shop]. *)
Definition tinyCache : SchemaCache.Cache :=
  SchemaCache.setDatabaseInfo
    {| SchemaCache.cache := [];
       SchemaCache.statHits := 0;
       SchemaCache.statMisses := 0;
       SchemaCache.options :=
         {| SchemaCache.defaultTTL := 300000;
            SchemaCache.maxSize := 100;
            SchemaCache.maxEntries := 1;
            SchemaCache.cleanupInterval := 60000 |};
       SchemaCache.logged := [];
       SchemaCache.now := 0 |}
    (JS.lit "shop") (Some 10%Z).

(** The schemas of the databases [shop] and [shop2], and the info of
    [warehouse], in one cache. *)
Definition threeDatabases : SchemaCache.Cache :=
  SchemaCache.setDatabaseInfo
    (SchemaCache.setFullSchema
       (SchemaCache.setFullSchema SchemaCache.emptyCache (JS.lit "shop") shopSchema)
       (JS.lit "shop2") shopSchema)
    (JS.lit "warehouse") (Some 80%Z).

End Scenario.

(* ================================================================== *)
(** ** Facts about strings *)
(* ================================================================== *)

Section StringFacts.

Import JS.

Lemma eqb_eq (a b : str) : eqb a b = true <-> a = b.
Proof. unfold eqb; destruct (list_eq_dec N.eq_dec a b); split; congruence. Qed.

Lemma lineTerminator_is_whiteSpace c :
  isLineTerminator c = true -> isWhiteSpace c = true.
Proof.
  unfold isLineTerminator. cbn [existsb].
  repeat rewrite orb_true_iff. repeat rewrite N.eqb_eq.
  intros H.
  repeat match goal with
         | H : _ \/ _ |- _ => destruct H as [H | H]
         end; subst; try discriminate; reflexivity.
Qed.

Lemma trimStart_suffix s : exists a, s = a ++ trimStart s.
Proof.
  induction s as [| c t [a IH]]; [now exists []|].
  cbn. destruct (isWhiteSpace c).
  - exists (c :: a). cbn. now f_equal.
  - now exists [].
Qed.

Lemma trimEnd_prefix s : exists b, s = trimEnd s ++ b.
Proof.
  induction s as [| c t [b IH]]; [now exists []|].
  cbn. destruct (trimEnd t) as [| d t'] eqn:E.
  - destruct (isWhiteSpace c).
    + now exists (c :: t).
    + exists b. cbn in *. now f_equal.
  - exists b. cbn in *. now f_equal.
Qed.

Lemma trimStart_length s : (List.length (trimStart s) <= List.length s)%nat.
Proof.
  destruct (trimStart_suffix s) as [a H].
  rewrite H at 2. rewrite length_app. lia.
Qed.

Lemma trimEnd_length s : (List.length (trimEnd s) <= List.length s)%nat.
Proof.
  destruct (trimEnd_prefix s) as [b H].
  rewrite H at 2. rewrite length_app. lia.
Qed.

Lemma trim_length s : (List.length (trim s) <= List.length s)%nat.
Proof.
  unfold trim. pose proof (trimEnd_length (trimStart s)). pose proof (trimStart_length s). lia.
Qed.

Lemma trimEnd_idem s : trimEnd (trimEnd s) = trimEnd s.
Proof.
  induction s as [| c t IH]; [reflexivity|].
  cbn. destruct (trimEnd t) as [| d t'] eqn:E.
  - destruct (isWhiteSpace c) eqn:W; [reflexivity|]. cbn. now rewrite W.
  - change (trimEnd (c :: d :: t'))
      with (match trimEnd (d :: t') with
            | [] => if isWhiteSpace c then [] else [c]
            | x :: r => c :: x :: r
            end).
    now rewrite IH.
Qed.

Lemma trimEnd_head c t :
  isWhiteSpace c = false -> exists t', trimEnd (c :: t) = c :: t'.
Proof.
  intros W. cbn. destruct (trimEnd t); [rewrite W|]; eauto.
Qed.

Lemma trimStart_head s :
  match trimStart s with
  | [] => True
  | c :: _ => isWhiteSpace c = false
  end.
Proof.
  induction s as [| c t IH]; [exact I|].
  cbn. destruct (isWhiteSpace c) eqn:W; [exact IH | exact W].
Qed.

Lemma trim_idem s : trim (trim s) = trim s.
Proof.
  unfold trim.
  pose proof (trimStart_head s) as H.
  destruct (trimStart s) as [| c t]; [reflexivity|].
  destruct (@trimEnd_head c t H) as [t' E]. rewrite E.
  cbn [trimStart]. rewrite H. rewrite <- E. apply trimEnd_idem.
Qed.

(** The replacement resumes after the match. *)
Lemma replaceFrom_skip m by_ (s : str) :
  forall n, replaceFrom m by_ n s = replaceAll m by_ (skipn n s).
Proof.
  induction s as [| c t IH]; intros [| n]; try reflexivity.
  cbn [replaceFrom skipn]. apply IH.
Qed.

Lemma replaceAll_no_match m by_ c t :
  m (c :: t) = None \/ m (c :: t) = Some 0%nat ->
  replaceAll m by_ (c :: t) = c :: replaceAll m by_ t.
Proof. intros [H | H]; unfold replaceAll; cbn; now rewrite H. Qed.

Lemma replaceAll_match m by_ c t n :
  m (c :: t) = Some (S n) ->
  replaceAll m by_ (c :: t) = by_ ++ replaceAll m by_ (skipn n t).
Proof.
  intros H. unfold replaceAll at 1. cbn. rewrite H. now rewrite replaceFrom_skip.
Qed.

(** Induction along the scan of [replaceAll]. *)
Lemma replaceAll_ind m by_ (P : str -> str -> Prop) :
  P [] [] ->
  (forall c t,
      m (c :: t) = None \/ m (c :: t) = Some 0%nat ->
      P t (replaceAll m by_ t) -> P (c :: t) (c :: replaceAll m by_ t)) ->
  (forall c t n,
      m (c :: t) = Some (S n) ->
      P (skipn n t) (replaceAll m by_ (skipn n t)) ->
      P (c :: t) (by_ ++ replaceAll m by_ (skipn n t))) ->
  forall s, P s (replaceAll m by_ s).
Proof.
  intros H0 Hno Hyes s.
  remember (List.length s) as k eqn:Hk.
  revert s Hk. induction k as [k IH] using lt_wf_ind. intros s Hk.
  destruct s as [| c t]; [exact H0|].
  destruct (m (c :: t)) as [[| n] |] eqn:E.
  - rewrite replaceAll_no_match by auto. apply Hno; [auto|].
    apply (IH (List.length t)); [subst; cbn; lia | reflexivity].
  - rewrite (@replaceAll_match m by_ c t n E). apply Hyes; [exact E|].
    apply (IH (List.length (skipn n t))); [|reflexivity].
    subst. rewrite length_skipn. cbn. lia.
  - rewrite replaceAll_no_match by auto. apply Hno; [auto|].
    apply (IH (List.length t)); [subst; cbn; lia | reflexivity].
Qed.

Lemma replaceAll_length m by_ s :
  (List.length by_ <= 1)%nat ->
  (List.length (replaceAll m by_ s) <= List.length s)%nat.
Proof.
  intros Hby. apply (replaceAll_ind m by_ (fun s out => List.length out <= List.length s)%nat).
  - reflexivity.
  - intros c t _ IH. cbn. lia.
  - intros c t n _ IH. rewrite length_app. rewrite length_skipn in IH. cbn. lia.
Qed.

Lemma replaceAll_noMatch m by_ s : noMatch m s -> replaceAll m by_ s = s.
Proof.
  induction s as [| c t IH]; [reflexivity|].
  intros [H Ht]. rewrite replaceAll_no_match by auto. now rewrite IH.
Qed.

(** A replacement by the empty string that changes nothing found no match. *)
Lemma replaceAll_fixed_noMatch m s :
  (forall t, m t <> Some 0%nat) ->
  replaceAll m [] s = s -> noMatch m s.
Proof.
  intros Hpos. induction s as [| c t IH]; [intros; exact I|].
  destruct (m (c :: t)) as [[| n] |] eqn:E.
  - now destruct (Hpos (c :: t)).
  - rewrite (@replaceAll_match m [] c t n E). cbn [app]. intros H.
    assert (L : (List.length (replaceAll m [] (skipn n t)) <= List.length (skipn n t))%nat)
      by (apply replaceAll_length; cbn; lia).
    rewrite H in L. rewrite length_skipn in L. cbn in L. lia.
  - rewrite replaceAll_no_match by auto. intros H. injection H as H.
    split; [exact E | now apply IH].
Qed.

Lemma noMatch_app_r m a b : noMatch m (a ++ b) -> noMatch m b.
Proof. induction a as [| c a IH]; [auto|]. intros [_ H]. now apply IH. Qed.

Lemma noMatch_app_l m a b :
  (forall t w, m (t ++ w) = None -> m t = None) ->
  noMatch m (a ++ b) -> noMatch m a.
Proof.
  intros Hext. induction a as [| c a IH]; [intros; exact I|].
  intros [H Ha]. split; [now apply Hext with b | now apply IH].
Qed.

Lemma noMatch_trim m s :
  (forall t w, m (t ++ w) = None -> m t = None) ->
  noMatch m s -> noMatch m (trim s).
Proof.
  intros Hext H. unfold trim.
  destruct (trimStart_suffix s) as [a Ha].
  destruct (trimEnd_prefix (trimStart s)) as [b Hb].
  rewrite Ha in H. apply noMatch_app_r in H.
  rewrite Hb in H. now apply noMatch_app_l in H.
Qed.

Lemma startsWith_app p s w : startsWith p s = true -> startsWith p (s ++ w) = true.
Proof.
  revert s. induction p as [| a p IH]; intros [| b s]; cbn; try easy.
  rewrite !andb_true_iff. intros [H1 H2]. auto.
Qed.

Lemma indexOf_app p s w :
  indexOf p s <> None -> indexOf p (s ++ w) <> None.
Proof.
  induction s as [| c t IH].
  - cbn. destruct (startsWith p []) eqn:E; [|congruence].
    intros _. cbn [app].
    assert (p = []) as -> by (destruct p; [reflexivity | discriminate]).
    destruct w; cbn; congruence.
  - cbn [indexOf app]. destruct (startsWith p (c :: t)) eqn:E.
    + pose proof (@startsWith_app p (c :: t) w E) as E'. cbn [app] in E'.
      rewrite E'. congruence.
    + destruct (startsWith p (c :: t ++ w)); [intros _; discriminate|].
      destruct (indexOf p t) as [k |]; [|intros H; now destruct H].
      intros _. destruct (indexOf p (t ++ w)); [cbn; discriminate|].
      exfalso. apply IH; [discriminate | reflexivity].
Qed.

End StringFacts.

(** The primitives on small inputs. *)

Example split_keeps_empty_ends :
  JS.splitWs (JS.lit " a  b ") = [[]; JS.lit "a"; JS.lit "b"; []].
Proof. reflexivity. Qed.

Example split_of_empty_string : JS.splitWs [] = [[]].
Proof. reflexivity. Qed.

Example trim_strips_both_ends :
  JS.trim ([9; 32; 160]%N ++ JS.lit "a b" ++ [10; 13; 8233]%N) = JS.lit "a b".
Proof. reflexivity. Qed.

Example upper_case_of_sharp_s : JS.toUpperCase [115; 116; 114; 97; 223; 101]%N = JS.lit "STRASSE".
Proof. reflexivity. Qed.

Example line_comment_stops_at_line_end :
  QueryValidator.stripLineComments (JS.lit "a -- b" ++ [10%N] ++ JS.lit "c --")
  = JS.lit "a " ++ [10%N] ++ JS.lit "c ".
Proof. reflexivity. Qed.

Example block_comment_needs_its_own_closer :
  QueryValidator.stripBlockComments (JS.lit "a /*/ b */ c /* d") = JS.lit "a  c /* d".
Proof. reflexivity. Qed.

Example normalizeQuery_on_untidy_select :
  QueryValidator.normalizeQuery Scenario.untidySelect = JS.lit "SELECT id FROM t".
Proof. reflexivity. Qed.

(* ================================================================== *)
(** ** The matcher decides the language of the expression *)
(* ================================================================== *)

Section RegexFacts.

Import Regex.

Lemma lang_nul_inv w : lang Nul w -> False.
Proof. intros H. inversion H. Qed.

Lemma lang_eps_inv w : lang Eps w -> w = [].
Proof. intros H. now inversion H. Qed.

Lemma lang_cls_inv f w : lang (Cls f) w -> exists c, w = [c] /\ f c = true.
Proof. intros H. inversion H; subst. eauto. Qed.

Lemma lang_cat_inv a b w :
  lang (Cat a b) w -> exists u v, w = u ++ v /\ lang a u /\ lang b v.
Proof. intros H. inversion H; subst. eauto. Qed.

Lemma lang_alt_inv a b w : lang (Alt a b) w -> lang a w \/ lang b w.
Proof. intros H. inversion H; subst; auto. Qed.

Lemma nullable_lang r : nullable r = true <-> lang r [].
Proof.
  induction r as [| | f | a IHa b IHb | a IHa b IHb | a IHa]; cbn.
  - split; [discriminate | intros H; now apply lang_nul_inv in H].
  - split; [constructor | reflexivity].
  - split; [discriminate|].
    intros H. apply lang_cls_inv in H. destruct H as (c & E & _). discriminate E.
  - rewrite andb_true_iff, IHa, IHb. split.
    + intros [Ha Hb]. change (lang (Cat a b) ([] ++ [])). now constructor.
    + intros H. apply lang_cat_inv in H. destruct H as (u & v & E & Hu & Hv).
      symmetry in E. apply app_eq_nil in E. destruct E as [-> ->]. auto.
  - rewrite orb_true_iff, IHa, IHb. split.
    + intros [H | H]; [now apply LAltL | now apply LAltR].
    + apply lang_alt_inv.
  - split; [constructor | reflexivity].
Qed.

Lemma lang_cat_cons a b c s :
  lang (Cat a b) (c :: s) <->
  (exists s1 s2, s = s1 ++ s2 /\ lang a (c :: s1) /\ lang b s2)
  \/ (lang a [] /\ lang b (c :: s)).
Proof.
  split.
  - intros H. apply lang_cat_inv in H. destruct H as (u & v & E & Hu & Hv).
    destruct u as [| d u'].
    + right. cbn in E. subst v. auto.
    + left. cbn in E. injection E as E1 E2; subst. eauto.
  - intros [(s1 & s2 & -> & H1 & H2) | [H1 H2]].
    + change (lang (Cat a b) ((c :: s1) ++ s2)). now constructor.
    + change (lang (Cat a b) ([] ++ c :: s)). now constructor.
Qed.

Lemma lang_star_cons a c s :
  lang (Star a) (c :: s) <->
  exists s1 s2, s = s1 ++ s2 /\ lang a (c :: s1) /\ lang (Star a) s2.
Proof.
  split.
  - intros H. remember (Star a) as r eqn:Er. remember (c :: s) as w eqn:Ew.
    revert s Ew.
    induction H as [| | | | | | a0 u v Hu _ Hv IHv]; try discriminate Er; intros s Ew.
    + discriminate Ew.
    + injection Er as E0; subst. destruct u as [| d u'].
      * apply IHv; [reflexivity | exact Ew].
      * cbn in Ew. injection Ew as E1 E2; subst. eauto.
  - intros (s1 & s2 & -> & H1 & H2).
    change (lang (Star a) ((c :: s1) ++ s2)). now constructor.
Qed.

Lemma deriv_lang c r : forall s, lang (deriv c r) s <-> lang r (c :: s).
Proof.
  induction r as [| | f | a IHa b IHb | a IHa b IHb | a IHa]; intros s; cbn [deriv].
  - split; intros H; now apply lang_nul_inv in H.
  - split; intros H; [now apply lang_nul_inv in H | apply lang_eps_inv in H; discriminate H].
  - destruct (f c) eqn:E; split; intros H.
    + apply lang_eps_inv in H. subst s. now constructor.
    + apply lang_cls_inv in H. destruct H as (d & Ed & _). injection Ed as E1 E2; subst. constructor.
    + now apply lang_nul_inv in H.
    + apply lang_cls_inv in H. destruct H as (d & Ed & Hd). injection Ed as E1 E2; subst. congruence.
  - rewrite lang_cat_cons. destruct (nullable a) eqn:Na.
    + split.
      * intros H. apply lang_alt_inv in H. destruct H as [H | H].
        -- apply lang_cat_inv in H. destruct H as (u & v & -> & Hu & Hv).
           left. exists u, v. split; [reflexivity|]. split; [now apply IHa | exact Hv].
        -- right. split; [now apply nullable_lang | now apply IHb].
      * intros [(s1 & s2 & -> & H1 & H2) | [H1 H2]].
        -- apply LAltL. constructor; [now apply IHa | exact H2].
        -- apply LAltR. now apply IHb.
    + split.
      * intros H. apply lang_cat_inv in H. destruct H as (u & v & -> & Hu & Hv).
        left. exists u, v. split; [reflexivity|]. split; [now apply IHa | exact Hv].
      * intros [(s1 & s2 & -> & H1 & H2) | [H1 H2]].
        -- constructor; [now apply IHa | exact H2].
        -- apply nullable_lang in H1. congruence.
  - split; intros H; apply lang_alt_inv in H; destruct H as [H | H];
      [apply LAltL; now apply IHa | apply LAltR; now apply IHb
      | apply LAltL; now apply IHa | apply LAltR; now apply IHb].
  - rewrite lang_star_cons. split.
    + intros H. apply lang_cat_inv in H. destruct H as (u & v & -> & Hu & Hv).
      exists u, v. split; [reflexivity|]. split; [now apply IHa | exact Hv].
    + intros (s1 & s2 & -> & H1 & H2). constructor; [now apply IHa | exact H2].
Qed.

(** [matchPrefix r s] holds exactly when [r] matches a prefix of [s]. *)
Lemma matchPrefix_lang (s : jstr) :
  forall r, matchPrefix r s = true <-> exists m b, s = m ++ b /\ lang r m.
Proof.
  induction s as [| c t IH]; intros r; cbn [matchPrefix].
  - rewrite orb_false_r, nullable_lang. split.
    + intros H. now exists [], [].
    + intros (m & b & E & H). symmetry in E. apply app_eq_nil in E.
      destruct E as [-> _]. exact H.
  - rewrite orb_true_iff, nullable_lang, IH. split.
    + intros [H | (m & b & -> & H)].
      * now exists [], (c :: t).
      * exists (c :: m), b. split; [reflexivity | now apply deriv_lang].
    + intros (m & b & E & H). destruct m as [| d m'].
      * now left.
      * right. cbn in E. injection E as E1 E2; subst. exists m', b.
        split; [reflexivity | now apply deriv_lang].
Qed.

(** [test r s] holds exactly when [r] matches somewhere in [s]. *)
Lemma test_lang r (s : jstr) :
  test r s = true <-> exists a m b, s = a ++ m ++ b /\ lang r m.
Proof.
  induction s as [| c t IH]; cbn [test].
  - rewrite orb_false_r, matchPrefix_lang. split.
    + intros (m & b & E & H). now exists [], m, b.
    + intros (a & m & b & E & H). symmetry in E. apply app_eq_nil in E.
      destruct E as [-> E]. exists m, b. split; [now rewrite E | exact H].
  - rewrite orb_true_iff, matchPrefix_lang, IH. split.
    + intros [(m & b & E & H) | (a & m & b & -> & H)].
      * now exists [], m, b.
      * now exists (c :: a), m, b.
    + intros (a & m & b & E & H). destruct a as [| d a'].
      * left. exists m, b. split; [exact E | exact H].
      * right. cbn in E. injection E as E1 E2; subst.
        exists a', m, b. split; [reflexivity | exact H].
Qed.

End RegexFacts.

(* ================================================================== *)
(** ** Properties of the query validator: normalization *)
(* ================================================================== *)

Section NormalizationFacts.

Import JS QueryValidator.

Lemma matchBlockComment_positive t : matchBlockComment t <> Some 0%nat.
Proof.
  unfold matchBlockComment.
  destruct (startsWith (lit "/*") t); [|discriminate].
  destruct (indexOf (lit "*/") (skipn 2 t)); discriminate.
Qed.

Lemma matchLineComment_app t w :
  matchLineComment (t ++ w) = None -> matchLineComment t = None.
Proof.
  unfold matchLineComment.
  destruct (startsWith (lit "--") t) eqn:E; [|reflexivity].
  now rewrite (@startsWith_app (lit "--") t w E).
Qed.

Lemma matchBlockComment_app t w :
  matchBlockComment (t ++ w) = None -> matchBlockComment t = None.
Proof.
  unfold matchBlockComment.
  destruct (startsWith (lit "/*") t) eqn:E; [|reflexivity].
  rewrite (@startsWith_app (lit "/*") t w E).
  destruct t as [| a [| b t']];
    try (cbn in E; rewrite ?andb_false_r in E; discriminate E).
  cbn [app skipn].
  pose proof (@indexOf_app (lit "*/") t' w) as H.
  destruct (indexOf (lit "*/") t'); [|reflexivity].
  destruct (indexOf (lit "*/") (t' ++ w)); [discriminate|].
  exfalso. apply H; [discriminate | reflexivity].
Qed.

Lemma matchLineComment_none c t :
  matchLineComment (c :: t) = None \/ matchLineComment (c :: t) = Some 0%nat ->
  ~ (c = 45%N /\ exists t', t = 45%N :: t').
Proof.
  intros H [-> [t' ->]]. unfold matchLineComment in H. cbn in H.
  destruct H; discriminate.
Qed.

Lemma matchLineComment_some c t n :
  matchLineComment (c :: t) = Some n -> c = 45%N.
Proof.
  unfold matchLineComment.
  destruct (startsWith (lit "--") (c :: t)) eqn:E; [|intros H; discriminate H].
  intros _. cbn -[N.eqb] in E. apply andb_prop in E. destruct E as [E _].
  apply N.eqb_eq in E. congruence.
Qed.

Lemma matchLineComment_not_dashes z :
  startsWith (lit "--") z = false -> matchLineComment z = None.
Proof. intros H. unfold matchLineComment. now rewrite H. Qed.

(** What [stripLineComments] returns holds no two dashes in a row. *)
Lemma stripLineComments_noMatch s : noMatch matchLineComment (stripLineComments s).
Proof.
  unfold stripLineComments.
  enough (H : noMatch matchLineComment (replaceAll matchLineComment [] s)
              /\ (forall r, replaceAll matchLineComment [] s = 45%N :: r ->
                            exists t, s = 45%N :: t)) by apply H.
  apply (replaceAll_ind matchLineComment []
           (fun s out => noMatch matchLineComment out
                         /\ (forall r, out = 45%N :: r -> exists t, s = 45%N :: t))).
  - split; [exact I | discriminate].
  - intros c t Hno [IH1 IH2]. split.
    + split; [|exact IH1].
      destruct (startsWith (lit "--") (c :: replaceAll matchLineComment [] t)) eqn:E;
        [|now apply matchLineComment_not_dashes].
      exfalso. apply (matchLineComment_none c t Hno).
      cbn -[N.eqb] in E. destruct (replaceAll matchLineComment [] t) as [| d r] eqn:Eo.
      * now rewrite andb_false_r in E.
      * rewrite andb_true_r in E. apply andb_prop in E. destruct E as [E1 E2].
        apply N.eqb_eq in E1, E2. subst c d. split; [reflexivity|]. now apply IH2 with r.
    + intros r H. injection H as -> _. now exists t.
  - intros c t n Hyes [IH1 IH2]. cbn [app]. split; [exact IH1|].
    intros r _. exists t. f_equal. now apply matchLineComment_some with t (S n).
Qed.

Lemma matchWhiteSpaceRun_none c t :
  matchWhiteSpaceRun (c :: t) = None \/ matchWhiteSpaceRun (c :: t) = Some 0%nat ->
  isWhiteSpace c = false.
Proof.
  unfold matchWhiteSpaceRun. cbn. destruct (isWhiteSpace c); [|reflexivity].
  intros [H | H]; discriminate.
Qed.

Lemma matchWhiteSpaceRun_some c t n :
  matchWhiteSpaceRun (c :: t) = Some (S n) ->
  isWhiteSpace c = true /\ n = spanLen isWhiteSpace t.
Proof.
  unfold matchWhiteSpaceRun. cbn. destruct (isWhiteSpace c); [|intros H; discriminate H].
  intros H. injection H as H. auto.
Qed.

Lemma spanLen_skipn_head p t :
  match skipn (spanLen p t) t with
  | [] => True
  | d :: _ => p d = false
  end.
Proof.
  induction t as [| c t IH]; [exact I|].
  cbn. destruct (p c) eqn:E; [exact IH | exact E].
Qed.

(** What [collapseWhiteSpace] returns is collapsed. *)
Lemma collapseWhiteSpace_collapsed s : collapsed (collapseWhiteSpace s).
Proof.
  unfold collapseWhiteSpace.
  enough (H : collapsed (replaceAll matchWhiteSpaceRun (lit " ") s)
              /\ (forall d r, replaceAll matchWhiteSpaceRun (lit " ") s = d :: r ->
                              isWhiteSpace d = true ->
                              exists e t, s = e :: t /\ isWhiteSpace e = true)) by apply H.
  apply (replaceAll_ind matchWhiteSpaceRun (lit " ")
           (fun s out => collapsed out
                         /\ (forall d r, out = d :: r -> isWhiteSpace d = true ->
                                         exists e t, s = e :: t /\ isWhiteSpace e = true))).
  - split; [exact I | discriminate].
  - intros c t Hno [IH1 IH2]. apply matchWhiteSpaceRun_none in Hno. split.
    + split; [|exact IH1]. intros W. congruence.
    + intros d r H W. injection H as -> _. congruence.
  - intros c t n Hyes [IH1 IH2].
    apply matchWhiteSpaceRun_some in Hyes. destruct Hyes as [W ->].
    change (lit " " ++ replaceAll matchWhiteSpaceRun (lit " ")
                         (skipn (spanLen isWhiteSpace t) t))
      with (32%N :: replaceAll matchWhiteSpaceRun (lit " ")
                      (skipn (spanLen isWhiteSpace t) t)).
    split.
    + split; [|exact IH1]. intros _. split; [reflexivity|].
      destruct (replaceAll matchWhiteSpaceRun (lit " ") (skipn (spanLen isWhiteSpace t) t))
        as [| d r] eqn:Eo; [exact I|].
      destruct (isWhiteSpace d) eqn:Wd; [|reflexivity].
      destruct (IH2 d r eq_refl Wd) as (e & t' & Et & We).
      pose proof (spanLen_skipn_head isWhiteSpace t) as Hh.
      rewrite Et in Hh. congruence.
    + intros d r _ _. now exists c, t.
Qed.

Lemma collapsed_app_r a b : collapsed (a ++ b) -> collapsed b.
Proof. induction a as [| c a IH]; [auto|]. intros [_ H]. now apply IH. Qed.

Lemma collapsed_app_l a b : collapsed (a ++ b) -> collapsed a.
Proof.
  induction a as [| c a IH]; [intros; exact I|].
  cbn [app collapsed]. intros [H Ha]. split; [|now apply IH].
  intros W. destruct (H W) as [-> Hd]. split; [reflexivity|].
  destruct a; [exact I | exact Hd].
Qed.

Lemma collapsed_trim s : collapsed s -> collapsed (trim s).
Proof.
  intros H. unfold trim.
  destruct (trimStart_suffix s) as [a Ha].
  destruct (trimEnd_prefix (trimStart s)) as [b Hb].
  rewrite Ha in H. apply collapsed_app_r in H.
  rewrite Hb in H. now apply collapsed_app_l in H.
Qed.

Lemma collapseWhiteSpace_fixed s : collapsed s -> collapseWhiteSpace s = s.
Proof.
  unfold collapseWhiteSpace.
  induction s as [| c t IH]; [reflexivity|].
  intros [H Ht]. destruct (isWhiteSpace c) eqn:W.
  - destruct (H eq_refl) as [-> Hd].
    assert (E : matchWhiteSpaceRun (32%N :: t) = Some 1%nat).
    { unfold matchWhiteSpaceRun. cbn. destruct t as [| d t']; [reflexivity|].
      cbn. now rewrite Hd. }
    rewrite (@replaceAll_match matchWhiteSpaceRun (lit " ") 32%N t 0%nat E).
    cbn [skipn]. rewrite (IH Ht). reflexivity.
  - rewrite replaceAll_no_match.
    + now rewrite (IH Ht).
    + left. unfold matchWhiteSpaceRun. cbn. now rewrite W.
Qed.

Lemma collapsed_no_lineTerminator s :
  collapsed s -> Forall (fun c => isLineTerminator c = false) s.
Proof.
  induction s as [| c t IH]; [constructor|].
  intros [H Ht]. constructor; [|now apply IH].
  destruct (isLineTerminator c) eqn:L; [|reflexivity].
  destruct (H (lineTerminator_is_whiteSpace c L)) as [-> _]. discriminate.
Qed.

Lemma spanLen_all p t : Forall (fun c => p c = true) t -> spanLen p t = List.length t.
Proof.
  induction 1 as [| c t Hc _ IH]; [reflexivity|]. cbn. now rewrite Hc, IH.
Qed.

(** On one line, [stripLineComments] cuts the query at the first comment. *)
Lemma stripLineComments_prefix s :
  Forall (fun c => isLineTerminator c = false) s ->
  exists b, s = stripLineComments s ++ b.
Proof.
  unfold stripLineComments.
  apply (replaceAll_ind matchLineComment []
           (fun s out => Forall (fun c => isLineTerminator c = false) s ->
                         exists b, s = out ++ b)).
  - intros _. now exists [].
  - intros c t _ IH Hs. inversion Hs as [| ? ? _ Ht]; subst.
    destruct (IH Ht) as [b Hb]. exists b. cbn. now f_equal.
  - intros c t n Hyes _ Hs. cbn [app].
    enough (E : skipn n t = []) by (rewrite E; now exists (c :: t)).
    unfold matchLineComment in Hyes.
    destruct (startsWith (lit "--") (c :: t)); [|discriminate].
    injection Hyes as Hn.
    apply Forall_inv_tail in Hs.
    destruct t as [| d t']; [apply skipn_nil|].
    cbn [skipn] in Hn. apply Forall_inv_tail in Hs.
    rewrite spanLen_all in Hn.
    + apply skipn_all2. cbn. lia.
    + eapply Forall_impl; [|exact Hs]. cbn. intros a Ha. now rewrite Ha.
Qed.

Lemma beforeBlockComments_shape q :
  collapsed (beforeBlockComments q)
  /\ noMatch matchLineComment (beforeBlockComments q).
Proof.
  unfold beforeBlockComments. split; [|apply stripLineComments_noMatch].
  pose proof (collapseWhiteSpace_collapsed (trim q)) as Hc.
  destruct (stripLineComments_prefix _ (collapsed_no_lineTerminator _ Hc)) as [b Hb].
  rewrite Hb in Hc. now apply collapsed_app_l in Hc.
Qed.

(** Normalizing twice is normalizing once, provided the first pass found no
    block comment to remove. *)
Lemma normalizeQuery_fixed_point q :
  stripBlockComments (beforeBlockComments q) = beforeBlockComments q ->
  normalizeQuery (normalizeQuery q) = normalizeQuery q.
Proof.
  intros Hb.
  assert (Hn : normalizeQuery q = trim (beforeBlockComments q))
    by (unfold normalizeQuery; fold (beforeBlockComments q); now rewrite Hb).
  destruct (beforeBlockComments_shape q) as [Hc Hl].
  assert (Hk : noMatch matchBlockComment (beforeBlockComments q))
    by (apply replaceAll_fixed_noMatch; [apply matchBlockComment_positive | exact Hb]).
  rewrite Hn. set (s := trim (beforeBlockComments q)).
  assert (Hc' : collapsed s) by now apply collapsed_trim.
  assert (Hl' : noMatch matchLineComment s)
    by (apply noMatch_trim; [apply matchLineComment_app | exact Hl]).
  assert (Hk' : noMatch matchBlockComment s)
    by (apply noMatch_trim; [apply matchBlockComment_app | exact Hk]).
  assert (Ht : trim s = s) by apply trim_idem.
  unfold normalizeQuery. rewrite Ht.
  rewrite (@collapseWhiteSpace_fixed s Hc').
  unfold stripLineComments. rewrite (@replaceAll_noMatch matchLineComment [] s Hl').
  unfold stripBlockComments. rewrite (@replaceAll_noMatch matchBlockComment [] s Hk').
  exact Ht.
Qed.

Lemma normalizeQuery_length q : (List.length (normalizeQuery q) <= List.length q)%nat.
Proof.
  unfold normalizeQuery, stripBlockComments, stripLineComments, collapseWhiteSpace.
  pose proof (trim_length q).
  pose proof (@replaceAll_length matchWhiteSpaceRun (lit " ") (trim q)) as H1.
  set (y := replaceAll matchWhiteSpaceRun (lit " ") (trim q)) in *.
  pose proof (@replaceAll_length matchLineComment [] y) as H2.
  set (x := replaceAll matchLineComment [] y) in *.
  pose proof (@replaceAll_length matchBlockComment [] x) as H3.
  pose proof (trim_length (replaceAll matchBlockComment [] x)).
  cbn in H1, H2, H3. lia.
Qed.

(** *** When normalizing changes nothing *)

Lemma startsWith_self (p b : str) : startsWith p (p ++ b) = true.
Proof. induction p as [| c p IH]; cbn; [reflexivity|]. now rewrite N.eqb_refl, IH. Qed.

Lemma startsWith_inv (p : str) : forall s, startsWith p s = true -> exists r, s = p ++ r.
Proof.
  induction p as [| a p IH]; intros s; cbn; [eauto|].
  destruct s as [| b s]; [discriminate|].
  intros H. apply andb_true_iff in H. destruct H as (E & H).
  apply N.eqb_eq in E. subst b. destruct (IH s H) as (r & ->). eauto.
Qed.

Lemma indexOf_startsWith (p s : str) : startsWith p s = true -> indexOf p s = Some 0%nat.
Proof. intros H. destruct s; cbn [indexOf]; now rewrite H. Qed.

Lemma indexOf_cons (p : str) c t :
  indexOf p (c :: t) = if startsWith p (c :: t) then Some 0%nat else option_map S (indexOf p t).
Proof. reflexivity. Qed.

(** [s.indexOf(p)] finds [p] exactly when [p] occurs in [s]. *)
Lemma indexOf_occurs (p s : str) :
  indexOf p s <> None <-> exists m b, s = m ++ p ++ b.
Proof.
  split.
  - induction s as [| c t IH].
    + cbn. destruct (startsWith p []) eqn:E; [|congruence].
      intros _. destruct (startsWith_inv _ _ E) as (r & Hr). exists [], r. exact Hr.
    + rewrite indexOf_cons. destruct (startsWith p (c :: t)) eqn:E.
      * intros _. destruct (startsWith_inv _ _ E) as (r & Hr). exists [], r. exact Hr.
      * intros H. destruct (indexOf p t) eqn:Et; [|cbn in H; congruence].
        destruct IH as (m & b & ->); [congruence|]. exists (c :: m), b. reflexivity.
  - intros (m & b & ->). induction m as [| c m IH].
    + cbn [app]. rewrite (indexOf_startsWith _ _ (startsWith_self p b)). discriminate.
    + cbn [app]. rewrite indexOf_cons.
      destruct (startsWith p (c :: m ++ p ++ b)); [discriminate|].
      destruct (indexOf p (m ++ p ++ b)); [discriminate|congruence].
Qed.

Lemma includes_occurs (p s : str) :
  includes p s = true <-> exists m b, s = m ++ p ++ b.
Proof.
  rewrite <- indexOf_occurs. unfold includes.
  destruct (indexOf p s); split; congruence.
Qed.

Lemma includes_absent (p s : str) :
  includes p s = false <-> ~ exists m b, s = m ++ p ++ b.
Proof.
  rewrite <- includes_occurs. destruct (includes p s); split; congruence.
Qed.

(** What each of the two comment expressions matches at the head of a string. *)
Lemma matchLineComment_head (t : str) :
  matchLineComment t <> None <-> exists r, t = lit "--" ++ r.
Proof.
  unfold matchLineComment. split.
  - destruct (startsWith (lit "--") t) eqn:E; [|congruence].
    intros _. exact (startsWith_inv _ _ E).
  - intros (r & ->). rewrite startsWith_self. discriminate.
Qed.

Lemma matchBlockComment_head (t : str) :
  matchBlockComment t <> None <-> exists m b, t = lit "/*" ++ m ++ lit "*/" ++ b.
Proof.
  unfold matchBlockComment. split.
  - destruct (startsWith (lit "/*") t) eqn:E; [|congruence].
    destruct (startsWith_inv _ _ E) as (r & ->).
    change (skipn 2 (lit "/*" ++ r)) with r.
    destruct (indexOf (lit "*/") r) eqn:Ei; [|congruence].
    intros _. destruct (proj1 (indexOf_occurs (lit "*/") r)) as (m & b & ->); [congruence|].
    eauto.
  - intros (m & b & ->). rewrite startsWith_self.
    change (skipn 2 (lit "/*" ++ m ++ lit "*/" ++ b)) with (m ++ lit "*/" ++ b).
    destruct (indexOf (lit "*/") (m ++ lit "*/" ++ b)) eqn:Ei; [discriminate|].
    exfalso. apply (proj2 (indexOf_occurs (lit "*/") (m ++ lit "*/" ++ b))); eauto.
Qed.

(** An expression matches nowhere in [s] exactly when no suffix of [s]
    begins with a match. *)
Lemma noMatch_suffixes (m : str -> option nat) (s : str) :
  noMatch m s <-> forall a c t, s = a ++ c :: t -> m (c :: t) = None.
Proof.
  induction s as [| c0 t0 IH]; cbn [noMatch].
  - split; [|trivial]. intros _ a c t H. destruct a; discriminate.
  - rewrite IH. split.
    + intros (H0 & H) a c t E. destruct a as [| x a]; cbn in E; injection E as -> ->.
      * exact H0.
      * now apply (H a c t).
    + intros H. split.
      * now apply (H [] c0 t0).
      * intros a c t ->. now apply (H (c0 :: a) c t).
Qed.

Lemma noMatch_lineComment (s : str) :
  noMatch matchLineComment s <-> includes (lit "--") s = false.
Proof.
  rewrite noMatch_suffixes, includes_absent. split.
  - intros H (m & b & ->).
    specialize (H m 45%N (45%N :: b) eq_refl).
    apply (proj2 (matchLineComment_head (45%N :: 45%N :: b))); [|exact H]. now exists b.
  - intros H a c t ->.
    destruct (matchLineComment (c :: t)) eqn:E; [|reflexivity].
    exfalso. apply H.
    destruct (proj1 (matchLineComment_head (c :: t))) as (r & Hr); [congruence|].
    exists a, r. now rewrite Hr.
Qed.

Lemma noMatch_blockComment (s : str) :
  noMatch matchBlockComment s
  <-> ~ exists a m b, s = a ++ lit "/*" ++ m ++ lit "*/" ++ b.
Proof.
  rewrite noMatch_suffixes. split.
  - intros H (a & m & b & ->).
    specialize (H a 47%N (42%N :: m ++ lit "*/" ++ b) eq_refl).
    apply (proj2 (matchBlockComment_head (47%N :: 42%N :: m ++ lit "*/" ++ b))); [|exact H].
    now exists m, b.
  - intros H a c t ->.
    destruct (matchBlockComment (c :: t)) eqn:E; [|reflexivity].
    exfalso. apply H.
    destruct (proj1 (matchBlockComment_head (c :: t))) as (m & b & Hr); [congruence|].
    exists a, m, b. now rewrite Hr.
Qed.


(** White space that is only ever a space. *)
Lemma collapsed_spaces (s : str) :
  collapsed s -> Forall (fun c => isWhiteSpace c = true -> c = 32%N) s.
Proof.
  induction s as [| c t IH]; cbn [collapsed]; [constructor|].
  intros (Hc & Ht). constructor; [|auto]. intros Hw. now destruct (Hc Hw).
Qed.

Lemma collapsed_single_spaces (s : str) :
  Forall (fun c => isWhiteSpace c = true -> c = 32%N) s ->
  (collapsed s <-> includes (lit "  ") s = false).
Proof.
  intros Hs. rewrite includes_absent. split.
  - intros Hc (m & b & ->).
    apply collapsed_app_r in Hc. cbn in Hc.
    destruct Hc as (H & _). destruct (H eq_refl) as (_ & H'). discriminate H'.
  - induction s as [| c t IH]; intros H; cbn [collapsed]; [trivial|].
    inversion Hs as [| ? ? Hc Ht]; subst. split.
    + intros Hw. split; [auto|].
      destruct t as [| d t']; [trivial|].
      destruct (isWhiteSpace d) eqn:Ed; [|reflexivity].
      exfalso. apply H. exists [], t'.
      inversion Ht as [| ? ? Hd _]; subst. rewrite (Hc Hw), (Hd Ed). reflexivity.
    + apply (IH Ht). intros (m & b & ->). apply H. now exists (c :: m), b.
Qed.

Lemma Forall_skipn {A : Type} (P : A -> Prop) (l : list A) :
  forall n, Forall P l -> Forall P (skipn n l).
Proof.
  induction l as [| x l IH]; intros [| n] H; cbn; auto.
  apply IH. now inversion H.
Qed.

(** Removing matches neither adds a code unit nor, unless it removes
    something, keeps the length. *)
Lemma replaceAll_nil_Forall (P : N -> Prop) (m : str -> option nat) (s : str) :
  Forall P s -> Forall P (replaceAll m [] s).
Proof.
  apply (replaceAll_ind m [] (fun s r => Forall P s -> Forall P r)).
  - trivial.
  - intros c t _ IH H. inversion H; subst. constructor; auto.
  - intros c t n _ IH H. cbn [app]. apply IH. apply Forall_skipn. now inversion H.
Qed.

Lemma replaceAll_nil_same_length (m : str -> option nat) (s : str) :
  List.length (replaceAll m [] s) = List.length s -> replaceAll m [] s = s.
Proof.
  assert (H : (List.length (replaceAll m [] s) <= List.length s)%nat
              /\ (List.length (replaceAll m [] s) = List.length s -> replaceAll m [] s = s));
    [|tauto].
  apply (replaceAll_ind m []
           (fun s r => (List.length r <= List.length s)%nat
                       /\ (List.length r = List.length s -> r = s))).
  - auto.
  - intros c t _ (IH1 & IH2). cbn [List.length]. split; [lia|].
    intros E. f_equal. apply IH2. lia.
  - intros c t n _ (IH1 & _). cbn [app List.length].
    pose proof (length_skipn n t) as L. split; [lia|]. intros E. lia.
Qed.

Lemma trim_Forall (P : N -> Prop) (s : str) : Forall P s -> Forall P (trim s).
Proof.
  intros H. unfold trim.
  destruct (trimStart_suffix s) as (a & Ea).
  destruct (trimEnd_prefix (trimStart s)) as (b & Eb).
  rewrite Ea in H. apply Forall_app in H. destruct H as (_ & H).
  rewrite Eb in H. apply Forall_app in H. tauto.
Qed.

Lemma trim_same_length (s : str) : List.length (trim s) = List.length s -> trim s = s.
Proof.
  unfold trim. intros H.
  destruct (trimStart_suffix s) as (a & Ea).
  destruct (trimEnd_prefix (trimStart s)) as (b & Eb).
  assert (La : List.length s = (List.length a + List.length (trimStart s))%nat)
    by (rewrite Ea at 1; apply length_app).
  assert (Lb : List.length (trimStart s)
               = (List.length (trimEnd (trimStart s)) + List.length b)%nat)
    by (rewrite Eb at 1; apply length_app).
  assert (Ha : a = []) by (destruct a; [reflexivity | cbn in La; lia]).
  assert (Hb : b = []) by (destruct b; [reflexivity | cbn in Lb; lia]).
  subst a b. rewrite app_nil_r in Eb. cbn in Ea. congruence.
Qed.

(** The white space of a normalized query is made of spaces. *)
Lemma normalizeQuery_spaces (q : str) :
  Forall (fun c => isWhiteSpace c = true -> c = 32%N) (normalizeQuery q).
Proof.
  unfold normalizeQuery. fold (beforeBlockComments q).
  apply trim_Forall. unfold stripBlockComments. apply replaceAll_nil_Forall.
  apply collapsed_spaces. apply beforeBlockComments_shape.
Qed.

(** On a trimmed string whose white space is made of spaces, [normalizeQuery]
    changes nothing exactly when there is nothing for it to collapse or to
    strip. *)
Lemma normalizeQuery_unchanged (s : str) :
  trim s = s ->
  Forall (fun c => isWhiteSpace c = true -> c = 32%N) s ->
  (normalizeQuery s = s
   <-> includes (lit "  ") s = false
       /\ includes (lit "--") s = false
       /\ ~ (exists a m b, s = a ++ lit "/*" ++ m ++ lit "*/" ++ b)).
Proof.
  intros Ht Hs.
  rewrite <- (collapsed_single_spaces s Hs), <- noMatch_lineComment, <- noMatch_blockComment.
  unfold normalizeQuery. rewrite Ht. split.
  - intros E.
    pose proof (@replaceAll_length matchWhiteSpaceRun (lit " ") s (le_n 1)) as L1.
    fold (collapseWhiteSpace s) in L1.
    pose proof (@replaceAll_length matchLineComment [] (collapseWhiteSpace s) (Nat.le_0_l 1))
      as L2.
    fold (stripLineComments (collapseWhiteSpace s)) in L2.
    pose proof (@replaceAll_length matchBlockComment []
                  (stripLineComments (collapseWhiteSpace s)) (Nat.le_0_l 1)) as L3.
    fold (stripBlockComments (stripLineComments (collapseWhiteSpace s))) in L3.
    pose proof (trim_length (stripBlockComments (stripLineComments (collapseWhiteSpace s))))
      as L4.
    rewrite E in L4.
    assert (E4 : stripBlockComments (stripLineComments (collapseWhiteSpace s)) = s).
    { rewrite <- E at 2. symmetry. apply trim_same_length. rewrite E. lia. }
    assert (E3 : stripLineComments (collapseWhiteSpace s) = s).
    { rewrite <- E4 at 2. symmetry. apply replaceAll_nil_same_length.
      fold (stripBlockComments (stripLineComments (collapseWhiteSpace s))). rewrite E4. lia. }
    assert (E2 : collapseWhiteSpace s = s).
    { rewrite <- E3 at 2. symmetry. apply replaceAll_nil_same_length.
      fold (stripLineComments (collapseWhiteSpace s)). rewrite E3. lia. }
    split; [|split].
    + rewrite <- E2. apply collapseWhiteSpace_collapsed.
    + apply replaceAll_fixed_noMatch.
      * intros t. unfold matchLineComment. destruct (startsWith (lit "--") t); discriminate.
      * rewrite E2 in E3. exact E3.
    + apply replaceAll_fixed_noMatch; [apply matchBlockComment_positive|].
      rewrite E3 in E4. exact E4.
  - intros (Hc & Hl & Hb).
    rewrite (collapseWhiteSpace_fixed s Hc).
    unfold stripLineComments. rewrite (replaceAll_noMatch matchLineComment [] s Hl).
    unfold stripBlockComments. rewrite (replaceAll_noMatch matchBlockComment [] s Hb).
    exact Ht.
Qed.

End NormalizationFacts.

(* ================================================================== *)
(** ** Properties of the query validator: admission *)
(* ================================================================== *)

Section ValidatorFacts.

Import Config QueryValidator.

Variable cfg : SecurityConfig.

Lemma validateBasicInput_accepts query :
  isValid (validateBasicInput cfg query freshResult) = true ->
  validateBasicInput cfg query freshResult = freshResult
  /\ query <> []
  /\ (Z.of_nat (List.length query) <= maxQueryLength cfg)%Z
  /\ JS.trim query <> [].
Proof.
  unfold validateBasicInput.
  destruct query as [| c t]; [intros H; discriminate H|].
  destruct (Z.gtb_spec (Z.of_nat (List.length (c :: t))) (maxQueryLength cfg)) as [Hl | Hl];
    [intros H; discriminate H|].
  destruct (JS.trim (c :: t)) as [| d r]; [intros H; discriminate H|].
  intros _. repeat split; try discriminate. exact Hl.
Qed.

Lemma validateBasicInput_accepts_when query :
  query <> [] ->
  (Z.of_nat (List.length query) <= maxQueryLength cfg)%Z ->
  JS.trim query <> [] ->
  validateBasicInput cfg query freshResult = freshResult.
Proof.
  intros Hq Hl Ht. unfold validateBasicInput.
  destruct query as [| c t]; [congruence|].
  destruct (Z.gtb_spec (Z.of_nat (List.length (c :: t))) (maxQueryLength cfg)); [lia|].
  destruct (JS.trim (c :: t)); congruence.
Qed.

Lemma validate_admitted_passes_basic_input query :
  isValid (validate cfg query) = true ->
  isValid (validateBasicInput cfg query freshResult) = true.
Proof.
  unfold validate.
  destruct (isValid (validateBasicInput cfg query freshResult)) eqn:E; [reflexivity|].
  cbn [negb]. now rewrite E.
Qed.

Lemma validate_sanitizedQuery query :
  isValid (validateBasicInput cfg query freshResult) = true ->
  sanitizedQuery (validate cfg query) = Some (normalizeQuery query).
Proof. intros H. unfold validate. now rewrite H. Qed.

Lemma performAdvancedValidation_keeps query r :
  isValid (performAdvancedValidation query r) = isValid r
  /\ forall e, In e (errors r) -> In e (errors (performAdvancedValidation query r)).
Proof.
  unfold performAdvancedValidation.
  match goal with |- context [if ?b then _ else _] => destruct b end; cbn; split; auto.
  intros e H. apply in_or_app. now left.
Qed.

Lemma patterns_keep_rejection query (ps : list Pattern) :
  forall r e,
    isValid r = false -> In e (errors r) ->
    let r' := fold_left
                (fun r pattern =>
                   if Regex.test (regex pattern) query
                   then reject r (JS.lit "Suspicious pattern detected: " ++ source pattern)
                   else r) ps r in
    isValid r' = false /\ In e (errors r').
Proof.
  induction ps as [| p ps IH]; intros r e Hv He; cbn; [auto|].
  apply IH; destruct (Regex.test (regex p) query); cbn; auto.
  apply in_or_app. now left.
Qed.

(** The quote alone is in the language of the first suspicious pattern. *)
Lemma quotePattern_lang : Regex.lang (regex quotePattern) [39%N].
Proof. cbn. apply Regex.LAltL. constructor. reflexivity. Qed.

(** So that pattern matches every string that holds a quote. *)
Lemma quotePattern_matches_quote s :
  In 39%N s -> Regex.test (regex quotePattern) s = true.
Proof.
  intros H. apply in_split in H. destruct H as (a & b & ->).
  apply test_lang. exists a, [39%N], b. split; [reflexivity | apply quotePattern_lang].
Qed.

Lemma checkSuspiciousPatterns_quote query r :
  In 39%N query ->
  isValid (checkSuspiciousPatterns query r) = false
  /\ In (JS.lit "Suspicious pattern detected: " ++ source quotePattern)
       (errors (checkSuspiciousPatterns query r)).
Proof.
  intros H. unfold checkSuspiciousPatterns, suspiciousPatterns.
  match goal with
  | |- context [fold_left ?f (?p :: ?ps) ?r0] =>
      change (fold_left f (p :: ps) r0) with (fold_left f ps (f r0 p))
  end.
  cbv beta. rewrite (@quotePattern_matches_quote query H).
  apply patterns_keep_rejection; cbn [reject isValid errors]; [reflexivity|].
  apply in_or_app. right. now left.
Qed.

(** C10, as amended.  A query whose normalized form still holds a single
    quote is rejected; when it passed the basic input checks, the rejection
    is the one of the suspicious-pattern check for the quote pattern.  A
    quote that normalization removes with a comment is not seen by any
    check. *)
Theorem validate_rejects_quote_after_normalization (query : jstr) :
  In 39%N (normalizeQuery query) ->
  isValid (validate cfg query) = false
  /\ (isValid (validateBasicInput cfg query freshResult) = true ->
      In (JS.lit "Suspicious pattern detected: ('|(\x27)|(\x2D\x2D)|(%27)|(%2D%2D))")
         (errors (validate cfg query))).
Proof.
  intros Hq. unfold validate.
  destruct (isValid (validateBasicInput cfg query freshResult)) eqn:E; cbn [negb].
  - set (r := checkForbiddenKeywords cfg (normalizeQuery query)
                (validateBasicInput cfg query freshResult)).
    destruct (checkSuspiciousPatterns_quote (normalizeQuery query) r Hq) as [Hv He].
    destruct (performAdvancedValidation_keeps (normalizeQuery query)
                (checkSuspiciousPatterns (normalizeQuery query) r)) as [Kv Ke].
    cbn [isValid errors]. split; [congruence|].
    intros _. apply Ke. exact He.
  - split; [exact E | intros H; discriminate H].
Qed.

(** C8, as amended.  For an admitted query, validating its sanitized form
    again yields the same sanitized form exactly when that form is not
    empty and holds no two adjacent spaces, no [--] and no [/*] with a [*/]
    somewhere after it: the three things a removed block comment can leave
    behind, and nothing else. *)
Theorem sanitizedQuery_is_fixed_point (query s : jstr) :
  isValid (validate cfg query) = true ->
  sanitizedQuery (validate cfg query) = Some s ->
  (sanitizedQuery (validate cfg s) = Some s
   <-> s <> []
       /\ JS.includes (JS.lit "  ") s = false
       /\ JS.includes (JS.lit "--") s = false
       /\ ~ (exists a m b, s = a ++ JS.lit "/*" ++ m ++ JS.lit "*/" ++ b)).
Proof.
  intros Hv Hs.
  apply validate_admitted_passes_basic_input in Hv.
  rewrite (validate_sanitizedQuery _ Hv) in Hs. injection Hs as Hs.
  destruct (validateBasicInput_accepts _ Hv) as (_ & _ & Hl & _).
  assert (Ht : JS.trim s = s).
  { rewrite <- Hs. unfold normalizeQuery. apply trim_idem. }
  assert (Hw : Forall (fun c => JS.isWhiteSpace c = true -> c = 32%N) s).
  { rewrite <- Hs. apply normalizeQuery_spaces. }
  rewrite <- (normalizeQuery_unchanged s Ht Hw).
  split.
  - intros H.
    destruct (isValid (validateBasicInput cfg s freshResult)) eqn:B.
    + rewrite (validate_sanitizedQuery _ B) in H. injection H as H.
      split; [|exact H]. now destruct (validateBasicInput_accepts _ B) as (_ & Hne & _).
    + exfalso. unfold validate in H. rewrite B in H. cbn [negb] in H.
      revert B H. unfold validateBasicInput.
      destruct s as [| c t]; [cbn; discriminate|].
      destruct (Z.of_nat (List.length (c :: t)) >? maxQueryLength cfg)%Z; [cbn; discriminate|].
      destruct (JS.trim (c :: t)); cbn; discriminate.
  - intros (Hne & Hfix).
    assert (Hbasic : validateBasicInput cfg s freshResult = freshResult).
    { apply validateBasicInput_accepts_when; [exact Hne | | congruence].
      pose proof (normalizeQuery_length query) as L. rewrite Hs in L. lia. }
    rewrite validate_sanitizedQuery by (now rewrite Hbasic).
    now rewrite Hfix.
Qed.

End ValidatorFacts.

(** C10, counterexample.  The query holds a quote, inside a line comment;
    it is admitted, and its sanitized form is the query without the
    comment. *)
Lemma validate_quote_counterexample :
  In 39%N Scenario.quoteInComment
  /\ QueryValidator.isValid (QueryValidator.validate Config.securityConfig Scenario.quoteInComment)
     = true
  /\ QueryValidator.sanitizedQuery
       (QueryValidator.validate Config.securityConfig Scenario.quoteInComment)
     = Some (JS.lit "SELECT 1").
Proof.
  split; [vm_compute; tauto|]. split; vm_compute; reflexivity.
Qed.

Lemma validate_rejects_quote_witness :
  In 39%N (QueryValidator.normalizeQuery Scenario.quoteInLiteral)
  /\ QueryValidator.isValid
       (QueryValidator.validate Config.securityConfig Scenario.quoteInLiteral) = false.
Proof.
  assert (H : In 39%N (QueryValidator.normalizeQuery Scenario.quoteInLiteral))
    by (vm_compute; tauto).
  split; [exact H|].
  exact (proj1 (validate_rejects_quote_after_normalization Config.securityConfig
                  Scenario.quoteInLiteral H)).
Defined.

(** C8, counterexample.  The query is admitted; its sanitized form has two
    spaces where the block comment stood, and validating that form again
    yields another string, with one space. *)
Lemma sanitizedQuery_counterexample :
  QueryValidator.isValid
    (QueryValidator.validate Config.securityConfig Scenario.commentBetweenWords) = true
  /\ QueryValidator.sanitizedQuery
       (QueryValidator.validate Config.securityConfig Scenario.commentBetweenWords)
     = Some (JS.lit "SELECT 1  FROM t")
  /\ QueryValidator.sanitizedQuery
       (QueryValidator.validate Config.securityConfig (JS.lit "SELECT 1  FROM t"))
     = Some (JS.lit "SELECT 1 FROM t")
  /\ JS.lit "SELECT 1 FROM t" <> JS.lit "SELECT 1  FROM t".
Proof.
  split; [vm_compute; reflexivity|].
  split; [vm_compute; reflexivity|].
  split; [vm_compute; reflexivity|].
  vm_compute. discriminate.
Qed.

(** C8, at a query that opens with a block comment: the comment is removed
    and the sanitized form is a fixed point. *)
Lemma sanitizedQuery_fixed_point_witness :
  QueryValidator.isValid
    (QueryValidator.validate Config.securityConfig Scenario.headerComment) = true
  /\ QueryValidator.sanitizedQuery
       (QueryValidator.validate Config.securityConfig Scenario.headerComment)
     = Some (JS.lit "SELECT 1")
  /\ QueryValidator.sanitizedQuery
       (QueryValidator.validate Config.securityConfig (JS.lit "SELECT 1"))
     = Some (JS.lit "SELECT 1").
Proof.
  assert (Hv : QueryValidator.isValid
                 (QueryValidator.validate Config.securityConfig Scenario.headerComment) = true)
    by (vm_compute; reflexivity).
  assert (Hs : QueryValidator.sanitizedQuery
                 (QueryValidator.validate Config.securityConfig Scenario.headerComment)
               = Some (JS.lit "SELECT 1"))
    by (vm_compute; reflexivity).
  split; [exact Hv|]. split; [exact Hs|].
  apply (proj2 (sanitizedQuery_is_fixed_point Config.securityConfig Scenario.headerComment
                  (JS.lit "SELECT 1") Hv Hs)).
  split; [discriminate|]. split; [reflexivity|]. split; [reflexivity|].
  apply noMatch_blockComment. cbn. repeat split; reflexivity.
Defined.

(** The same for a block comment that stands right after a word, and for
    the query of the counterexample, whose sanitized form holds two
    adjacent spaces and is no fixed point. *)
Example sanitizedQuery_after_inner_comment :
  QueryValidator.sanitizedQuery
    (QueryValidator.validate Config.securityConfig (JS.lit "SELECT 1/* x */ FROM t"))
  = Some (JS.lit "SELECT 1 FROM t")
  /\ QueryValidator.sanitizedQuery
       (QueryValidator.validate Config.securityConfig (JS.lit "SELECT 1 FROM t"))
     = Some (JS.lit "SELECT 1 FROM t")
  /\ JS.includes (JS.lit "  ") (JS.lit "SELECT 1  FROM t") = true.
Proof. repeat split; vm_compute; reflexivity. Qed.

(** A query that is nothing but a comment is admitted with an empty
    sanitized form, which a second validation rejects. *)
Example comment_only_query_is_admitted :
  QueryValidator.isValid
    (QueryValidator.validate Config.securityConfig (JS.lit "-- nothing to run")) = true
  /\ QueryValidator.sanitizedQuery
       (QueryValidator.validate Config.securityConfig (JS.lit "-- nothing to run")) = Some []
  /\ QueryValidator.sanitizedQuery (QueryValidator.validate Config.securityConfig []) = None.
Proof. repeat split; vm_compute; reflexivity. Qed.

(** The cases of [query-validator.test.ts] on [validate]. *)

Example test_allows_valid_select :
  QueryValidator.validate Config.securityConfig (JS.lit "SELECT * FROM users LIMIT 10")
  = {| QueryValidator.isValid := true;
       QueryValidator.errors := [];
       QueryValidator.sanitizedQuery := Some (JS.lit "SELECT * FROM users LIMIT 10") |}.
Proof. vm_compute. reflexivity. Qed.

Example test_rejects_empty_query :
  QueryValidator.validate Config.securityConfig []
  = {| QueryValidator.isValid := false;
       QueryValidator.errors := [JS.lit "Query must be a non-empty string"];
       QueryValidator.sanitizedQuery := None |}.
Proof. vm_compute. reflexivity. Qed.

Example test_rejects_delete :
  QueryValidator.isValid (QueryValidator.validate Config.securityConfig Scenario.deleteUsers)
  = false
  /\ existsb (JS.includes (JS.lit "DELETE"))
       (QueryValidator.errors (QueryValidator.validate Config.securityConfig Scenario.deleteUsers))
     = true.
Proof. split; vm_compute; reflexivity. Qed.

Example test_rejects_overly_long_query :
  QueryValidator.validate Config.securityConfig
    (JS.lit "SELECT * FROM users WHERE name = "
       ++ [34%N] ++ repeat 97%N (N.to_nat 20000) ++ [34%N])
  = {| QueryValidator.isValid := false;
       QueryValidator.errors := [JS.lit "Query exceeds maximum length of 10000 characters"];
       QueryValidator.sanitizedQuery := None |}.
Proof. vm_compute. reflexivity. Qed.

Example test_detects_injection_pattern :
  QueryValidator.isValid
    (QueryValidator.validate Config.securityConfig
       (JS.lit "SELECT * FROM users WHERE id = 1' OR '1'='1"))
  = false.
Proof. vm_compute. reflexivity. Qed.

(* ================================================================== *)
(** ** Properties of the query executor *)
(* ================================================================== *)

Section ExecutorFacts.

Import Config QueryValidator QueryExecutor.

Variable cfg : SecurityConfig.

Lemma logAudit_keeps_cache_and_calls ex q t n ok e :
  queryCache (logAudit ex q t n ok e) = queryCache ex
  /\ databaseCalls (logAudit ex q t n ok e) = databaseCalls ex.
Proof. split; reflexivity. Qed.

Lemma getCachedResult_keeps_calls ex k :
  databaseCalls (fst (getCachedResult ex k)) = databaseCalls ex.
Proof.
  unfold getCachedResult.
  destruct (JsMap.get k (queryCache ex)) as [entry|]; [|reflexivity].
  destruct (now ex - timestamp entry >? ttl entry)%Z; reflexivity.
Qed.

(** C1.  When the validator rejects the query, [executeQuery] throws an error
    whose message ends with the validator's errors joined by a comma and a
    space; whatever the environment would have answered, no call to
    [this.database.query] is recorded, the cache is left as it was and no
    result is returned. *)
Theorem executeQuery_rejected_query_never_reaches_database
    (ex : Executor) (query : jstr) (parameters : list JsValue.t)
    (options : QueryOptions) (race : RaceOutcome) :
  isValid (validate cfg query) = false ->
  snd (executeQuery cfg ex query parameters options race)
    = inl (JS.lit "Query execution failed: " ++ JS.lit "Query validation failed: "
             ++ JS.join (JS.lit ", ") (errors (validate cfg query)))
  /\ databaseCalls (fst (executeQuery cfg ex query parameters options race)) = databaseCalls ex
  /\ queryCache (fst (executeQuery cfg ex query parameters options race)) = queryCache ex.
Proof.
  intros Hrej.
  unfold executeQuery, executeQueryTry.
  rewrite Hrej; cbn [negb].
  destruct (auditEnabled options); cbn [fst snd]; repeat split; reflexivity.
Qed.

Lemma reachesDatabase_inv ex query parameters options :
  reachesDatabase cfg ex query parameters options = true ->
  isValid (validate cfg query) = true
  /\ isTrue (dryRun options) = false
  /\ snd (getCachedResult ex (generateCacheKey query parameters)) = None.
Proof.
  unfold reachesDatabase; intros H.
  apply andb_prop in H; destruct H as [H Hc].
  apply andb_prop in H; destruct H as [Hv Hd].
  repeat split; [assumption | now apply negb_true_iff in Hd |].
  destruct (snd (getCachedResult ex (generateCacheKey query parameters))); congruence.
Qed.

(** A call that reaches the database runs [executeWithTimeout] on the
    sanitized query, after the cache lookup. *)
Lemma executeQueryTry_reaches ex query parameters options race :
  reachesDatabase cfg ex query parameters options = true ->
  exists sql,
    executeQueryTry cfg ex query parameters options race
    = let ex1 := fst (getCachedResult ex (generateCacheKey query parameters)) in
      match executeWithTimeout ex1 sql parameters
              (effectiveTimeout cfg options) (effectiveMaxRows cfg options) race with
      | (ex2, inr r) =>
          let ex3 := if shouldCacheQuery query
                     then cacheResult ex2 (generateCacheKey query parameters) r else ex2 in
          let ex4 := if auditEnabled options
                     then logAudit ex3 query (executionTime r) (rowCount r) true None
                     else ex3 in
          (ex4, inr r)
      | (ex2, inl message) => (ex2, inl message)
      end.
Proof.
  intros H; apply reachesDatabase_inv in H; destruct H as (Hv & Hd & Hc).
  unfold executeQueryTry.
  rewrite Hv; cbn [negb].
  destruct (getCachedResult ex (generateCacheKey query parameters)) as [ex1 c] eqn:E.
  cbn [snd] in Hc; subst c; rewrite Hd; cbn [fst].
  eexists; reflexivity.
Qed.

(** The database is called exactly once by a call that reaches it. *)
Lemma reachesDatabase_records_one_call ex query parameters options race :
  reachesDatabase cfg ex query parameters options = true ->
  exists sql,
    databaseCalls (fst (executeQuery cfg ex query parameters options race))
    = databaseCalls ex ++ [(sql, parameters)].
Proof.
  intros H.
  destruct (executeQueryTry_reaches ex query parameters options race H) as [sql E].
  exists sql. unfold executeQuery; rewrite E; clear E; cbn zeta.
  pose proof (getCachedResult_keeps_calls ex (generateCacheKey query parameters)) as K.
  set (ex1 := fst (getCachedResult ex (generateCacheKey query parameters))) in *.
  unfold executeWithTimeout.
  destruct race as [elapsed reply | elapsed].
  - destruct (executeQueryInternal reply (effectiveMaxRows cfg options)) as [m | r].
    + destruct (auditEnabled options); cbn; now rewrite K.
    + destruct (shouldCacheQuery query), (auditEnabled options); cbn;
        unfold cacheResult; cbn;
        repeat match goal with
               | |- context [match ?x with _ => _ end] => destruct x; cbn
               end; now rewrite K.
  - destruct (auditEnabled options); cbn; now rewrite K.
Qed.

(** A number that is an integer: its shape and what the operations on it
    give. *)
Lemma toZ_inv (n : JsNumber.t) (m : Z) :
  JsNumber.toZ n = Some m ->
  JsNumber.toIntegerOrInfinity n = JsNumber.Integer m
  /\ forall len, JsNumber.belowZ n len = (m <? len)%Z.
Proof.
  destruct n as [num den | | |]; cbn -[Z.rem Z.quot]; try discriminate.
  destruct (Z.rem num (Z.pos den) =? 0)%Z eqn:E; [|discriminate].
  intros H; injection H as <-. split; [reflexivity|]. intros len.
  apply Z.eqb_eq in E.
  assert (Hn : num = (Z.quot num (Z.pos den) * Z.pos den)%Z).
  { pose proof (Z.quot_rem' num (Z.pos den)) as Q. rewrite E in Q. lia. }
  set (q := Z.quot num (Z.pos den)) in *.
  rewrite Hn. destruct (Z.ltb_spec q len) as [L | L].
  - apply Z.ltb_lt. apply Z.mul_lt_mono_pos_r; lia.
  - apply Z.ltb_ge. apply Z.mul_le_mono_nonneg_r; lia.
Qed.

Lemma slice0_length {A : Type} (n : JsNumber.t) (m : Z) (l : list A) :
  JsNumber.toZ n = Some m ->
  (0 <= m)%Z ->
  Z.of_nat (List.length (slice0 n l)) = Z.min m (Z.of_nat (List.length l)).
Proof.
  intros Hn Hm. unfold slice0. rewrite (proj1 (toZ_inv n m Hn)).
  destruct (Z.ltb_spec m 0); [lia|].
  rewrite length_firstn. lia.
Qed.

(** C2, as amended.  For a call that reaches the database and gets back a
    row list of length [n], with an effective [maxRows] that is a
    non-negative integer [m]: the call returns a result with
    [totalRows = n]; if [n <= m] (in particular [n = m]) it is not truncated
    and holds the [n] rows; if [n > m] it is truncated, holds [m] rows, and
    so fewer rows than [totalRows]. *)
Theorem executeQuery_truncates_at_maxRows
    (ex : Executor) (query : jstr) (parameters : list JsValue.t)
    (options : QueryOptions) (elapsed : Z) (results : list Row) (m : Z) :
  reachesDatabase cfg ex query parameters options = true ->
  JsNumber.toZ (effectiveMaxRows cfg options) = Some m ->
  (0 <= m)%Z ->
  exists r,
    snd (executeQuery cfg ex query parameters options (QuerySettles elapsed (RowSet results)))
      = inr r
    /\ totalRows r = Some (Z.of_nat (List.length results))
    /\ ((Z.of_nat (List.length results) <= m)%Z ->
        truncated r = Some false
        /\ List.length (rows r) = List.length results)
    /\ ((Z.of_nat (List.length results) > m)%Z ->
        truncated r = Some true
        /\ Z.of_nat (List.length (rows r)) = m
        /\ (Z.of_nat (List.length (rows r)) < Z.of_nat (List.length results))%Z).
Proof.
  intros H Hn Hm.
  destruct (executeQueryTry_reaches ex query parameters options
              (QuerySettles elapsed (RowSet results)) H) as [sql E].
  unfold executeQuery; rewrite E; clear E; cbn zeta.
  unfold executeWithTimeout, executeQueryInternal.
  eexists; split; [reflexivity|].
  cbn [totalRows truncated rows setExecutionTime].
  pose proof (@slice0_length _ (effectiveMaxRows cfg options) m results Hn Hm) as L.
  rewrite (proj2 (toZ_inv _ m Hn)).
  split; [reflexivity|]. split; intros Hlen.
  - split.
    + f_equal. apply Z.ltb_ge. lia.
    + lia.
  - split; [|lia].
    f_equal. apply Z.ltb_lt. lia.
Qed.


End ExecutorFacts.

(** The three closed examples of the executor, on the default configuration. *)

Lemma executeQuery_rejected_witness :
  QueryValidator.isValid (QueryValidator.validate Config.securityConfig Scenario.deleteUsers)
    = false
  /\ snd (QueryExecutor.executeQuery Config.securityConfig QueryExecutor.emptyExecutor
            Scenario.deleteUsers [] QueryExecutor.noOptions (QueryExecutor.TimerFires 0))
     = inl (JS.lit "Query execution failed: Query validation failed: Forbidden keyword detected: DELETE, Operation 'DELETE' is not allowed. Only read-only operations are permitted., DELETE/UPDATE without WHERE clause is not allowed")
  /\ QueryExecutor.databaseCalls
       (fst (QueryExecutor.executeQuery Config.securityConfig QueryExecutor.emptyExecutor
               Scenario.deleteUsers [] QueryExecutor.noOptions (QueryExecutor.TimerFires 0)))
     = [].
Proof.
  assert (H : QueryValidator.isValid
                (QueryValidator.validate Config.securityConfig Scenario.deleteUsers) = false)
    by (vm_compute; reflexivity).
  destruct (executeQuery_rejected_query_never_reaches_database Config.securityConfig
              QueryExecutor.emptyExecutor Scenario.deleteUsers [] QueryExecutor.noOptions
              (QueryExecutor.TimerFires 0) H) as (Hmsg & Hcalls & _).
  split; [exact H|]. split.
  - rewrite Hmsg. vm_compute. reflexivity.
  - rewrite Hcalls. reflexivity.
Defined.

(** C2, counterexample.  [maxRows] is a number that the code takes as it
    comes.  With [maxRows = -1] and an empty row list the call succeeds with
    [truncated = true] although it holds as many rows as [totalRows] says,
    and not [maxRows] of them.  With [maxRows = 2.5] and three rows it is
    truncated to two rows, which is not [maxRows] either. *)
Lemma executeQuery_truncation_counterexample :
  QueryExecutor.reachesDatabase Config.securityConfig QueryExecutor.emptyExecutor
    Scenario.select1 [] Scenario.maxRowsMinus1 = true
  /\ QueryExecutor.effectiveMaxRows Config.securityConfig Scenario.maxRowsMinus1
     = JsNumber.ofZ (-1)
  /\ (exists r,
        snd (QueryExecutor.executeQuery Config.securityConfig QueryExecutor.emptyExecutor
               Scenario.select1 [] Scenario.maxRowsMinus1
               (QueryExecutor.QuerySettles 5 (QueryExecutor.RowSet [])))
        = inr r
        /\ QueryExecutor.truncated r = Some true
        /\ QueryExecutor.totalRows r = Some 0%Z
        /\ Z.of_nat (List.length (QueryExecutor.rows r)) = 0%Z
        /\ Z.of_nat (List.length (QueryExecutor.rows r)) <> (-1)%Z
        /\ ~ (Z.of_nat (List.length (QueryExecutor.rows r)) < 0)%Z)
  /\ QueryExecutor.effectiveMaxRows Config.securityConfig Scenario.maxRowsTwoAndHalf
     = JsNumber.Finite 5 2
  /\ (exists r,
        snd (QueryExecutor.executeQuery Config.securityConfig QueryExecutor.emptyExecutor
               Scenario.select1 [] Scenario.maxRowsTwoAndHalf
               (QueryExecutor.QuerySettles 5
                  (QueryExecutor.RowSet
                     [Scenario.idRow 1; Scenario.idRow 2; Scenario.idRow 3])))
        = inr r
        /\ QueryExecutor.truncated r = Some true
        /\ QueryExecutor.totalRows r = Some 3%Z
        /\ List.length (QueryExecutor.rows r) = 2%nat
        /\ JsNumber.Finite 5 2 <> JsNumber.ofZ 2).
Proof.
  split; [vm_compute; reflexivity|].
  split; [vm_compute; reflexivity|].
  split.
  { eexists. split; [vm_compute; reflexivity|].
    cbn. repeat split; try reflexivity; discriminate. }
  split; [vm_compute; reflexivity|].
  eexists. split; [vm_compute; reflexivity|].
  cbn. repeat split; try reflexivity; discriminate.
Qed.

Lemma executeQuery_truncation_witness :
  QueryExecutor.reachesDatabase Config.securityConfig QueryExecutor.emptyExecutor
    Scenario.select1 [] Scenario.maxRows2 = true
  /\ JsNumber.toZ (QueryExecutor.effectiveMaxRows Config.securityConfig Scenario.maxRows2)
     = Some 2%Z
  /\ exists r,
       snd (QueryExecutor.executeQuery Config.securityConfig QueryExecutor.emptyExecutor
              Scenario.select1 [] Scenario.maxRows2
              (QueryExecutor.QuerySettles 5
                 (QueryExecutor.RowSet [Scenario.idRow 1; Scenario.idRow 2; Scenario.idRow 3])))
       = inr r
       /\ QueryExecutor.truncated r = Some true
       /\ List.length (QueryExecutor.rows r) = 2%nat
       /\ QueryExecutor.totalRows r = Some 3%Z.
Proof.
  assert (H : QueryExecutor.reachesDatabase Config.securityConfig QueryExecutor.emptyExecutor
                Scenario.select1 [] Scenario.maxRows2 = true) by (vm_compute; reflexivity).
  assert (Hn : JsNumber.toZ
                 (QueryExecutor.effectiveMaxRows Config.securityConfig Scenario.maxRows2)
               = Some 2%Z) by (vm_compute; reflexivity).
  split; [exact H|]. split; [exact Hn|].
  destruct (executeQuery_truncates_at_maxRows Config.securityConfig
              QueryExecutor.emptyExecutor Scenario.select1 [] Scenario.maxRows2 5
              [Scenario.idRow 1; Scenario.idRow 2; Scenario.idRow 3] 2 H Hn
              ltac:(discriminate))
    as (r & Hr & Htot & _ & Hgt).
  exists r. split; [exact Hr|].
  destruct Hgt as (Ht & Hlen & _); [vm_compute; reflexivity|].
  split; [exact Ht|]. split; [|exact Htot].
  apply Nat2Z.inj. exact Hlen.
Defined.



(** A second call within the time to live is served from the cache: it is
    marked [cached], carries the rows of the first call, and the database
    has been called once. *)
Example second_call_is_served_from_cache :
  let first :=
    QueryExecutor.executeQuery Config.securityConfig QueryExecutor.emptyExecutor
      Scenario.select1 [] QueryExecutor.noOptions
      (QueryExecutor.QuerySettles 5 (QueryExecutor.RowSet [Scenario.idRow 1])) in
  let second :=
    QueryExecutor.executeQuery Config.securityConfig (fst first)
      Scenario.select1 [] QueryExecutor.noOptions
      (QueryExecutor.QuerySettles 7 (QueryExecutor.RowSet [])) in
  (exists r1 r2,
      snd first = inr r1 /\ snd second = inr r2
      /\ QueryExecutor.cached r2 = Some true
      /\ QueryExecutor.rows r2 = QueryExecutor.rows r1)
  /\ List.length (QueryExecutor.databaseCalls (fst second)) = 1%nat.
Proof.
  cbv zeta. split.
  - eexists. eexists. split; [vm_compute; reflexivity|].
    split; [vm_compute; reflexivity|]. split; reflexivity.
  - vm_compute. reflexivity.
Qed.

(* ================================================================== *)
(** ** Properties of the adapter factory *)
(* ================================================================== *)

(** C5.  The precedence explicit type, port rule, host-substring rule,
    default is also the one the repository documents (its section on
    adapter auto-selection).  The code departs from it: a config with port 5432, a
    host that contains "mysql" and no explicit type is detected as mysql,
    where the port rule gives postgresql. *)
Lemma detectDatabaseType_mysql_host_beats_postgres_port :
  Factory.type Scenario.mysqlHostPostgresPort = None
  /\ Factory.port Scenario.mysqlHostPostgresPort = 5432%Z
  /\ Factory.hostIncludes (JS.lit "mysql") Scenario.mysqlHostPostgresPort = true
  /\ Factory.specifiedDatabaseType Scenario.mysqlHostPostgresPort = Factory.postgresql
  /\ Factory.detectDatabaseType Scenario.mysqlHostPostgresPort = Factory.mysql
  /\ Factory.detectDatabaseType Scenario.mysqlHostPostgresPort <> Factory.postgresql.
Proof.
  repeat split; try (vm_compute; reflexivity).
  vm_compute. discriminate.
Qed.

(** What the code does: [detectDatabaseType] returns the explicit type if
    there is one; else mysql if the port is 3306 or the host contains
    "mysql"; else postgresql if the port is 5432 or the host contains
    "postgres"; else mysql.  It departs from the documented precedence
    exactly for an untyped config with port 5432 and a host containing
    "mysql". *)
Theorem detectDatabaseType_precedence (config : Factory.DatabaseConfig) :
  (forall t, Factory.type config = Some t -> Factory.detectDatabaseType config = t)
  /\ (Factory.type config = None ->
      (Factory.port config = 3306%Z \/ Factory.hostIncludes (JS.lit "mysql") config = true) ->
      Factory.detectDatabaseType config = Factory.mysql)
  /\ (Factory.type config = None ->
      Factory.port config <> 3306%Z ->
      Factory.hostIncludes (JS.lit "mysql") config = false ->
      (Factory.port config = 5432%Z \/ Factory.hostIncludes (JS.lit "postgres") config = true) ->
      Factory.detectDatabaseType config = Factory.postgresql)
  /\ (Factory.type config = None ->
      Factory.port config <> 3306%Z -> Factory.port config <> 5432%Z ->
      Factory.hostIncludes (JS.lit "mysql") config = false ->
      Factory.hostIncludes (JS.lit "postgres") config = false ->
      Factory.detectDatabaseType config = Factory.mysql)
  /\ Factory.detectDatabaseType config
     = match Factory.type config with
       | None =>
           if (Factory.port config =? 5432)%Z && Factory.hostIncludes (JS.lit "mysql") config
           then Factory.mysql
           else Factory.specifiedDatabaseType config
       | Some _ => Factory.specifiedDatabaseType config
       end.
Proof.
  unfold Factory.detectDatabaseType, Factory.specifiedDatabaseType.
  destruct (Factory.type config) as [t|].
  - repeat split; intros; try congruence.
  - destruct (Z.eqb_spec (Factory.port config) 3306) as [E1|E1];
      destruct (Z.eqb_spec (Factory.port config) 5432) as [E2|E2];
      destruct (Factory.hostIncludes (JS.lit "mysql") config);
      destruct (Factory.hostIncludes (JS.lit "postgres") config);
      cbn; repeat split; intros; try congruence; try lia;
      repeat match goal with
             | H : _ \/ _ |- _ => destruct H
             end; congruence.
Qed.

(** The cases of the repository's test suite on [detectDatabaseType]. *)

Example test_detects_explicit_postgresql :
  Factory.detectDatabaseType
    {| Factory.host := Some (JS.lit "localhost"); Factory.port := 5432;
       Factory.database := JS.lit "testdb"; Factory.user := JS.lit "test";
       Factory.password := JS.lit "test"; Factory.type := Some Factory.postgresql |}
  = Factory.postgresql.
Proof. reflexivity. Qed.

Example test_detects_postgresql_from_port :
  Factory.detectDatabaseType
    {| Factory.host := Some (JS.lit "localhost"); Factory.port := 5432;
       Factory.database := JS.lit "testdb"; Factory.user := JS.lit "test";
       Factory.password := JS.lit "test"; Factory.type := None |}
  = Factory.postgresql.
Proof. vm_compute. reflexivity. Qed.

Example test_detects_postgresql_from_hostname :
  Factory.detectDatabaseType
    {| Factory.host := Some (JS.lit "my-postgres-server.amazonaws.com"); Factory.port := 5432;
       Factory.database := JS.lit "testdb"; Factory.user := JS.lit "test";
       Factory.password := JS.lit "test"; Factory.type := None |}
  = Factory.postgresql.
Proof. vm_compute. reflexivity. Qed.

(* ================================================================== *)
(** ** Properties of the MySQL adapter *)
(* ================================================================== *)

Section AdapterFacts.

Import MySQLAdapter.

Lemma updateMetrics_keeps a ok t :
  pool (updateMetrics a ok t) = pool a
  /\ isShuttingDown (updateMetrics a ok t) = isShuttingDown a
  /\ activeQueries (updateMetrics a ok t) = activeQueries a.
Proof.
  unfold updateMetrics.
  destruct (metricsEnabled a); cbn; [|auto].
  match goal with |- context [if ?b then _ else _] => destruct b end; cbn; auto.
Qed.

Lemma queryEnd_keeps a startTime sql params_ elapsed reply :
  pool (fst (queryEnd a startTime sql params_ elapsed reply)) = pool a
  /\ isShuttingDown (fst (queryEnd a startTime sql params_ elapsed reply)) = isShuttingDown a
  /\ activeQueries (fst (queryEnd a startTime sql params_ elapsed reply))
     = (activeQueries a - 1)%Z.
Proof.
  unfold queryEnd.
  destruct reply as [r f | f | message]; cbn [fst];
    match goal with
    | |- context [updateMetrics ?x ?ok ?t] =>
        destruct (updateMetrics_keeps x ok t) as (Hp & Hs & Ha)
    end; cbn in *; rewrite Hp, Hs, Ha; auto.
Qed.

Lemma queryBegin_connected a :
  pool a = true -> isShuttingDown a = false ->
  queryBegin a = inr (setActiveQueries a (activeQueries a + 1)).
Proof. intros Hp Hs; unfold queryBegin; now rewrite Hp, Hs. Qed.

Lemma queryBegin_inv a a1 :
  queryBegin a = inr a1 -> a1 = setActiveQueries a (activeQueries a + 1).
Proof.
  unfold queryBegin.
  destruct (pool a); cbn; [|discriminate].
  destruct (isShuttingDown a); [discriminate|]. congruence.
Qed.

(** C7.  On a connected adapter, [activeQueries] after a [query] call equals
    its value before the call, whether [pool.execute] resolves or rejects
    (a driver-side timeout is a rejection).  The call that passes the
    shutdown guard adds one before it dispatches and takes one off in its
    [finally] block; a call stopped by the guard leaves the counter alone.
    A counter that was not negative before the call is not negative at
    dispatch or at exit. *)
Theorem query_restores_activeQueries
    (a : Adapter) (sql : jstr) (params_ : list JsValue.t) (elapsed : Z) (reply : ExecuteReply) :
  pool a = true ->
  activeQueries (fst (query a sql params_ elapsed reply)) = activeQueries a
  /\ (isShuttingDown a = false ->
      exists a1,
        queryBegin a = inr a1
        /\ activeQueries a1 = (activeQueries a + 1)%Z
        /\ query a sql params_ elapsed reply = queryEnd a1 (now a) sql params_ elapsed reply
        /\ activeQueries (fst (queryEnd a1 (now a) sql params_ elapsed reply))
           = (activeQueries a1 - 1)%Z)
  /\ (isShuttingDown a = true ->
      query a sql params_ elapsed reply = (a, inl (JS.lit "MySQL adapter is shutting down")))
  /\ ((0 <= activeQueries a)%Z ->
      (0 <= activeQueries (fst (query a sql params_ elapsed reply)))%Z
      /\ (forall a1, queryBegin a = inr a1 -> (0 <= activeQueries a1)%Z)).
Proof.
  intros Hp.
  assert (Hcall : activeQueries (fst (query a sql params_ elapsed reply)) = activeQueries a).
  { unfold query, queryBegin. rewrite Hp; cbn [negb].
    destruct (isShuttingDown a); [reflexivity|].
    destruct (queryEnd_keeps (setActiveQueries a (activeQueries a + 1)) (now a)
                sql params_ elapsed reply) as (_ & _ & Ha).
    rewrite Ha. cbn. lia. }
  split; [exact Hcall|]. split; [|split].
  - intros Hs. exists (setActiveQueries a (activeQueries a + 1)).
    split; [now apply queryBegin_connected|].
    split; [reflexivity|]. split.
    + unfold query. now rewrite (queryBegin_connected a Hp Hs).
    + destruct (queryEnd_keeps (setActiveQueries a (activeQueries a + 1)) (now a)
                  sql params_ elapsed reply) as (_ & _ & Ha).
      exact Ha.
  - intros Hs. unfold query, queryBegin. now rewrite Hp, Hs.
  - intros Hpos. split; [now rewrite Hcall|].
    intros a1 H1. apply queryBegin_inv in H1. subst a1. cbn. lia.
Qed.

Lemma turn_keeps a t :
  pool (turn a t) = pool a /\ isShuttingDown (turn a t) = isShuttingDown a.
Proof.
  destruct t as [| startTime sql params_ elapsed reply]; cbn.
  - unfold queryBegin.
    destruct (pool a) eqn:Hp; cbn; [|auto].
    destruct (isShuttingDown a) eqn:Hs; cbn; auto.
  - destruct (queryEnd_keeps a startTime sql params_ elapsed reply) as (Hp & Hs & _). auto.
Qed.

(** X21.  With several calls in flight on a connected adapter, the counter
    is its initial value plus the number of calls that have begun and not
    ended, at every point of every interleaving. *)
Lemma activeQueries_counts_calls_in_flight (ts : list Turn) :
  forall (a : Adapter) (inFlight k : nat),
    pool a = true -> isShuttingDown a = false ->
    pending inFlight ts = Some k ->
    activeQueries (fold_left turn ts a)
    = (activeQueries a + Z.of_nat k - Z.of_nat inFlight)%Z.
Proof.
  induction ts as [| t rest IH]; intros a inFlight k Hp Hs Hpend.
  - cbn in *. injection Hpend as <-. lia.
  - destruct (turn_keeps a t) as (Hp' & Hs').
    rewrite Hp in Hp'; rewrite Hs in Hs'.
    cbn [fold_left].
    destruct t as [| startTime sql params_ elapsed reply]; cbn [pending] in Hpend.
    + rewrite (IH _ _ _ Hp' Hs' Hpend).
      cbn [turn]. rewrite (queryBegin_connected a Hp Hs). cbn. lia.
    + destruct inFlight as [| n]; [discriminate|].
      rewrite (IH _ _ _ Hp' Hs' Hpend).
      cbn [turn].
      destruct (queryEnd_keeps a startTime sql params_ elapsed reply) as (_ & _ & Ha).
      rewrite Ha. lia.
Qed.

End AdapterFacts.

Lemma query_restores_activeQueries_witness :
  MySQLAdapter.pool Scenario.idleAdapter = true
  /\ MySQLAdapter.activeQueries
       (fst (MySQLAdapter.query Scenario.idleAdapter Scenario.select1 [] 100
               (MySQLAdapter.ExecuteError (JS.lit "read ETIMEDOUT"))))
     = 0%Z.
Proof.
  split; [reflexivity|].
  destruct (query_restores_activeQueries Scenario.idleAdapter Scenario.select1 [] 100
              (MySQLAdapter.ExecuteError (JS.lit "read ETIMEDOUT")) eq_refl)
    as (H & _).
  rewrite H. reflexivity.
Defined.

(* ================================================================== *)
(** ** Properties of the cross-database dispatcher *)
(* ================================================================== *)

Section DispatcherFacts.

Import MultiDb.

Variable mgr : ConnectionManager.
Variable replies : nat -> Settlement.

Lemma firstRejection_none_cons {A : Type} (p : nat * (jstr + A)) ps :
  firstRejection (p :: ps) = None ->
  (exists a, snd p = inr a) /\ firstRejection ps = None.
Proof.
  destruct p as [t [m | a]]; cbn -[Nat.ltb].
  - destruct (firstRejection ps) as [[t' m'] |]; cbn -[Nat.ltb]; [|intros H; discriminate H].
    destruct (t' <? t)%nat; intros H; discriminate H.
  - intros H; split; [now exists a | exact H].
Qed.

Lemma firstRejection_some_in {A : Type} (ps : list (nat * (jstr + A))) t m :
  firstRejection ps = Some (t, m) -> In (t, inl m) ps.
Proof.
  revert t m.
  induction ps as [| [t0 [m0 | a0]] rest IH]; intros t m; cbn -[Nat.ltb]; [discriminate | |].
  - destruct (firstRejection rest) as [[t' m'] |] eqn:E; cbn -[Nat.ltb].
    + destruct (t' <? t0)%nat; intros H; injection H as Ht Hm; subst.
      * right. now apply IH.
      * now left.
    + intros H; injection H as Ht Hm; subst; now left.
  - intros H; right; now apply IH.
Qed.

Lemma firstRejection_in_some {A : Type} (ps : list (nat * (jstr + A))) t m :
  In (t, inl m) ps -> exists t' m', firstRejection ps = Some (t', m').
Proof.
  induction ps as [| [t0 [m0 | a0]] rest IH]; cbn -[Nat.ltb]; [tauto | |].
  - intros _. destruct (firstRejection rest) as [[t' m'] |]; cbn -[Nat.ltb]; [|eauto].
    destruct (t' <? t0)%nat; eauto.
  - intros [H | H]; [discriminate | auto].
Qed.

Lemma itemPromises_in (queries : list CrossQuery) :
  forall i x,
    In x (itemPromises mgr replies i queries) ->
    exists k q, nth_error queries k = Some q /\ x = itemPromise mgr (replies (i + k)) q.
Proof.
  induction queries as [| q rest IH]; intros i x; cbn; [tauto|].
  intros [<- | H].
  - exists 0%nat, q. now rewrite Nat.add_0_r.
  - destruct (IH _ _ H) as (k & q' & Hk & ->).
    exists (S k), q'. split; [exact Hk|]. now rewrite Nat.add_succ_r.
Qed.

Lemma itemPromises_nth (queries : list CrossQuery) :
  forall i k q,
    nth_error queries k = Some q ->
    In (itemPromise mgr (replies (i + k)) q) (itemPromises mgr replies i queries).
Proof.
  induction queries as [| q0 rest IH]; intros i k q; [destruct k; discriminate|].
  destruct k as [| k]; cbn.
  - intros H; injection H as ->. left. now rewrite Nat.add_0_r.
  - intros H. right. rewrite <- Nat.add_succ_comm. now apply IH.
Qed.

(** When no promise rejects, the fulfilled values are the items of the
    input, one for one and in order. *)
Lemma itemPromises_fulfilled (queries : list CrossQuery) :
  forall i,
    firstRejection (itemPromises mgr replies i queries) = None ->
    List.length (fulfilled (itemPromises mgr replies i queries)) = List.length queries
    /\ forall k q,
         nth_error queries k = Some q ->
         exists r a,
           nth_error (fulfilled (itemPromises mgr replies i queries)) k = Some r
           /\ outcome (replies (i + k)) = inr a
           /\ itemDatabase r = database q
           /\ itemAlias r = aliasOrDatabase q
           /\ itemRowCount r = rowCount a
           /\ itemExecutionTime r = executionTime a
           /\ itemRows r = rows a.
Proof.
  induction queries as [| q0 rest IH]; intros i Hnone.
  - split; [reflexivity|]. intros [|k] q; discriminate.
  - cbn [itemPromises] in *.
    apply firstRejection_none_cons in Hnone. destruct Hnone as [[r0 Hr0] Hrest].
    destruct (IH _ Hrest) as [Hlen Hnth].
    unfold itemPromise in *.
    destruct (getConnection mgr (database q0)) as [e | n]; [discriminate|].
    destruct (outcome (replies i)) as [e | a0] eqn:Ha0; [discriminate|].
    cbn [fulfilled List.length]. split; [now rewrite Hlen|].
    intros [|k] q Hq; cbn in Hq.
    + injection Hq as <-. rewrite Nat.add_0_r.
      eexists; exists a0. split; [reflexivity|]. split; [exact Ha0|]. cbn. auto.
    + destruct (Hnth _ _ Hq) as (r & a & H1 & H2 & H3).
      exists r, a. split; [exact H1|]. split; [|exact H3].
      now rewrite <- Nat.add_succ_comm.
Qed.

Lemma fold_left_sum {A : Type} (f : A -> Z) (l : list A) :
  forall acc, fold_left (fun s r => (s + f r)%Z) l acc = (acc + sum (map f l))%Z.
Proof.
  induction l as [| x l IH]; intros acc; cbn; [lia|].
  rewrite IH. unfold sum. lia.
Qed.

(** [alias || database], case by case. *)
Lemma aliasOrDatabase_cases (q : CrossQuery) :
  (forall a, alias q = Some a -> a <> [] -> aliasOrDatabase q = a)
  /\ (alias q = None \/ alias q = Some [] -> aliasOrDatabase q = database q).
Proof.
  unfold aliasOrDatabase. split.
  - intros a Ha Hne. rewrite Ha. destruct a; [congruence|reflexivity].
  - intros [Ha | Ha]; rewrite Ha; reflexivity.
Qed.

(** C4.  A cross-database call over [K] items that succeeds returns [K]
    results in the order of the inputs: the result at index [i] carries the
    [database] of input [i], the rows, the row count and the execution time
    that the adapter of item [i] answered, and as its alias the alias of
    input [i] when that is a non-empty string, the database name of input
    [i] when the alias is missing or empty.  The summary counts [K] queries
    and adds up the row counts and the execution times of the items. *)
Theorem handleCrossDatabaseQuery_preserves_order (queries : list CrossQuery) (p : Payload) :
  handleCrossDatabaseQuery mgr replies queries = inr p ->
  List.length (results p) = List.length queries
  /\ (forall i q,
        nth_error queries i = Some q ->
        exists r a,
          nth_error (results p) i = Some r
          /\ outcome (replies i) = inr a
          /\ itemDatabase r = database q
          /\ (forall given, alias q = Some given -> given <> [] -> itemAlias r = given)
          /\ (alias q = None \/ alias q = Some [] -> itemAlias r = database q)
          /\ itemRowCount r = rowCount a
          /\ itemExecutionTime r = executionTime a
          /\ itemRows r = rows a)
  /\ totalQueries (summary p) = Z.of_nat (List.length queries)
  /\ totalRows (summary p) = sum (map itemRowCount (results p))
  /\ totalExecutionTime (summary p) = sum (map itemExecutionTime (results p)).
Proof.
  unfold handleCrossDatabaseQuery, promiseAll.
  destruct queries as [| q0 rest] eqn:Eq; [discriminate|]. rewrite <- Eq. clear Eq.
  destruct (firstRejection (itemPromises mgr replies 0 queries)) as [[t m] |] eqn:Hrej;
    [discriminate|].
  intros H; injection H as <-. cbn [results summary totalQueries totalRows totalExecutionTime].
  destruct (itemPromises_fulfilled queries 0 Hrej) as [Hlen Hnth].
  split; [exact Hlen|]. split.
  { intros i q Hq. destruct (Hnth i q Hq) as (r & a & H1 & H2 & H3 & H4 & H5 & H6 & H7).
    destruct (aliasOrDatabase_cases q) as (Hgiven & Hmissing).
    exists r, a. repeat split; try assumption.
    - intros given Hg Hne. rewrite H4. now apply Hgiven.
    - intros Hno. rewrite H4. now apply Hmissing. }
  split; [now rewrite Hlen|].
  split; rewrite fold_left_sum; lia.
Qed.

(** A call over a non-empty list whose items all resolve does return. *)
Lemma handleCrossDatabaseQuery_returns (queries : list CrossQuery) :
  queries <> [] ->
  (forall i q, nth_error queries i = Some q ->
     exists r, snd (itemPromise mgr (replies i) q) = inr r) ->
  exists p, handleCrossDatabaseQuery mgr replies queries = inr p.
Proof.
  intros Hne Hall. unfold handleCrossDatabaseQuery, promiseAll.
  destruct queries as [| q0 rest] eqn:Eq; [congruence|]. rewrite <- Eq in *. clear Eq.
  destruct (firstRejection (itemPromises mgr replies 0 queries)) as [[t m] |] eqn:Hrej;
    [|eauto].
  apply firstRejection_some_in in Hrej. apply itemPromises_in in Hrej.
  destruct Hrej as (k & q & Hk & Hx). cbn in Hx.
  destruct (Hall _ _ Hk) as [r Hr]. rewrite <- Hx in Hr. discriminate.
Qed.

(** [firstRejection] picks the rejection with the least settling time and,
    among those that settle together, the one of the earliest promise. *)
Lemma firstRejection_earliest {A : Type} (ps : list (nat * (jstr + A))) :
  forall t m,
    firstRejection ps = Some (t, m) ->
    exists j,
      nth_error ps j = Some (t, inl m)
      /\ forall k tk mk,
           nth_error ps k = Some (tk, inl mk) ->
           (t < tk)%nat \/ (t = tk /\ (j <= k)%nat).
Proof.
  induction ps as [| [t0 [m0 | a0]] rest IH]; intros t m; cbn -[Nat.ltb]; [discriminate | |].
  - destruct (firstRejection rest) as [[t' m'] |] eqn:E; cbn -[Nat.ltb].
    + destruct (IH t' m' eq_refl) as (j' & Hj' & Hmin).
      destruct (Nat.ltb_spec t' t0) as [L | L]; intros H; injection H as Ht Hm; subst.
      * exists (S j'). split; [exact Hj'|].
        intros [| k] tk mk Hk; cbn in Hk.
        -- injection Hk as Ht Hm; subst. now left.
        -- destruct (Hmin k tk mk Hk) as [Hlt | [He Hle]]; [now left | right; lia].
      * exists 0%nat. split; [reflexivity|].
        intros [| k] tk mk Hk; cbn in Hk.
        -- injection Hk as Ht Hm; subst. right. lia.
        -- destruct (Hmin k tk mk Hk) as [Hlt | [He Hle]]; [left; lia|].
           destruct (Nat.eq_dec t tk); [right; lia | left; lia].
    + intros H; injection H as Ht Hm; subst.
      exists 0%nat. split; [reflexivity|].
      intros [| k] tk mk Hk; cbn in Hk.
      * injection Hk as Ht Hm; subst. right. lia.
      * apply nth_error_In in Hk.
        destruct (firstRejection_in_some _ _ _ Hk) as (t' & m' & E').
        rewrite E in E'. discriminate.
  - intros H. destruct (IH t m H) as (j & Hj & Hmin).
    exists (S j). split; [exact Hj|].
    intros [| k] tk mk Hk; cbn in Hk; [discriminate|].
    destruct (Hmin k tk mk Hk) as [Hlt | [He Hle]]; [now left | right; lia].
Qed.

Lemma itemPromises_nth_error (queries : list CrossQuery) :
  forall i k,
    nth_error (itemPromises mgr replies i queries) k
    = option_map (itemPromise mgr (replies (i + k))) (nth_error queries k).
Proof.
  induction queries as [| q rest IH]; intros i k.
  - destruct k; reflexivity.
  - destruct k as [| k]; cbn.
    + now rewrite Nat.add_0_r.
    + rewrite IH. now rewrite Nat.add_succ_comm.
Qed.

(** C3, as amended.  When the promise of one item rejects (its pool is
    unknown or its [adapter.query] fails), [Promise.all] rejects and the
    handler throws: the call returns no result list, whatever the other
    items did.  The error is that of the first rejection: the failing item
    [j] whose promise settles before that of every other failing item, the
    earlier item winning among those that settle together; when one item
    only fails, it is the error of that item.  The tool response is one
    line of text built from it. *)
Theorem handleCrossDatabaseQuery_fails_as_a_whole
    (queries : list CrossQuery) (i : nat) (q : CrossQuery) (message : jstr) :
  nth_error queries i = Some q ->
  snd (itemPromise mgr (replies i) q) = inl message ->
  exists j qj reason,
    nth_error queries j = Some qj
    /\ snd (itemPromise mgr (replies j) qj) = inl reason
    /\ (forall k qk mk,
          nth_error queries k = Some qk ->
          snd (itemPromise mgr (replies k) qk) = inl mk ->
          (fst (itemPromise mgr (replies j) qj) < fst (itemPromise mgr (replies k) qk))%nat
          \/ (fst (itemPromise mgr (replies j) qj) = fst (itemPromise mgr (replies k) qk)
              /\ (j <= k)%nat))
    /\ ((forall k qk mk,
           nth_error queries k = Some qk ->
           snd (itemPromise mgr (replies k) qk) = inl mk -> k = i) ->
        reason = message)
    /\ handleCrossDatabaseQuery mgr replies queries = inl reason
    /\ (forall p, handleCrossDatabaseQuery mgr replies queries <> inr p)
    /\ callCrossDatabaseQuery mgr replies queries
       = ErrorText (JS.lit "Error executing cross_database_query: " ++ reason).
Proof.
  intros Hq Hfail.
  pose proof (itemPromises_nth queries 0 i q Hq) as Hin. cbn [Nat.add] in Hin.
  destruct (itemPromise mgr (replies i) q) as [t o] eqn:Ep. cbn in Hfail; subst o.
  destruct (firstRejection_in_some _ _ _ Hin) as (t' & reason & Hrej).
  destruct (firstRejection_earliest _ _ _ Hrej) as (j & Hj & Hmin).
  rewrite itemPromises_nth_error in Hj. cbn [Nat.add] in Hj.
  destruct (nth_error queries j) as [qj |] eqn:Eqj; [|discriminate].
  cbn in Hj. injection Hj as Hj.
  exists j, qj, reason.
  split; [exact Eqj|]. split; [now rewrite Hj|].
  split.
  { intros k qk mk Hk Hmk. rewrite Hj. cbn [fst].
    destruct (itemPromise mgr (replies k) qk) as [tk ok] eqn:Ek. cbn in Hmk; subst ok.
    cbn [fst]. apply (Hmin k tk mk).
    rewrite itemPromises_nth_error. cbn [Nat.add]. rewrite Hk. cbn. now rewrite Ek. }
  split.
  { intros Honly.
    assert (Hji : j = i) by (apply (Honly j qj reason Eqj); now rewrite Hj).
    subst j. rewrite Hq in Eqj. injection Eqj as <-. rewrite Ep in Hj. congruence. }
  assert (Hh : handleCrossDatabaseQuery mgr replies queries = inl reason).
  { unfold handleCrossDatabaseQuery, promiseAll.
    destruct queries as [| q0 rest]; [destruct i; discriminate|].
    now rewrite Hrej. }
  split; [exact Hh|]. split; [rewrite Hh; discriminate|].
  unfold callCrossDatabaseQuery. now rewrite Hh.
Qed.

End DispatcherFacts.

(** C3, counterexample.  Pool [a] answers three rows and the query on pool
    [b] fails: the handler throws the error of [b] and the response holds no
    item, not the rows of [a] with an annotated failure beside them. *)
Lemma handleCrossDatabaseQuery_counterexample :
  (exists a, MultiDb.outcome (Scenario.secondFails 0) = inr a)
  /\ MultiDb.outcome (Scenario.secondFails 1) = inl (JS.lit "Unknown column 'id' in 'field list'")
  /\ MultiDb.handleCrossDatabaseQuery Scenario.twoPools Scenario.secondFails Scenario.twoQueries
     = inl (JS.lit "Unknown column 'id' in 'field list'")
  /\ MultiDb.callCrossDatabaseQuery Scenario.twoPools Scenario.secondFails Scenario.twoQueries
     = MultiDb.ErrorText
         (JS.lit "Error executing cross_database_query: Unknown column 'id' in 'field list'")
  /\ ~ (exists p, MultiDb.handleCrossDatabaseQuery Scenario.twoPools Scenario.secondFails
                    Scenario.twoQueries = inr p).
Proof.
  split; [eexists; reflexivity|].
  split; [reflexivity|].
  split; [vm_compute; reflexivity|].
  split; [vm_compute; reflexivity|].
  intros [p Hp]. vm_compute in Hp. discriminate.
Qed.

(** C3, at two failing items: the query on pool [a] is the first of the
    list and fails late, the one on pool [b] fails early; the call reports
    the failure on [b]. *)
Lemma handleCrossDatabaseQuery_fails_witness :
  nth_error Scenario.twoQueries 0
    = Some {| MultiDb.database := JS.lit "a"; MultiDb.query := JS.lit "SELECT id FROM t";
              MultiDb.alias := Some (JS.lit "A") |}
  /\ MultiDb.handleCrossDatabaseQuery Scenario.twoPools Scenario.bothFail Scenario.twoQueries
     = inl (JS.lit "early failure on b")
  /\ exists j qj reason,
       nth_error Scenario.twoQueries j = Some qj
       /\ snd (MultiDb.itemPromise Scenario.twoPools (Scenario.bothFail j) qj) = inl reason
       /\ MultiDb.handleCrossDatabaseQuery Scenario.twoPools Scenario.bothFail
            Scenario.twoQueries
          = inl reason.
Proof.
  split; [reflexivity|]. split; [vm_compute; reflexivity|].
  destruct (handleCrossDatabaseQuery_fails_as_a_whole Scenario.twoPools Scenario.bothFail
              Scenario.twoQueries 0
              {| MultiDb.database := JS.lit "a"; MultiDb.query := JS.lit "SELECT id FROM t";
                 MultiDb.alias := Some (JS.lit "A") |}
              (JS.lit "late failure on a")
              eq_refl eq_refl)
    as (j & qj & reason & Hj & Hr & _ & _ & H & _).
  exists j, qj, reason. split; [exact Hj|]. split; [exact Hr | exact H].
Defined.

(** C4, at three items: one with an alias, one without, one with an empty
    alias. *)
Lemma handleCrossDatabaseQuery_order_witness :
  exists p,
    MultiDb.handleCrossDatabaseQuery Scenario.twoPools Scenario.bothSucceed
      Scenario.mixedAliases
    = inr p
    /\ List.length (MultiDb.results p) = 3%nat
    /\ MultiDb.totalQueries (MultiDb.summary p) = 3%Z
    /\ MultiDb.totalRows (MultiDb.summary p) = 13%Z
    /\ map MultiDb.itemDatabase (MultiDb.results p) = [JS.lit "a"; JS.lit "b"; JS.lit "a"]
    /\ map MultiDb.itemAlias (MultiDb.results p) = [JS.lit "A"; JS.lit "b"; JS.lit "a"].
Proof.
  eexists. split; [vm_compute; reflexivity|].
  match goal with
  | |- List.length (MultiDb.results ?p) = _ /\ _ =>
      destruct (handleCrossDatabaseQuery_preserves_order Scenario.twoPools Scenario.bothSucceed
                  Scenario.mixedAliases p ltac:(vm_compute; reflexivity))
        as (Hlen & _ & Hk & _)
  end.
  split; [exact Hlen|]. split; [exact Hk|]. repeat split; reflexivity.
Defined.

(* ================================================================== *)
(** ** Properties of the schema cache *)
(* ================================================================== *)

Section CacheFacts.

Import SchemaCache.

Variable databaseName : jstr.
Variable profiler : Profiler.

Lemma evictEntries_keeps_log c n x :
  In x (logged c) -> In x (logged (evictEntries c n)).
Proof.
  unfold evictEntries.
  destruct (entriesToEvict n 0 (sortEntries (cache c))); cbn; [auto|].
  intros H. apply in_or_app. now left.
Qed.

Lemma set_keeps_log c k d t x :
  In x (logged c) -> In x (logged (set c k d t)).
Proof.
  intros H. unfold set, log. cbn [logged]. apply in_or_app. left.
  unfold setEntries. cbn [logged].
  destruct (shouldEvict c (estimateSize d)); [now apply evictEntries_keeps_log | exact H].
Qed.

Lemma warmTable_keeps_log c table x :
  In x (logged c) -> In x (logged (warmTable databaseName profiler c table)).
Proof.
  intros H.
  assert (H1 : In x (logged (setTableInfo c databaseName (name table) table)))
    by (unfold setTableInfo; now apply set_keeps_log).
  unfold warmTable.
  match goal with |- context [if ?b then _ else _] => destruct b end; [|exact H1].
  destruct (profileTable profiler (name table)) as [[p |] | e].
  - unfold setTableProfile. now apply set_keeps_log.
  - exact H1.
  - unfold log. cbn [logged]. apply in_or_app. now left.
Qed.

Lemma warmTables_keep_log (l : list TableInfo) :
  forall c x, In x (logged c) -> In x (logged (fold_left (warmTable databaseName profiler) l c)).
Proof.
  induction l as [| t l IH]; intros c x H; cbn; [exact H|].
  apply IH. now apply warmTable_keeps_log.
Qed.

Lemma warmTable_logs_profile_failure c table e :
  (match rowCount table with Some n => n | None => 0 end < 10000)%Z ->
  profileTable profiler (name table) = Rejects e ->
  In (profileFailure table) (logged (warmTable databaseName profiler c table)).
Proof.
  intros Hsmall Hrej. unfold warmTable.
  apply Z.ltb_lt in Hsmall. rewrite Hsmall, Hrej.
  cbn. apply in_or_app. right. now left.
Qed.

Lemma warmTables_log_profile_failure (l : list TableInfo) :
  forall c table e,
    In table l ->
    (match rowCount table with Some n => n | None => 0 end < 10000)%Z ->
    profileTable profiler (name table) = Rejects e ->
    In (profileFailure table) (logged (fold_left (warmTable databaseName profiler) l c)).
Proof.
  induction l as [| t l IH]; intros c table e Hin Hsmall Hrej; [destruct Hin|].
  cbn. destruct Hin as [-> | Hin].
  - apply warmTables_keep_log. now apply warmTable_logs_profile_failure with e.
  - now apply IH with e.
Qed.

(** C9, as amended.  A failure of [profiler.profileTable] is logged as a
    warning and the warm-up goes on: when the three analyzer calls resolve,
    [warmup] returns normally whatever the profiler does.  A failure of
    [getDatabaseInfo], [analyzeFullSchema] or [getTableRelationships] is
    logged as an error and thrown again: [warmup] rejects with it. *)
Theorem warmup_swallows_profile_failures_only (c : Cache) (analyzer : Analyzer) :
  (forall dbInfo schema relationships,
      getDatabaseInfo analyzer = Resolves dbInfo ->
      analyzeFullSchema analyzer = Resolves schema ->
      getTableRelationships analyzer = Resolves relationships ->
      snd (warmup c databaseName analyzer profiler) = inr tt
      /\ forall table e,
           In table (tables schema) ->
           (match rowCount table with Some n => n | None => 0 end < 10000)%Z ->
           profileTable profiler (name table) = Rejects e ->
           In (profileFailure table) (logged (fst (warmup c databaseName analyzer profiler))))
  /\ (forall e,
        getDatabaseInfo analyzer = Rejects e ->
        snd (warmup c databaseName analyzer profiler) = inl e
        /\ In (warmupFailure databaseName) (logged (fst (warmup c databaseName analyzer profiler))))
  /\ (forall dbInfo e,
        getDatabaseInfo analyzer = Resolves dbInfo ->
        analyzeFullSchema analyzer = Rejects e ->
        snd (warmup c databaseName analyzer profiler) = inl e
        /\ In (warmupFailure databaseName) (logged (fst (warmup c databaseName analyzer profiler))))
  /\ (forall dbInfo schema e,
        getDatabaseInfo analyzer = Resolves dbInfo ->
        analyzeFullSchema analyzer = Resolves schema ->
        getTableRelationships analyzer = Rejects e ->
        snd (warmup c databaseName analyzer profiler) = inl e
        /\ In (warmupFailure databaseName) (logged (fst (warmup c databaseName analyzer profiler)))).
Proof.
  unfold warmup, warmupTry.
  split; [|split; [|split]].
  - intros dbInfo schema relationships -> -> ->. cbn [fst snd].
    split; [reflexivity|].
    intros table e Hin Hsmall Hrej.
    unfold log at 1. cbn [logged]. apply in_or_app. left.
    now apply warmTables_log_profile_failure with e.
  - intros e ->. cbn. split; [reflexivity|].
    apply in_or_app. right. now left.
  - intros dbInfo e -> ->. cbn [fst snd]. split; [reflexivity|].
    unfold log at 1. cbn [logged]. apply in_or_app. right. now left.
  - intros dbInfo schema e -> -> ->. cbn [fst snd]. split; [reflexivity|].
    unfold log at 1. cbn [logged]. apply in_or_app. right. now left.
Qed.

End CacheFacts.

(** C9, counterexample.  When [getDatabaseInfo] rejects, the warm-up call
    itself rejects with that error. *)
Lemma warmup_counterexample :
  SchemaCache.getDatabaseInfo Scenario.failingAnalyzer
    = SchemaCache.Rejects (JS.lit "connect ETIMEDOUT")
  /\ snd (SchemaCache.warmup SchemaCache.emptyCache (JS.lit "shop")
            Scenario.failingAnalyzer Scenario.failingProfiler)
     = inl (JS.lit "connect ETIMEDOUT")
  /\ snd (SchemaCache.warmup SchemaCache.emptyCache (JS.lit "shop")
            Scenario.failingAnalyzer Scenario.failingProfiler)
     <> inr tt.
Proof.
  split; [reflexivity|]. split; [vm_compute; reflexivity|].
  vm_compute. discriminate.
Qed.

(** The profiler failing on every table does not stop a warm-up. *)
Example warmup_with_failing_profiler :
  snd (SchemaCache.warmup SchemaCache.emptyCache (JS.lit "shop")
         Scenario.workingAnalyzer Scenario.failingProfiler)
  = inr tt
  /\ map (fun e => (SchemaCache.level e, SchemaCache.about e))
       (filter (fun e => match SchemaCache.level e with
                         | SchemaCache.warn | SchemaCache.error => true
                         | _ => false
                         end)
          (SchemaCache.logged
             (fst (SchemaCache.warmup SchemaCache.emptyCache (JS.lit "shop")
                     Scenario.workingAnalyzer Scenario.failingProfiler))))
     = [(SchemaCache.warn, JS.lit "users")].
Proof. split; vm_compute; reflexivity. Qed.

(* ================================================================== *)
(** ** Further properties of the validator *)
(* ================================================================== *)

Section ValidatorCoverage.

Import Config QueryValidator.

Variable cfg : SecurityConfig.

Lemma reject_fold {A : Type} (hit : A -> bool) (msg : A -> jstr) (l : list A) :
  forall r,
    let r' := fold_left (fun r x => if hit x then reject r (msg x) else r) l r in
    isValid r' = isValid r && forallb (fun x => negb (hit x)) l
    /\ errors r' = errors r ++ map msg (filter hit l)
    /\ sanitizedQuery r' = sanitizedQuery r.
Proof.
  induction l as [| x l IH]; intros r; cbn.
  - rewrite andb_true_r, app_nil_r. auto.
  - destruct (IH (if hit x then reject r (msg x) else r)) as (Hv & He & Hs).
    cbv zeta in Hv, He, Hs. rewrite Hv, He, Hs.
    destruct (hit x); cbn; [|auto].
    rewrite <- app_assoc. rewrite andb_false_r. auto.
Qed.

Lemma filter_nil_of_forallb {A : Type} (hit : A -> bool) (l : list A) :
  forallb (fun x => negb (hit x)) l = true -> filter hit l = [].
Proof.
  induction l as [| x l IH]; cbn; [reflexivity|].
  destruct (hit x); cbn; [discriminate|exact IH].
Qed.

Lemma forallb_of_filter_nil {A : Type} (hit : A -> bool) (l : list A) :
  filter hit l = [] -> forallb (fun x => negb (hit x)) l = true.
Proof.
  induction l as [| x l IH]; cbn; [reflexivity|].
  destruct (hit x); cbn; [discriminate|exact IH].
Qed.

(** What [checkForbiddenKeywords] leaves: the verdict and the errors. *)
Lemma checkForbiddenKeywords_spec (query : jstr) (r : ValidationResult) :
  let queryUpper := JS.toUpperCase query in
  let words := JS.splitWs queryUpper in
  let hit := fun keyword =>
               JS.arrayIncludes keyword words || JS.includes keyword queryUpper in
  let refused := match words with
                 | ((_ :: _) as w) :: _ => negb (JS.arrayIncludes w (allowedKeywords cfg))
                 | _ => false
                 end in
  isValid (checkForbiddenKeywords cfg query r)
  = isValid r && forallb (fun k => negb (hit k)) forbiddenKeywords && negb refused
  /\ errors (checkForbiddenKeywords cfg query r)
     = errors r
       ++ map (fun k => JS.lit "Forbidden keyword detected: " ++ k) (filter hit forbiddenKeywords)
       ++ match words with
          | ((_ :: _) as w) :: _ =>
              if negb (JS.arrayIncludes w (allowedKeywords cfg))
              then [JS.lit "Operation '" ++ w
                      ++ JS.lit "' is not allowed. Only read-only operations are permitted."]
              else []
          | _ => []
          end.
Proof.
  cbv zeta. unfold checkForbiddenKeywords. cbv zeta.
  destruct (reject_fold
              (fun keyword =>
                 JS.arrayIncludes keyword (JS.splitWs (JS.toUpperCase query))
                 || JS.includes keyword (JS.toUpperCase query))
              (fun k => JS.lit "Forbidden keyword detected: " ++ k)
              forbiddenKeywords r) as (Hv & He & _).
  cbv zeta in Hv, He.
  match type of Hv with
  | isValid ?X = _ => set (r1 := X) in *
  end.
  destruct (JS.splitWs (JS.toUpperCase query)) as [| [| c w] rest].
  - rewrite Hv, He, andb_true_r, app_nil_r. auto.
  - rewrite Hv, He, andb_true_r, app_nil_r. auto.
  - destruct (negb (JS.arrayIncludes (c :: w) (allowedKeywords cfg))); cbn [reject isValid errors].
    + rewrite He, andb_false_r, <- app_assoc. auto.
    + rewrite Hv, He, andb_true_r, app_nil_r. auto.
Qed.

Lemma checkSuspiciousPatterns_spec (query : jstr) (r : ValidationResult) :
  let hit := fun pattern => Regex.test (regex pattern) query in
  isValid (checkSuspiciousPatterns query r)
  = isValid r && forallb (fun p => negb (hit p)) suspiciousPatterns
  /\ errors (checkSuspiciousPatterns query r)
     = errors r
       ++ map (fun p => JS.lit "Suspicious pattern detected: " ++ source p)
            (filter hit suspiciousPatterns).
Proof.
  intros hit. unfold checkSuspiciousPatterns.
  destruct (reject_fold hit (fun p => JS.lit "Suspicious pattern detected: " ++ source p)
              suspiciousPatterns r) as (Hv & He & _).
  auto.
Qed.

Lemma validate_after_basic (query : jstr) :
  isValid (validateBasicInput cfg query freshResult) = true ->
  validate cfg query
  = let n := normalizeQuery query in
    let r := performAdvancedValidation n
               (checkSuspiciousPatterns n (checkForbiddenKeywords cfg n freshResult)) in
    {| isValid := isValid r; errors := errors r; sanitizedQuery := Some n |}.
Proof.
  intros H. unfold validate.
  destruct (validateBasicInput_accepts cfg query H) as (E & _).
  rewrite E. reflexivity.
Qed.

Lemma validate_basic_rejects (query : jstr) :
  isValid (validateBasicInput cfg query freshResult) = false ->
  validate cfg query = validateBasicInput cfg query freshResult
  /\ exists msg, validateBasicInput cfg query freshResult = reject freshResult msg.
Proof.
  intros H. split.
  - unfold validate. now rewrite H.
  - revert H. unfold validateBasicInput.
    destruct query as [| c q]; [eauto|].
    destruct (Z.of_nat (List.length (c :: q)) >? maxQueryLength cfg)%Z; [eauto|].
    destruct (JS.trim (c :: q)); [eauto|]. cbn. discriminate.
Qed.


(** A code unit that the [i] flag identifies with an upper-case ASCII letter
    becomes that letter under [toUpperCase]. *)
Lemma upperUnit_of_canon (x c : N) :
  (65 <= c <= 90)%N -> Regex.canon x = Regex.canon c -> JS.upperUnit x = [c].
Proof.
  intros Hc. unfold Regex.canon, JS.upperUnit.
  destruct ((97 <=? c) && (c <=? 122))%N eqn:Ec.
  { apply andb_true_iff in Ec. destruct Ec as (E1 & _). apply N.leb_le in E1. lia. }
  destruct ((97 <=? x) && (x <=? 122))%N eqn:Ex; intros E.
  - now rewrite E.
  - subst x.
    replace (c =? 223)%N with false by (symmetry; apply N.eqb_neq; lia).
    replace (c =? 181)%N with false by (symmetry; apply N.eqb_neq; lia).
    replace (c =? 255)%N with false by (symmetry; apply N.eqb_neq; lia).
    replace (224 <=? c)%N with false by (symmetry; apply N.leb_gt; lia).
    reflexivity.
Qed.

Lemma wordi_upper (w : jstr) :
  w <> [] ->
  Forall (fun c => (65 <= c <= 90)%N) w ->
  forall m, Regex.lang (Regex.wordi w) m -> JS.toUpperCase m = w.
Proof.
  unfold Regex.wordi.
  induction w as [| c w IH]; intros Hne Hall m Hm; [congruence|].
  inversion Hall as [| ? ? Hc Hw]; subst.
  destruct w as [| c' w'].
  - cbn in Hm. apply lang_cls_inv in Hm. destruct Hm as (x & -> & Hx).
    apply N.eqb_eq in Hx. cbn. rewrite (upperUnit_of_canon x c Hc Hx). reflexivity.
  - cbn [map Regex.seq] in Hm.
    change (Regex.lang (Regex.Cat (Regex.chri c) (Regex.seq (map Regex.chri (c' :: w')))) m) in Hm.
    apply lang_cat_inv in Hm. destruct Hm as (u & v & -> & Hu & Hv).
    apply lang_cls_inv in Hu. destruct Hu as (x & -> & Hx).
    apply N.eqb_eq in Hx.
    unfold JS.toUpperCase. cbn [app flat_map].
    rewrite (upperUnit_of_canon x c Hc Hx).
    unfold JS.toUpperCase in IH. rewrite (IH ltac:(discriminate) Hw v Hv). reflexivity.
Qed.

Lemma test_wordi_includes (w s : jstr) :
  w <> [] ->
  Forall (fun c => (65 <= c <= 90)%N) w ->
  Regex.test (Regex.wordi w) s = true ->
  JS.includes w (JS.toUpperCase s) = true.
Proof.
  intros Hne Hall H. apply test_lang in H. destruct H as (a & m & b & -> & Hm).
  unfold JS.toUpperCase. rewrite !flat_map_app.
  change (flat_map JS.upperUnit m) with (JS.toUpperCase m).
  rewrite (wordi_upper w Hne Hall m Hm). apply includes_occurs. eauto.
Qed.

Lemma test_alt (a b : Regex.re) (s : jstr) :
  Regex.test (Regex.Alt a b) s = true -> Regex.test a s = true \/ Regex.test b s = true.
Proof.
  intros H. apply test_lang in H. destruct H as (x & m & y & E & Hm).
  apply lang_alt_inv in Hm. destruct Hm as [Hm | Hm]; [left | right];
    apply test_lang; eauto.
Qed.

(** The last step of [validate] adds its error only to a query that the
    keyword check has refused already. *)
Lemma In_DELETE : In (JS.lit "DELETE") forbiddenKeywords.
Proof. unfold forbiddenKeywords. cbn [map]. right. right. now left. Qed.

Lemma In_UPDATE : In (JS.lit "UPDATE") forbiddenKeywords.
Proof. unfold forbiddenKeywords. cbn [map]. right. now left. Qed.

Lemma fresh_valid : isValid freshResult = true.
Proof. reflexivity. Qed.

Lemma fresh_errors : errors freshResult = [].
Proof. reflexivity. Qed.

Lemma performAdvancedValidation_after_keywords (query : jstr) (r : ValidationResult) :
  JS.includes (JS.lit "DELETE") (JS.toUpperCase query) = false ->
  JS.includes (JS.lit "UPDATE") (JS.toUpperCase query) = false ->
  performAdvancedValidation query r = r.
Proof.
  intros Hd Hu. unfold performAdvancedValidation.
  destruct (Regex.test (Regex.Alt (Regex.wordi (JS.lit "DELETE")) (Regex.wordi (JS.lit "UPDATE")))
              query) eqn:E; [|reflexivity].
  apply test_alt in E. exfalso.
  destruct E as [E | E]; apply test_wordi_includes in E; try discriminate; try congruence;
    repeat constructor; cbv; intros; discriminate.
Qed.


(** What an admitted query has passed: the verdicts of the keyword check and
    of the pattern check. *)
Lemma validate_admitted_inv (query : jstr) :
  isValid (validate cfg query) = true ->
  isValid (validateBasicInput cfg query freshResult) = true
  /\ isValid (checkForbiddenKeywords cfg (normalizeQuery query) freshResult) = true
  /\ isValid (checkSuspiciousPatterns (normalizeQuery query)
                (checkForbiddenKeywords cfg (normalizeQuery query) freshResult)) = true.
Proof.
  intros H.
  pose proof (validate_admitted_passes_basic_input cfg query H) as B.
  rewrite (validate_after_basic query B) in H. cbv zeta in H. cbn [isValid] in H.
  rewrite (proj1 (performAdvancedValidation_keeps (normalizeQuery query) _)) in H.
  split; [exact B|]. split; [|exact H].
  destruct (checkSuspiciousPatterns_spec (normalizeQuery query)
              (checkForbiddenKeywords cfg (normalizeQuery query) freshResult)) as (Hv & _).
  cbv zeta in Hv. rewrite Hv in H. now apply andb_true_iff in H.
Qed.

Lemma keywords_clear (query keyword : jstr) :
  isValid (checkForbiddenKeywords cfg query freshResult) = true ->
  In keyword forbiddenKeywords ->
  JS.includes keyword (JS.toUpperCase query) = false.
Proof.
  intros H Hk.
  destruct (checkForbiddenKeywords_spec query freshResult) as (Hv & _).
  cbv zeta in Hv. rewrite Hv, fresh_valid, andb_true_l in H.
  apply andb_true_iff in H. destruct H as (H & _).
  rewrite forallb_forall in H. specialize (H keyword Hk).
  apply negb_true_iff, orb_false_iff in H. tauto.
Qed.

(** X1.  [validate] reports a query as valid exactly when it reports no
    error: every rejection comes with its message, and the one check that
    pushes a message without touching [isValid] (DELETE or UPDATE without
    WHERE) fires only on a query that the keyword check has refused.  The
    statement is kept to queries of code units below 256, on which
    [toUpperCase] of the embedding is that of the code. *)
Theorem validate_valid_iff_no_errors (query : jstr) :
  JS.latin1 query = true ->
  (isValid (validate cfg query) = true <-> errors (validate cfg query) = []).
Proof.
  intros _.
  destruct (isValid (validateBasicInput cfg query freshResult)) eqn:B.
  2:{ destruct (validate_basic_rejects query B) as (E & msg & Em).
      rewrite E, Em. unfold reject. cbn [isValid errors]. rewrite fresh_errors.
      split; [discriminate | intros H; destruct (app_cons_not_nil _ _ _ (eq_sym H))]. }
  split.
  - intros H.
    destruct (validate_admitted_inv query H) as (_ & K & P).
    rewrite (validate_after_basic query B). cbv zeta. cbn [errors].
    set (n := normalizeQuery query) in *.
    rewrite performAdvancedValidation_after_keywords;
      [| apply (keywords_clear n _ K); apply In_DELETE
       | apply (keywords_clear n _ K); apply In_UPDATE].
    destruct (checkSuspiciousPatterns_spec n (checkForbiddenKeywords cfg n freshResult))
      as (Pv & Pe).
    destruct (checkForbiddenKeywords_spec n freshResult) as (Kv & Ke).
    cbv zeta in Pv, Pe, Kv, Ke.
    rewrite Pv, K, andb_true_l in P.
    rewrite Kv, fresh_valid, andb_true_l in K.
    apply andb_true_iff in K. destruct K as (K1 & K2).
    rewrite Pe, Ke, fresh_errors, app_nil_l.
    apply filter_nil_of_forallb in K1. apply filter_nil_of_forallb in P.
    rewrite K1, P. cbn [map app].
    destruct (JS.splitWs (JS.toUpperCase n)) as [| [| c w] rest]; try reflexivity.
    apply negb_true_iff in K2. rewrite K2. reflexivity.
  - rewrite (validate_after_basic query B). cbv zeta. cbn [errors isValid].
    set (n := normalizeQuery query).
    intros H.
    rewrite (proj1 (performAdvancedValidation_keeps n _)).
    assert (H2 : errors (checkSuspiciousPatterns n (checkForbiddenKeywords cfg n freshResult)) = []).
    { destruct (errors (checkSuspiciousPatterns n (checkForbiddenKeywords cfg n freshResult)))
        as [| e l] eqn:E; [reflexivity|].
      pose proof (proj2 (performAdvancedValidation_keeps n
                           (checkSuspiciousPatterns n (checkForbiddenKeywords cfg n freshResult)))
                    e) as Hin.
      rewrite E, H in Hin. destruct (Hin (or_introl eq_refl)). }
    destruct (checkSuspiciousPatterns_spec n (checkForbiddenKeywords cfg n freshResult))
      as (Pv & Pe).
    destruct (checkForbiddenKeywords_spec n freshResult) as (Kv & Ke).
    cbv zeta in Pv, Pe, Kv, Ke.
    rewrite Pe in H2. apply app_eq_nil in H2. destruct H2 as (H1 & Hp).
    apply map_eq_nil in Hp. apply forallb_of_filter_nil in Hp.
    rewrite Ke, fresh_errors, app_nil_l in H1.
    apply app_eq_nil in H1. destruct H1 as (Hk & Hop).
    apply map_eq_nil in Hk. apply forallb_of_filter_nil in Hk.
    rewrite Pv. apply andb_true_iff. split; [|exact Hp].
    rewrite Kv, fresh_valid, andb_true_l.
    apply andb_true_iff. split; [exact Hk|].
    destruct (JS.splitWs (JS.toUpperCase n)) as [| [| c w] rest]; try reflexivity.
    destruct (negb (JS.arrayIncludes (c :: w) (allowedKeywords cfg))); [discriminate|reflexivity].
Qed.

(** X2.  A forbidden keyword is looked for as a substring of the upper-cased
    normalized query, so it is found inside identifiers too: a query (of
    code units below 256) that passed the basic input checks and holds the
    letters of a forbidden keyword anywhere, in any case, is rejected, and
    the error names the keyword. *)
Theorem validate_rejects_forbidden_keyword_anywhere (query keyword : jstr) :
  JS.latin1 query = true ->
  isValid (validateBasicInput cfg query freshResult) = true ->
  In keyword forbiddenKeywords ->
  JS.includes keyword (JS.toUpperCase (normalizeQuery query)) = true ->
  isValid (validate cfg query) = false
  /\ In (JS.lit "Forbidden keyword detected: " ++ keyword) (errors (validate cfg query)).
Proof.
  intros _ B Hk Hin.
  rewrite (validate_after_basic query B). cbv zeta. cbn [errors isValid].
  set (n := normalizeQuery query) in *.
  destruct (checkForbiddenKeywords_spec n freshResult) as (Kv & Ke).
  cbv zeta in Kv, Ke.
  assert (K : isValid (checkForbiddenKeywords cfg n freshResult) = false
              /\ In (JS.lit "Forbidden keyword detected: " ++ keyword)
                   (errors (checkForbiddenKeywords cfg n freshResult))).
  { split.
    - rewrite Kv, fresh_valid, andb_true_l.
      apply andb_false_iff. left.
      match goal with |- ?X = false => destruct X eqn:F; [|reflexivity] end.
      rewrite forallb_forall in F. specialize (F keyword Hk).
      rewrite Hin, orb_true_r in F. discriminate.
    - rewrite Ke, fresh_errors, app_nil_l.
      apply in_or_app. left.
      apply (in_map (fun k => JS.lit "Forbidden keyword detected: " ++ k)).
      apply filter_In. split; [exact Hk|]. now rewrite Hin, orb_true_r. }
  destruct K as (K1 & K2).
  destruct (patterns_keep_rejection n suspiciousPatterns _ _ K1 K2) as (P1 & P2).
  destruct (performAdvancedValidation_keeps n
              (checkSuspiciousPatterns n (checkForbiddenKeywords cfg n freshResult))) as (A1 & A2).
  split; [rewrite A1; exact P1 | apply A2; exact P2].
Qed.

(** X3.  What every admitted query (of code units below 256) satisfies, in
    its normalized form: no suspicious pattern matches it, no forbidden
    keyword occurs in its upper-case form, and its first word, when there
    is one, is one of the allowed keywords. *)
Theorem validate_admitted_query_is_clean (query : jstr) :
  JS.latin1 query = true ->
  isValid (validate cfg query) = true ->
  (forall pattern, In pattern suspiciousPatterns ->
     Regex.test (regex pattern) (normalizeQuery query) = false)
  /\ (forall keyword, In keyword forbiddenKeywords ->
        JS.includes keyword (JS.toUpperCase (normalizeQuery query)) = false)
  /\ (forall firstWord rest,
        JS.splitWs (JS.toUpperCase (normalizeQuery query)) = firstWord :: rest ->
        firstWord <> [] ->
        JS.arrayIncludes firstWord (allowedKeywords cfg) = true).
Proof.
  intros _ H.
  destruct (validate_admitted_inv query H) as (_ & K & P).
  set (n := normalizeQuery query) in *.
  split; [|split].
  - intros pattern Hp.
    destruct (checkSuspiciousPatterns_spec n (checkForbiddenKeywords cfg n freshResult))
      as (Pv & _).
    cbv zeta in Pv. rewrite Pv, K, andb_true_l in P.
    rewrite forallb_forall in P. specialize (P pattern Hp).
    now apply negb_true_iff in P.
  - intros keyword Hk. exact (keywords_clear n keyword K Hk).
  - intros firstWord rest Ew Hne.
    destruct (checkForbiddenKeywords_spec n freshResult) as (Kv & _).
    cbv zeta in Kv. rewrite Kv, Ew, fresh_valid, andb_true_l in K.
    apply andb_true_iff in K. destruct K as (_ & K).
    destruct firstWord as [| c w]; [congruence|].
    now apply negb_true_iff, negb_false_iff in K.
Qed.

(** X4.  [sanitizedQuery] is missing exactly when the basic input check
    fails (the empty string, a string longer than [maxQueryLength], white
    space only); the result then carries exactly one error.  A query that
    a later check rejects still carries its sanitized form. *)
Theorem validate_sanitizedQuery_missing (query : jstr) :
  (sanitizedQuery (validate cfg query) = None
   <-> query = []
       \/ (Z.of_nat (List.length query) > maxQueryLength cfg)%Z
       \/ JS.trim query = [])
  /\ (sanitizedQuery (validate cfg query) = None ->
      isValid (validate cfg query) = false
      /\ List.length (errors (validate cfg query)) = 1%nat)
  /\ (sanitizedQuery (validate cfg query) <> None ->
      sanitizedQuery (validate cfg query) = Some (normalizeQuery query)).
Proof.
  destruct (isValid (validateBasicInput cfg query freshResult)) eqn:B.
  - rewrite (validate_after_basic query B). cbv zeta. cbn [sanitizedQuery].
    destruct (validateBasicInput_accepts cfg query B) as (_ & H1 & H2 & H3).
    split; [|split]; try discriminate; [|reflexivity].
    split; [discriminate|]. intros [E | [E | E]]; [congruence | lia | congruence].
  - destruct (validate_basic_rejects query B) as (E & msg & Em).
    rewrite E, Em. unfold reject. cbn [isValid errors sanitizedQuery freshResult app List.length].
    split; [|split]; [| auto | congruence].
    split; [|reflexivity]. intros _.
    destruct query as [| c q]; [now left|]. right.
    destruct (Z.of_nat (List.length (c :: q)) >? maxQueryLength cfg)%Z eqn:L.
    + left. apply Z.gtb_lt in L. lia.
    + right. destruct (JS.trim (c :: q)) eqn:T; [reflexivity|].
      rewrite (validateBasicInput_accepts_when cfg (c :: q)) in B; try discriminate.
      * rewrite Z.gtb_ltb in L. apply Z.ltb_ge in L. lia.
      * congruence.
Qed.

End ValidatorCoverage.

Lemma validate_valid_iff_no_errors_witness :
  JS.latin1 Scenario.select1 = true
  /\ QueryValidator.errors (QueryValidator.validate Config.securityConfig Scenario.select1) = [].
Proof.
  split; [reflexivity|].
  apply (proj1 (validate_valid_iff_no_errors Config.securityConfig Scenario.select1 eq_refl)).
  vm_compute. reflexivity.
Defined.

(** X2, at a query that reads a column named [updated_at]. *)
Lemma validate_rejects_forbidden_keyword_witness :
  JS.latin1 Scenario.updatedAtColumn = true
  /\ In (JS.lit "UPDATE") QueryValidator.forbiddenKeywords
  /\ QueryValidator.isValid
       (QueryValidator.validate Config.securityConfig Scenario.updatedAtColumn) = false
  /\ In (JS.lit "Forbidden keyword detected: UPDATE")
       (QueryValidator.errors
          (QueryValidator.validate Config.securityConfig Scenario.updatedAtColumn)).
Proof.
  split; [reflexivity|]. split; [apply In_UPDATE|].
  apply (validate_rejects_forbidden_keyword_anywhere Config.securityConfig
           Scenario.updatedAtColumn (JS.lit "UPDATE") eq_refl).
  - vm_compute. reflexivity.
  - apply In_UPDATE.
  - vm_compute. reflexivity.
Defined.

Lemma validate_admitted_query_is_clean_witness :
  JS.latin1 Scenario.untidySelect = true
  /\ QueryValidator.isValid
       (QueryValidator.validate Config.securityConfig Scenario.untidySelect) = true
  /\ (forall keyword, In keyword QueryValidator.forbiddenKeywords ->
        JS.includes keyword
          (JS.toUpperCase (QueryValidator.normalizeQuery Scenario.untidySelect)) = false).
Proof.
  assert (Hv : QueryValidator.isValid
                 (QueryValidator.validate Config.securityConfig Scenario.untidySelect) = true)
    by (vm_compute; reflexivity).
  split; [reflexivity|]. split; [exact Hv|].
  exact (proj1 (proj2 (validate_admitted_query_is_clean Config.securityConfig
                         Scenario.untidySelect eq_refl Hv))).
Defined.

(* ================================================================== *)
(** * Further properties of the query executor *)
(* ================================================================== *)

Section ExecutorCoverage.

Import Config QueryValidator QueryExecutor.

Variable cfg : SecurityConfig.

Lemma get_set_same {V : Type} (k : jstr) (v : V) (m : JsMap.t V) :
  JsMap.get k (JsMap.set k v m) = Some v.
Proof.
  induction m as [| [k' v'] rest IH]; cbn.
  - now rewrite (proj2 (eqb_eq k k) eq_refl).
  - destruct (JS.eqb k k') eqn:E; cbn; rewrite E; [reflexivity | exact IH].
Qed.

Lemma get_filter {V : Type} (f : jstr * V -> bool) (k : jstr) (v : V) (m : JsMap.t V) :
  JsMap.get k m = Some v ->
  (forall k', f (k', v) = true) ->
  JsMap.get k (filter f m) = Some v.
Proof.
  intros H Hf. induction m as [| [k' v'] rest IH]; [discriminate|].
  cbn in H. destruct (JS.eqb k k') eqn:E.
  - injection H as ->. cbn. rewrite Hf. cbn. now rewrite E.
  - cbn. destruct (f (k', v')); cbn; [rewrite E|]; auto.
Qed.

Lemma get_delete_same {V : Type} (k : jstr) (m : JsMap.t V) :
  JsMap.get k (JsMap.delete k m) = None.
Proof.
  unfold JsMap.delete. induction m as [| [k' v'] rest IH]; [reflexivity|].
  cbn. destruct (JS.eqb k k') eqn:E; cbn; [|rewrite E]; exact IH.
Qed.

(** What the helpers of [executeQuery] leave untouched. *)
Lemma getCachedResult_frame ex k :
  auditLogs (fst (getCachedResult ex k)) = auditLogs ex
  /\ now (fst (getCachedResult ex k)) = now ex.
Proof.
  unfold getCachedResult.
  destruct (JsMap.get k (queryCache ex)) as [entry|]; [|auto].
  destruct (now ex - timestamp entry >? ttl entry)%Z; auto.
Qed.

Lemma cacheResult_frame ex k r :
  auditLogs (cacheResult ex k r) = auditLogs ex
  /\ now (cacheResult ex k r) = now ex
  /\ databaseCalls (cacheResult ex k r) = databaseCalls ex.
Proof.
  unfold cacheResult.
  destruct (metadata r); [auto|].
  destruct (rowCount r <=? 1000)%Z; [|auto].
  match goal with |- context [if ?b then _ else _] => destruct b end; cbn; auto.
Qed.

(** A result that [cacheResult] accepts is found under its key. *)
Lemma cacheResult_stores ex k r :
  metadata r = None ->
  (rowCount r <= 1000)%Z ->
  JsMap.get k (queryCache (cacheResult ex k r))
  = Some {| key := k; result := r; timestamp := now ex; ttl := cacheTTL |}.
Proof.
  intros Hm Hr. unfold cacheResult. rewrite Hm.
  replace (rowCount r <=? 1000)%Z with true by (symmetry; apply Z.leb_le; exact Hr).
  match goal with |- context [if ?b then _ else _] => destruct b end.
  - unfold cleanCache, setCache. cbn [queryCache now].
    apply get_filter; [apply get_set_same|].
    intros k'. cbn [snd timestamp ttl]. rewrite Z.sub_diag. reflexivity.
  - cbn [setCache queryCache]. apply get_set_same.
Qed.

Lemma cacheResult_skips ex k r :
  metadata r <> None \/ (rowCount r > 1000)%Z ->
  cacheResult ex k r = ex.
Proof.
  intros H. unfold cacheResult.
  destruct (metadata r); [reflexivity|].
  destruct H as [H | H]; [congruence|].
  replace (rowCount r <=? 1000)%Z with false by (symmetry; apply Z.leb_gt; lia).
  reflexivity.
Qed.

Lemma getCachedResult_hit ex k entry :
  JsMap.get k (queryCache ex) = Some entry ->
  (now ex - timestamp entry <= ttl entry)%Z ->
  getCachedResult ex k
  = (ex, Some {| rows := rows (result entry); fields := fields (result entry);
                 rowCount := rowCount (result entry);
                 executionTime := executionTime (result entry);
                 truncated := truncated (result entry);
                 totalRows := totalRows (result entry);
                 metadata := metadata (result entry);
                 cached := Some true;
                 cacheAge := Some (now ex - timestamp entry)%Z;
                 analysis := analysis (result entry);
                 isDryRun := isDryRun (result entry) |}).
Proof.
  intros Hg Ht. unfold getCachedResult. rewrite Hg.
  replace (now ex - timestamp entry >? ttl entry)%Z with false; [reflexivity|].
  symmetry. rewrite Z.gtb_ltb. apply Z.ltb_ge. exact Ht.
Qed.

Lemma getCachedResult_expired ex k entry :
  JsMap.get k (queryCache ex) = Some entry ->
  (now ex - timestamp entry > ttl entry)%Z ->
  snd (getCachedResult ex k) = None
  /\ JsMap.get k (queryCache (fst (getCachedResult ex k))) = None.
Proof.
  intros Hg Ht. unfold getCachedResult. rewrite Hg.
  replace (now ex - timestamp entry >? ttl entry)%Z with true
    by (symmetry; rewrite Z.gtb_ltb; apply Z.ltb_lt; lia).
  cbn. split; [reflexivity | apply get_delete_same].
Qed.

Lemma logAudit_frame ex q t n ok e :
  now (logAudit ex q t n ok e) = now ex.
Proof. reflexivity. Qed.

(** A call that reaches the database hands the sanitized query to
    [executeWithTimeout]. *)
Lemma executeQueryTry_sends_sanitized ex query parameters options race :
  reachesDatabase cfg ex query parameters options = true ->
  executeQueryTry cfg ex query parameters options race
  = let ex1 := fst (getCachedResult ex (generateCacheKey query parameters)) in
    match executeWithTimeout ex1 (normalizeQuery query) parameters
            (effectiveTimeout cfg options) (effectiveMaxRows cfg options) race with
    | (ex2, inr r) =>
        let ex3 := if shouldCacheQuery query
                   then cacheResult ex2 (generateCacheKey query parameters) r else ex2 in
        let ex4 := if auditEnabled options
                   then logAudit ex3 query (executionTime r) (rowCount r) true None
                   else ex3 in
        (ex4, inr r)
    | (ex2, inl message) => (ex2, inl message)
    end.
Proof.
  intros H; apply (reachesDatabase_inv cfg) in H; destruct H as (Hv & Hd & Hc).
  unfold executeQueryTry.
  rewrite (validate_sanitizedQuery cfg query (validate_admitted_passes_basic_input cfg query Hv)).
  rewrite Hv; cbn [negb].
  destruct (getCachedResult ex (generateCacheKey query parameters)) as [ex1 c] eqn:E.
  cbn [snd] in Hc; subst c; rewrite Hd; cbn [fst].
  reflexivity.
Qed.


(** Every call of [executeQuery] at a glance: the state [ex0] it reaches
    before it writes the audit log, with at most one more database call and
    the audit log untouched, and then either a failure, wrapped and audited
    as such, or a result, audited when it came from the database. *)
Lemma executeQuery_shape ex query parameters options race :
  exists ex0 more,
    auditLogs ex0 = auditLogs ex
    /\ databaseCalls ex0 = databaseCalls ex ++ more
    /\ (List.length more <= 1)%nat
    /\ ((exists m,
           executeQuery cfg ex query parameters options race
           = ((if auditEnabled options
               then logAudit ex0 query (now ex0 - now ex) 0 false (Some m) else ex0),
              inl (JS.lit "Query execution failed: " ++ m)))
        \/ (exists r,
              more = []
              /\ executeQuery cfg ex query parameters options race = (ex0, inr r))
        \/ (exists r,
              executeQuery cfg ex query parameters options race
              = ((if auditEnabled options
                  then logAudit ex0 query (executionTime r) (rowCount r) true None else ex0),
                 inr r))).
Proof.
  unfold executeQuery, executeQueryTry.
  destruct (isValid (validate cfg query)); cbn [negb].
  2:{ exists ex, []. rewrite app_nil_r.
      split; [reflexivity|]. split; [reflexivity|]. split; [cbn; lia|]. left. eauto. }
  destruct (getCachedResult ex (generateCacheKey query parameters)) as [ex1 c] eqn:E.
  pose proof (getCachedResult_frame ex (generateCacheKey query parameters)) as (F1 & F2).
  pose proof (getCachedResult_keeps_calls ex (generateCacheKey query parameters)) as F3.
  rewrite E in F1, F2, F3. cbn [fst] in F1, F2, F3.
  destruct (isTrue (dryRun options)).
  { exists ex1, []. rewrite app_nil_r.
    split; [exact F1|]. split; [exact F3|]. split; [cbn; lia|].
    right. left. destruct c; eauto. }
  destruct c as [hit|].
  { exists ex1, []. rewrite app_nil_r.
    split; [exact F1|]. split; [exact F3|]. split; [cbn; lia|].
    right. left. eauto. }
  set (sql := match sanitizedQuery (validate cfg query) with Some s => s | None => query end).
  unfold executeWithTimeout.
  destruct race as [elapsed reply | elapsed].
  - destruct (executeQueryInternal reply (effectiveMaxRows cfg options)) as [m | r0].
    + exists (advance (recordCall ex1 sql parameters) elapsed), [(sql, parameters)].
      cbn [advance recordCall auditLogs databaseCalls now]. rewrite F3.
      split; [exact F1|]. split; [reflexivity|]. split; [cbn; lia|].
      left. exists m. reflexivity.
    + set (ex2 := advance (recordCall ex1 sql parameters) elapsed).
      set (r := setExecutionTime r0 (now ex2 - now ex1)).
      exists (if shouldCacheQuery query
              then cacheResult ex2 (generateCacheKey query parameters) r else ex2),
             [(sql, parameters)].
      destruct (cacheResult_frame ex2 (generateCacheKey query parameters) r) as (C1 & _ & C3).
      split; [destruct (shouldCacheQuery query); [rewrite C1|]; exact F1|].
      split; [destruct (shouldCacheQuery query); [rewrite C3|]; cbn; now rewrite F3|].
      split; [cbn; lia|].
      right. right. exists r. reflexivity.
  - exists (advance (recordCall ex1 sql parameters) elapsed), [(sql, parameters)].
    cbn [advance recordCall auditLogs databaseCalls now]. rewrite F3.
    split; [exact F1|]. split; [reflexivity|]. split; [cbn; lia|].
    left. eexists. reflexivity.
Qed.

Lemma logAudit_bound ex q t n ok e :
  (List.length (auditLogs ex) <= 1000)%nat ->
  (List.length (auditLogs (logAudit ex q t n ok e)) <= 1000)%nat.
Proof.
  intros H. unfold logAudit. cbn [auditLogs].
  match goal with |- context [if ?b then _ else _] => destruct b eqn:E end.
  - rewrite length_skipn. rewrite length_app in *. cbn in *. lia.
  - apply Nat.ltb_ge in E. exact E.
Qed.

(** [logAudit] appends: the entry it writes is the last of the log. *)
Lemma logAudit_last ex q t n ok e :
  exists older,
    auditLogs (logAudit ex q t n ok e)
    = older ++ [{| auditTimestamp := now ex; auditQuery := JS.substring0 1000 q;
                   auditExecutionTime := t; auditRowCount := n; success := ok;
                   errorMessage := e; userAgent := JS.lit "mcp-client";
                   ipAddress := JS.lit "localhost" |}].
Proof.
  unfold logAudit. cbn [auditLogs].
  match goal with |- context [if ?b then _ else _] => destruct b eqn:E end; [|eauto].
  set (entry := {| auditTimestamp := now ex |}).
  rewrite length_app. cbn [List.length].
  replace (List.length (auditLogs ex) + 1 - 1000)%nat
    with (List.length (auditLogs ex) - 999)%nat by lia.
  rewrite skipn_app.
  replace (List.length (auditLogs ex) - 999 - List.length (auditLogs ex))%nat with 0%nat by lia.
  cbn [skipn]. eauto.
Qed.


(** A call that reaches the database and gets rows back: the state it
    leaves and the result it returns. *)
Lemma executeQuery_rows ex query parameters options elapsed results :
  reachesDatabase cfg ex query parameters options = true ->
  let cacheKey := generateCacheKey query parameters in
  let ex1 := fst (getCachedResult ex cacheKey) in
  let ex2 := advance (recordCall ex1 (normalizeQuery query) parameters) elapsed in
  let r := {| rows := slice0 (effectiveMaxRows cfg options) results;
              fields := extractFields results;
              rowCount := Z.of_nat (List.length results);
              executionTime := now ex2 - now ex1;
              truncated := Some (JsNumber.belowZ (effectiveMaxRows cfg options)
                                   (Z.of_nat (List.length results)));
              totalRows := Some (Z.of_nat (List.length results));
              metadata := None; cached := None; cacheAge := None;
              analysis := None; isDryRun := None |} in
  let ex3 := if shouldCacheQuery query then cacheResult ex2 cacheKey r else ex2 in
  executeQuery cfg ex query parameters options (QuerySettles elapsed (RowSet results))
  = ((if auditEnabled options
      then logAudit ex3 query (executionTime r) (rowCount r) true None else ex3),
     inr r).
Proof.
  intros H. cbv zeta. unfold executeQuery.
  rewrite (executeQueryTry_sends_sanitized _ _ _ _ _ H). cbv zeta.
  unfold executeWithTimeout, executeQueryInternal, setExecutionTime.
  cbn [rows fields rowCount truncated totalRows metadata cached cacheAge analysis isDryRun].
  reflexivity.
Qed.

(** X5.  What the driver receives from a call that reaches it: one call,
    with the sanitized text of the query (trimmed, white space collapsed,
    comments removed) and the parameters as they were given. *)
Theorem executeQuery_sends_sanitized_query
    (ex : Executor) (query : jstr) (parameters : list JsValue.t)
    (options : QueryOptions) (race : RaceOutcome) :
  reachesDatabase cfg ex query parameters options = true ->
  databaseCalls (fst (executeQuery cfg ex query parameters options race))
  = databaseCalls ex ++ [(normalizeQuery query, parameters)].
Proof.
  intros H. unfold executeQuery.
  rewrite (executeQueryTry_sends_sanitized _ _ _ _ _ H). cbv zeta.
  pose proof (getCachedResult_keeps_calls ex (generateCacheKey query parameters)) as K.
  set (ex1 := fst (getCachedResult ex (generateCacheKey query parameters))) in *.
  unfold executeWithTimeout.
  destruct race as [elapsed reply | elapsed].
  - destruct (executeQueryInternal reply (effectiveMaxRows cfg options)) as [m | r].
    + destruct (auditEnabled options); cbn; now rewrite K.
    + set (ex2 := advance (recordCall ex1 (normalizeQuery query) parameters) elapsed).
      set (r' := setExecutionTime r (now ex2 - now ex1)).
      destruct (cacheResult_frame ex2 (generateCacheKey query parameters) r') as (_ & _ & C).
      destruct (shouldCacheQuery query), (auditEnabled options); cbn [fst];
        rewrite ?(proj2 (logAudit_keeps_cache_and_calls _ _ _ _ _ _)), ?C;
        cbn; now rewrite K.
  - destruct (auditEnabled options); cbn; now rewrite K.
Qed.

(** X6.  A result that was cached is served again.  After a call that
    reached the database for a cacheable query and got at most 1000 rows, a
    call with the same query and parameters made [dt] milliseconds later,
    not as a dry run, is answered from the cache while [dt] is within the
    five minutes of [cacheTTL]: same rows, fields and counts, [cached] set,
    [cacheAge = dt], no call to the database and no audit entry.  Once
    [dt] exceeds [cacheTTL] the entry is dropped and the call reaches the
    database again. *)
Theorem executeQuery_serves_repeated_query_from_cache
    (ex : Executor) (query : jstr) (parameters : list JsValue.t)
    (options again : QueryOptions) (elapsed dt : Z) (results : list Row)
    (race : RaceOutcome) :
  reachesDatabase cfg ex query parameters options = true ->
  shouldCacheQuery query = true ->
  (List.length results <= 1000)%nat ->
  isTrue (dryRun again) = false ->
  let first := executeQuery cfg ex query parameters options
                 (QuerySettles elapsed (RowSet results)) in
  let second := executeQuery cfg (advance (fst first) dt) query parameters again race in
  ((dt <= cacheTTL)%Z ->
   exists r1 r2,
     snd first = inr r1 /\ snd second = inr r2
     /\ rows r2 = rows r1 /\ fields r2 = fields r1 /\ rowCount r2 = rowCount r1
     /\ truncated r2 = truncated r1 /\ totalRows r2 = totalRows r1
     /\ cached r2 = Some true /\ cacheAge r2 = Some dt
     /\ databaseCalls (fst second) = databaseCalls (fst first)
     /\ auditLogs (fst second) = auditLogs (fst first))
  /\ ((dt > cacheTTL)%Z ->
      reachesDatabase cfg (advance (fst first) dt) query parameters again = true).
Proof.
  intros H Hc Hlen Hd first second.
  pose proof (executeQuery_rows ex query parameters options elapsed results H) as E.
  cbv zeta in E. rewrite Hc in E.
  destruct (reachesDatabase_inv cfg _ _ _ _ H) as (Hv & _ & _).
  set (cacheKey := generateCacheKey query parameters) in *.
  set (ex1 := fst (getCachedResult ex cacheKey)) in *.
  set (ex2 := advance (recordCall ex1 (normalizeQuery query) parameters) elapsed) in *.
  set (r := {| rows := slice0 (effectiveMaxRows cfg options) results |}) in *.
  set (ex3 := cacheResult ex2 cacheKey r) in *.
  assert (Hstored : JsMap.get cacheKey (queryCache ex3)
                    = Some {| key := cacheKey; result := r; timestamp := now ex2;
                              ttl := cacheTTL |}).
  { apply cacheResult_stores; [reflexivity|]. cbn. lia. }
  destruct (cacheResult_frame ex2 cacheKey r) as (_ & Hnow3 & _). fold ex3 in Hnow3.
  assert (Hfirst : exists ex4,
             first = (ex4, inr r) /\ queryCache ex4 = queryCache ex3 /\ now ex4 = now ex2).
  { subst first. rewrite E. destruct (auditEnabled options); eexists; split;
      try reflexivity; split; try exact Hnow3; reflexivity. }
  destruct Hfirst as (ex4 & Ef & Hq4 & Hn4).
  subst second. rewrite Ef. cbn [fst snd].
  set (ex5 := advance ex4 dt).
  assert (Hg5 : JsMap.get cacheKey (queryCache ex5)
                = Some {| key := cacheKey; result := r; timestamp := now ex2;
                          ttl := cacheTTL |}).
  { subst ex5. cbn [advance queryCache]. now rewrite Hq4. }
  assert (Hage : (now ex5 - now ex2 = dt)%Z).
  { subst ex5. cbn [advance now]. lia. }
  split.
  - intros Hdt.
    exists r. eexists. split; [reflexivity|].
    unfold executeQuery, executeQueryTry. rewrite Hv. cbn [negb].
    fold cacheKey.
    rewrite (getCachedResult_hit _ _ _ Hg5)
      by (cbn [timestamp ttl]; rewrite Hage; exact Hdt).
    rewrite Hd. cbn [fst snd result timestamp].
    split; [reflexivity|]. cbn [rows fields rowCount truncated totalRows cached cacheAge].
    rewrite Hage. repeat split; reflexivity.
  - intros Hdt. unfold reachesDatabase. rewrite Hv, Hd. cbn [negb andb].
    fold cacheKey.
    destruct (getCachedResult_expired _ _ _ Hg5) as (Hnone & _).
    { cbn [timestamp ttl]. rewrite Hage. exact Hdt. }
    now rewrite Hnone.
Qed.

(** X7.  A dry run of an admitted query returns the analysis of the
    query: no rows, a row count of 0, marked [dryRun] and not [cached].
    The database is not called and, whatever [enableAudit] says, nothing is
    written to the audit log.  The cache is only consulted: a live entry
    for the query does not replace the analysis. *)
Theorem executeQuery_dry_run_touches_nothing
    (ex : Executor) (query : jstr) (parameters : list JsValue.t)
    (options : QueryOptions) (race : RaceOutcome) :
  isValid (validate cfg query) = true ->
  dryRun options = Some true ->
  let out := executeQuery cfg ex query parameters options race in
  (exists r,
     snd out = inr r
     /\ rows r = [] /\ fields r = [] /\ rowCount r = 0%Z
     /\ isDryRun r = Some true /\ cached r = Some false
     /\ analysis r = Some (getQueryAnalysis query))
  /\ databaseCalls (fst out) = databaseCalls ex
  /\ auditLogs (fst out) = auditLogs ex.
Proof.
  intros Hv Hd out. subst out. unfold executeQuery, executeQueryTry.
  rewrite Hv, Hd. cbn [negb isTrue].
  pose proof (getCachedResult_frame ex (generateCacheKey query parameters)) as (F1 & F2).
  pose proof (getCachedResult_keeps_calls ex (generateCacheKey query parameters)) as F3.
  destruct (getCachedResult ex (generateCacheKey query parameters)) as [ex1 c].
  cbn [fst] in F1, F2, F3.
  destruct c; cbn [fst snd]; (split; [eexists; split; [reflexivity|]; cbn; repeat split|]);
    split; assumption.
Qed.

(** X8.  Every failure of [executeQuery] is reported the same way: the
    error carries the text [Query execution failed: ] in front of the
    message of what went wrong and, unless [enableAudit] is [false], the
    newest entry of the audit log records the attempt with [success] off,
    no rows, that message, and the query cut to its first 1000 units.
    With [enableAudit] at [false] the audit log is as it was. *)
Theorem executeQuery_failure_is_wrapped_and_audited
    (ex : Executor) (query : jstr) (parameters : list JsValue.t)
    (options : QueryOptions) (race : RaceOutcome) (e : jstr) :
  snd (executeQuery cfg ex query parameters options race) = inl e ->
  exists inner,
    e = JS.lit "Query execution failed: " ++ inner
    /\ (enableAudit options <> Some false ->
        exists older entry,
          auditLogs (fst (executeQuery cfg ex query parameters options race))
          = older ++ [entry]
          /\ success entry = false
          /\ auditRowCount entry = 0%Z
          /\ errorMessage entry = Some inner
          /\ auditQuery entry = JS.substring0 1000 query)
    /\ (enableAudit options = Some false ->
        auditLogs (fst (executeQuery cfg ex query parameters options race))
        = auditLogs ex).
Proof.
  intros H.
  destruct (executeQuery_shape ex query parameters options race)
    as (ex0 & more & A & _ & _ & [(m & E) | [(r & _ & E) | (r & E)]]);
    rewrite E in H |- *; cbn [fst snd] in H |- *; try discriminate.
  injection H as <-. exists m. split; [reflexivity|]. split.
  - intros Ha.
    assert (Hon : auditEnabled options = true).
    { unfold auditEnabled. destruct (enableAudit options) as [[|]|]; congruence. }
    rewrite Hon.
    destruct (logAudit_last ex0 query (now ex0 - now ex) 0 false (Some m)) as (older & L).
    exists older. eexists. split; [exact L|]. cbn. repeat split.
  - intros Ha. unfold auditEnabled. rewrite Ha. exact A.
Qed.

(** X9.  The audit log never holds more than 1000 entries: a call of
    [executeQuery] on an executor within that bound leaves it within that
    bound, and adds at most one entry. *)
Theorem executeQuery_keeps_audit_log_bounded
    (ex : Executor) (query : jstr) (parameters : list JsValue.t)
    (options : QueryOptions) (race : RaceOutcome) :
  (List.length (auditLogs ex) <= 1000)%nat ->
  let after := auditLogs (fst (executeQuery cfg ex query parameters options race)) in
  (List.length after <= 1000)%nat
  /\ (List.length after <= S (List.length (auditLogs ex)))%nat.
Proof.
  intros Hb after. subst after.
  assert (G : forall ex0 t n ok m,
             auditLogs ex0 = auditLogs ex ->
             let ex' := if auditEnabled options then logAudit ex0 query t n ok m else ex0 in
             (List.length (auditLogs ex') <= 1000)%nat
             /\ (List.length (auditLogs ex') <= S (List.length (auditLogs ex)))%nat).
  { intros ex0 t n ok m A ex'. subst ex'. destruct (auditEnabled options).
    - split; [apply logAudit_bound; now rewrite A|].
      unfold logAudit. cbn [auditLogs]. rewrite A.
      match goal with |- context [if ?b then _ else _] => destruct b end.
      + rewrite length_skipn, length_app. cbn. lia.
      + rewrite length_app. cbn. lia.
    - rewrite A. split; lia. }
  destruct (executeQuery_shape ex query parameters options race)
    as (ex0 & more & A & _ & _ & [(m & E) | [(r & _ & E) | (r & E)]]);
    rewrite E; cbn [fst].
  - apply G. exact A.
  - rewrite A. split; lia.
  - apply G. exact A.
Qed.

Lemma get_delete_inv {V : Type} (k k' : jstr) (m : JsMap.t V) (v : V) :
  JsMap.get k (JsMap.delete k' m) = Some v -> JsMap.get k m = Some v.
Proof.
  destruct (JS.eqb k k') eqn:E.
  - apply eqb_eq in E. subst k'. now rewrite get_delete_same.
  - unfold JsMap.delete. induction m as [| [k0 v0] rest IH]; [discriminate|].
    cbn. destruct (JS.eqb k' k0) eqn:E0; cbn.
    + apply eqb_eq in E0. subst k0. rewrite E. exact IH.
    + destruct (JS.eqb k k0); [auto | exact IH].
Qed.

Lemma trim_head (c : N) (t : jstr) :
  JS.isWhiteSpace c = false -> exists t', JS.trim (c :: t) = c :: t'.
Proof.
  intros H. unfold JS.trim. cbn [JS.trimStart]. rewrite H. cbn [JS.trimEnd].
  destruct (JS.trimEnd t); [rewrite H|]; eauto.
Qed.

Lemma shouldCacheQuery_EXPLAIN query :
  shouldCacheQuery (JS.lit "EXPLAIN " ++ query) = false.
Proof.
  unfold shouldCacheQuery, JS.toUpperCase. rewrite flat_map_app.
  change (flat_map JS.upperUnit (JS.lit "EXPLAIN "))
    with (69%N :: JS.lit "XPLAIN ").
  rewrite <- app_comm_cons.
  destruct (trim_head 69 (JS.lit "XPLAIN " ++ flat_map JS.upperUnit query) eq_refl)
    as (t' & ->).
  reflexivity.
Qed.

(** X10.  [explainQuery] leaves no trace in the executor: whatever the
    outcome, the audit log is as it was and the cache holds no entry that
    it did not hold before. *)
Theorem explainQuery_leaves_no_trace
    (ex : Executor) (query : jstr) (parameters : list JsValue.t) (race : RaceOutcome) :
  let after := fst (explainQuery cfg ex query parameters race) in
  auditLogs after = auditLogs ex
  /\ (forall k entry,
        JsMap.get k (queryCache after) = Some entry ->
        JsMap.get k (queryCache ex) = Some entry).
Proof.
  intros after. subst after. unfold explainQuery.
  set (q := JS.lit "EXPLAIN " ++ query).
  set (options := {| timeout := None; maxRows := None; enableAudit := Some false;
                     dryRun := None |}).
  assert (Hc : forall k entry,
             JsMap.get k (queryCache (fst (getCachedResult ex (generateCacheKey q parameters))))
             = Some entry ->
             JsMap.get k (queryCache ex) = Some entry).
  { intros k entry. unfold getCachedResult.
    destruct (JsMap.get (generateCacheKey q parameters) (queryCache ex)) as [e|]; [|auto].
    destruct (now ex - timestamp e >? ttl e)%Z; [|auto].
    cbn. apply get_delete_inv. }
  pose proof (getCachedResult_frame ex (generateCacheKey q parameters)) as (F1 & _).
  unfold executeQuery, executeQueryTry.
  destruct (isValid (validate cfg q)); cbn [negb]; [|cbn; auto].
  destruct (getCachedResult ex (generateCacheKey q parameters)) as [ex1 c].
  cbn [fst] in Hc, F1.
  change (isTrue (dryRun options)) with false.
  destruct c as [hit|]; [cbn; auto|].
  rewrite (shouldCacheQuery_EXPLAIN query : shouldCacheQuery q = false).
  change (auditEnabled options) with false. cbv iota.
  unfold executeWithTimeout.
  destruct race as [elapsed reply | elapsed].
  - destruct (executeQueryInternal reply (effectiveMaxRows cfg options));
      cbv zeta; cbn [fst auditLogs queryCache advance recordCall]; auto.
  - cbv zeta; cbn [fst auditLogs queryCache advance recordCall]; auto.
Qed.

(** X11.  Which limit [getAuditLogs] honours.  A positive whole [limit]
    gives the newest [limit] entries, in order, or all of them when there
    are fewer; no argument stands for 100.  A [limit] of 0 gives the whole
    log rather than an empty list, and a negative one drops the oldest
    [-limit] entries. *)
Theorem getAuditLogs_returns_newest (ex : Executor) (limit : Z) :
  let logs := auditLogs ex in
  ((0 < limit)%Z ->
   exists older,
     logs = older ++ getAuditLogs ex (Some (JsNumber.ofZ limit))
     /\ List.length (getAuditLogs ex (Some (JsNumber.ofZ limit)))
        = Nat.min (Z.to_nat limit) (List.length logs))
  /\ getAuditLogs ex None = getAuditLogs ex (Some (JsNumber.ofZ 100))
  /\ getAuditLogs ex (Some (JsNumber.ofZ 0)) = logs
  /\ ((limit < 0)%Z ->
      getAuditLogs ex (Some (JsNumber.ofZ limit)) = skipn (Z.to_nat (- limit)) logs).
Proof.
  intros logs. subst logs. unfold getAuditLogs, sliceFrom, JsNumber.ofZ.
  cbn [JsNumber.neg JsNumber.toIntegerOrInfinity]. rewrite !Z.quot_1_r.
  split; [|split; [reflexivity|split; [reflexivity|]]].
  - intros H. replace (- limit <? 0)%Z with true by (symmetry; apply Z.ltb_lt; lia).
    exists (firstn (Z.to_nat (Z.max 0 (Z.of_nat (List.length (auditLogs ex)) + - limit)))
              (auditLogs ex)).
    split; [symmetry; apply firstn_skipn|].
    rewrite length_skipn. lia.
  - intros H. replace (- limit <? 0)%Z with false by (symmetry; apply Z.ltb_ge; lia).
    reflexivity.
Qed.

(** X12.  What [executeQuery] does not cache.  A call that reaches the
    database stores nothing when the query is not a cacheable SELECT, when
    the driver answers with a packet instead of rows, when it answers with
    more than 1000 rows, or when the call fails: the cache is then as the
    lookup left it. *)
Theorem executeQuery_skips_cache
    (ex : Executor) (query : jstr) (parameters : list JsValue.t)
    (options : QueryOptions) (race : RaceOutcome) :
  reachesDatabase cfg ex query parameters options = true ->
  shouldCacheQuery query = false
  \/ (exists elapsed affected, race = QuerySettles elapsed (OkPacket affected))
  \/ (exists elapsed results,
        race = QuerySettles elapsed (RowSet results) /\ (1000 < List.length results)%nat)
  \/ (exists e, snd (executeQuery cfg ex query parameters options race) = inl e) ->
  queryCache (fst (executeQuery cfg ex query parameters options race))
  = queryCache (fst (getCachedResult ex (generateCacheKey query parameters))).
Proof.
  intros H Hcase. unfold executeQuery in *.
  rewrite (executeQueryTry_sends_sanitized _ _ _ _ _ H) in *. cbv zeta in *.
  set (key := generateCacheKey query parameters) in *.
  set (ex1 := fst (getCachedResult ex key)) in *.
  unfold executeWithTimeout in *.
  destruct race as [elapsed reply | elapsed].
  2:{ destruct (auditEnabled options); reflexivity. }
  destruct (executeQueryInternal reply (effectiveMaxRows cfg options)) as [m | r] eqn:Er.
  { destruct (auditEnabled options); reflexivity. }
  set (ex2 := advance (recordCall ex1 (normalizeQuery query) parameters) elapsed) in *.
  set (r' := setExecutionTime r (now ex2 - now ex1)) in *.
  assert (G : forall exa, queryCache exa = queryCache ex1 ->
                queryCache (fst ((if auditEnabled options
                                  then logAudit exa query (executionTime r') (rowCount r') true None
                                  else exa), @inr jstr _ r')) = queryCache ex1).
  { intros exa Ha. destruct (auditEnabled options); exact Ha. }
  destruct Hcase as [Hs | [(el & aff & Hr) | [(el & results & Hr & Hlen) | (e & He)]]].
  - rewrite Hs. apply G. reflexivity.
  - injection Hr as _ ->. cbn in Er. injection Er as <-.
    destruct (shouldCacheQuery query); apply G; [|reflexivity].
    rewrite cacheResult_skips; [reflexivity|]. left. cbn. discriminate.
  - injection Hr as _ ->. cbn in Er. injection Er as <-.
    destruct (shouldCacheQuery query); apply G; [|reflexivity].
    rewrite cacheResult_skips; [reflexivity|]. right. cbn. lia.
  - destruct (shouldCacheQuery query); discriminate He.
Qed.

End ExecutorCoverage.

Lemma executeQuery_sends_sanitized_query_witness :
  QueryExecutor.reachesDatabase Config.securityConfig QueryExecutor.emptyExecutor
    Scenario.untidySelect [] QueryExecutor.noOptions = true
  /\ QueryExecutor.databaseCalls
       (fst (QueryExecutor.executeQuery Config.securityConfig QueryExecutor.emptyExecutor
               Scenario.untidySelect [] QueryExecutor.noOptions
               (QueryExecutor.TimerFires 30000)))
     = [(JS.lit "SELECT id FROM t", [])].
Proof.
  assert (H : QueryExecutor.reachesDatabase Config.securityConfig QueryExecutor.emptyExecutor
                Scenario.untidySelect [] QueryExecutor.noOptions = true)
    by (vm_compute; reflexivity).
  split; [exact H|].
  rewrite (executeQuery_sends_sanitized_query Config.securityConfig
             QueryExecutor.emptyExecutor Scenario.untidySelect [] QueryExecutor.noOptions
             (QueryExecutor.TimerFires 30000) H).
  vm_compute. reflexivity.
Defined.

Lemma executeQuery_serves_repeated_query_witness :
  exists r2,
    snd (QueryExecutor.executeQuery Config.securityConfig
           (QueryExecutor.advance
              (fst (QueryExecutor.executeQuery Config.securityConfig
                      QueryExecutor.emptyExecutor Scenario.select1 [] QueryExecutor.noOptions
                      (QueryExecutor.QuerySettles 5
                         (QueryExecutor.RowSet [Scenario.idRow 1; Scenario.idRow 2]))))
              1000)
           Scenario.select1 [] Scenario.maxRows2 (QueryExecutor.TimerFires 30000))
    = inr r2
    /\ QueryExecutor.rows r2 = [Scenario.idRow 1; Scenario.idRow 2]
    /\ QueryExecutor.cached r2 = Some true
    /\ QueryExecutor.cacheAge r2 = Some 1000%Z.
Proof.
  destruct (executeQuery_serves_repeated_query_from_cache Config.securityConfig
              QueryExecutor.emptyExecutor Scenario.select1 [] QueryExecutor.noOptions
              Scenario.maxRows2 5 1000 [Scenario.idRow 1; Scenario.idRow 2]
              (QueryExecutor.TimerFires 30000))
    as ((r1 & r2 & H1 & H2 & Hrows & _ & _ & _ & _ & Hc & Ha & _) & _);
    try (vm_compute; reflexivity).
  - cbn. lia.
  - vm_compute. discriminate.
  - exists r2. split; [exact H2|]. split; [|split; [exact Hc | exact Ha]].
    rewrite Hrows. vm_compute in H1. injection H1 as <-. reflexivity.
Defined.

Lemma executeQuery_dry_run_witness :
  exists r,
    snd (QueryExecutor.executeQuery Config.securityConfig QueryExecutor.emptyExecutor
           Scenario.select1 []
           {| QueryExecutor.timeout := None; QueryExecutor.maxRows := None;
              QueryExecutor.enableAudit := Some true; QueryExecutor.dryRun := Some true |}
           (QueryExecutor.QuerySettles 5 (QueryExecutor.RowSet [Scenario.idRow 1])))
    = inr r
    /\ QueryExecutor.rows r = []
    /\ QueryExecutor.isDryRun r = Some true.
Proof.
  destruct (executeQuery_dry_run_touches_nothing Config.securityConfig
              QueryExecutor.emptyExecutor Scenario.select1 []
              {| QueryExecutor.timeout := None; QueryExecutor.maxRows := None;
                 QueryExecutor.enableAudit := Some true; QueryExecutor.dryRun := Some true |}
              (QueryExecutor.QuerySettles 5 (QueryExecutor.RowSet [Scenario.idRow 1])))
    as ((r & Hr & Hrows & _ & _ & Hd & _) & _);
    try (vm_compute; reflexivity).
  exists r. split; [exact Hr|]. split; [exact Hrows | exact Hd].
Defined.

Lemma executeQuery_failure_witness :
  exists older entry,
    QueryExecutor.auditLogs
      (fst (QueryExecutor.executeQuery Config.securityConfig QueryExecutor.emptyExecutor
              Scenario.select1 [] Scenario.timeout100 (QueryExecutor.TimerFires 100)))
    = older ++ [entry]
    /\ QueryExecutor.success entry = false
    /\ QueryExecutor.errorMessage entry = Some (JS.lit "Query timeout after 100ms").
Proof.
  destruct (executeQuery_failure_is_wrapped_and_audited Config.securityConfig
              QueryExecutor.emptyExecutor Scenario.select1 [] Scenario.timeout100
              (QueryExecutor.TimerFires 100)
              (JS.lit "Query execution failed: Query timeout after 100ms"))
    as (inner & He & Hon & _); [vm_compute; reflexivity|].
  destruct Hon as (older & entry & Hl & Hs & _ & Hm & _); [discriminate|].
  exists older, entry. split; [exact Hl|]. split; [exact Hs|].
  rewrite Hm. f_equal. apply (app_inv_head (JS.lit "Query execution failed: ")).
  symmetry. exact He.
Defined.

Lemma executeQuery_audit_log_bound_witness :
  (List.length
     (QueryExecutor.auditLogs
        (fst (QueryExecutor.executeQuery Config.securityConfig QueryExecutor.emptyExecutor
                Scenario.deleteUsers [] QueryExecutor.noOptions
                (QueryExecutor.TimerFires 100)))) <= 1)%nat.
Proof.
  apply (executeQuery_keeps_audit_log_bounded Config.securityConfig
           QueryExecutor.emptyExecutor Scenario.deleteUsers [] QueryExecutor.noOptions
           (QueryExecutor.TimerFires 100)).
  cbn. lia.
Defined.

Lemma executeQuery_skips_cache_witness :
  QueryExecutor.reachesDatabase Config.securityConfig QueryExecutor.emptyExecutor
    (JS.lit "SHOW TABLES") [] QueryExecutor.noOptions = true
  /\ QueryExecutor.queryCache
       (fst (QueryExecutor.executeQuery Config.securityConfig QueryExecutor.emptyExecutor
               (JS.lit "SHOW TABLES") [] QueryExecutor.noOptions
               (QueryExecutor.QuerySettles 5 (QueryExecutor.RowSet [Scenario.idRow 1]))))
     = [].
Proof.
  assert (H : QueryExecutor.reachesDatabase Config.securityConfig QueryExecutor.emptyExecutor
                (JS.lit "SHOW TABLES") [] QueryExecutor.noOptions = true)
    by (vm_compute; reflexivity).
  split; [exact H|].
  rewrite (executeQuery_skips_cache Config.securityConfig QueryExecutor.emptyExecutor
             (JS.lit "SHOW TABLES") [] QueryExecutor.noOptions
             (QueryExecutor.QuerySettles 5 (QueryExecutor.RowSet [Scenario.idRow 1])) H).
  - reflexivity.
  - left. vm_compute. reflexivity.
Defined.

(* ================================================================== *)
(** * Further properties of the schema cache *)
(* ================================================================== *)

Section SchemaCacheCoverage.

Import SchemaCache.

Lemma get_delete_other {V : Type} (k k' : jstr) (m : JsMap.t V) :
  JS.eqb k k' = false -> JsMap.get k (JsMap.delete k' m) = JsMap.get k m.
Proof.
  intros E. unfold JsMap.delete. induction m as [| [k0 v0] rest IH]; [reflexivity|].
  cbn. destruct (JS.eqb k' k0) eqn:E0; cbn.
  - apply eqb_eq in E0. subst k0. now rewrite E.
  - destruct (JS.eqb k k0); [reflexivity | exact IH].
Qed.

Lemma delete_length {V : Type} (k : jstr) (m : JsMap.t V) :
  (List.length (JsMap.delete k m) <= List.length m)%nat.
Proof. unfold JsMap.delete. apply filter_length_le. Qed.

Lemma delete_length_lt {V : Type} (k : jstr) (m : JsMap.t V) :
  In k (map fst m) -> (List.length (JsMap.delete k m) < List.length m)%nat.
Proof.
  unfold JsMap.delete. induction m as [| [k0 v0] rest IH]; [intros []|].
  cbn. intros [H | H].
  - subst k0. rewrite (proj2 (eqb_eq k k) eq_refl). cbn [negb List.length].
    apply Nat.lt_succ_r. apply filter_length_le.
  - specialize (IH H). destruct (JS.eqb k k0); cbn [negb List.length]; lia.
Qed.

Lemma deleteKeys_length (ks : list jstr) :
  forall m, (List.length (deleteKeys ks m) <= List.length m)%nat.
Proof.
  unfold deleteKeys. induction ks as [| k ks IH]; intros m; cbn; [lia|].
  specialize (IH (JsMap.delete k m)). pose proof (delete_length k m). lia.
Qed.

Lemma In_delete {V : Type} (k : jstr) (m : JsMap.t V) (x : jstr * V) :
  In x (JsMap.delete k m) <-> In x m /\ fst x <> k.
Proof.
  unfold JsMap.delete. rewrite filter_In. cbn beta.
  split; intros [H1 H2]; (split; [exact H1|]).
  - intros E. apply negb_true_iff, not_true_iff_false in H2. apply H2.
    apply eqb_eq. now symmetry.
  - apply negb_true_iff, not_true_iff_false. intros E. apply eqb_eq in E. apply H2. now symmetry.
Qed.

Lemma In_deleteKeys (ks : list jstr) :
  forall m x, In x (deleteKeys ks m) <-> In x m /\ ~ In (fst x) ks.
Proof.
  unfold deleteKeys. induction ks as [| k ks IH]; intros m x; cbn.
  - tauto.
  - rewrite IH, In_delete. split.
    + intros [[H1 H2] H3]. split; [exact H1|]. intros [E | E]; [congruence | tauto].
    + intros [H1 H2]. split; [split; [exact H1|]|]; intros E; apply H2; auto.
Qed.

Lemma get_deleteKeys_other (ks : list jstr) (k : jstr) :
  ~ In k ks -> forall m, JsMap.get k (deleteKeys ks m) = JsMap.get k m.
Proof.
  unfold deleteKeys. induction ks as [| k' ks IH]; intros Hn m; cbn; [reflexivity|].
  rewrite IH by (intros E; apply Hn; now right).
  apply get_delete_other. destruct (JS.eqb k k') eqn:E; [|reflexivity].
  apply eqb_eq in E. exfalso. apply Hn. now left.
Qed.

Lemma get_deleteKeys_in (ks : list jstr) (k : jstr) :
  In k ks -> forall m, JsMap.get k (deleteKeys ks m) = None.
Proof.
  intros Hin m. destruct (JsMap.get k (deleteKeys ks m)) as [v|] eqn:E; [|reflexivity].
  exfalso.
  assert (H : exists x, In x (deleteKeys ks m) /\ fst x = k).
  { clear Hin. revert E. generalize (deleteKeys ks m). intros l.
    induction l as [| [k0 v0] rest IH]; [discriminate|].
    cbn. destruct (JS.eqb k k0) eqn:E0.
    - apply eqb_eq in E0. subst k0. intros _. exists (k, v0). split; [now left | reflexivity].
    - intros H. destruct (IH H) as (x & Hx & Hk). exists x. split; [now right | exact Hk]. }
  destruct H as (x & Hx & Hk). apply In_deleteKeys in Hx. destruct Hx as [_ Hx].
  apply Hx. now rewrite Hk.
Qed.

Lemma get_In {V : Type} (k : jstr) (m : JsMap.t V) (v : V) :
  JsMap.get k m = Some v -> In (k, v) m.
Proof.
  induction m as [| [k0 v0] rest IH]; [discriminate|].
  cbn. destruct (JS.eqb k k0) eqn:E.
  - apply eqb_eq in E. subst k0. intros H. injection H as ->. now left.
  - intros H. right. now apply IH.
Qed.

Lemma In_get_NoDup {V : Type} (k : jstr) (m : JsMap.t V) (v : V) :
  NoDup (map fst m) -> In (k, v) m -> JsMap.get k m = Some v.
Proof.
  induction m as [| [k0 v0] rest IH]; [intros _ []|].
  cbn. intros Hnd Hin. inversion Hnd as [| ? ? Hnot Hnd']; subst.
  destruct Hin as [H | H].
  - injection H as -> ->. now rewrite (proj2 (eqb_eq k k) eq_refl).
  - destruct (JS.eqb k k0) eqn:E.
    + apply eqb_eq in E. subst k0. exfalso. apply Hnot.
      apply in_map_iff. exists (k, v). auto.
    + now apply IH.
Qed.

(** The entry that [set] stores, and what else it leaves alone. *)
Lemma set_stores c key d ttl_ :
  JsMap.get key (cache (set c key d ttl_))
  = Some {| data := d; timestamp := now c;
            ttl := match ttl_ with
                   | Some v => if (v =? 0)%Z then defaultTTL (options c) else v
                   | None => defaultTTL (options c)
                   end;
            hits := 0; size := estimateSize d |}
  /\ statHits (set c key d ttl_) = statHits c
  /\ statMisses (set c key d ttl_) = statMisses c
  /\ options (set c key d ttl_) = options c
  /\ now (set c key d ttl_) = now c.
Proof.
  unfold set. cbn [log setEntries cache statHits statMisses options now].
  split; [apply get_set_same|].
  destruct (shouldEvict c (estimateSize d)); [|auto].
  unfold evictEntries.
  destruct (entriesToEvict (estimateSize d) 0 (sortEntries (cache c))); cbn; auto.
Qed.

(** X13.  What [set] stores, [get] returns until the entry expires.  A
    [get] of the key made [dt] milliseconds after the [set] is a hit while
    [dt] is within the time to live of the entry (the [ttl] argument, or
    [defaultTTL] when it is missing or 0): it returns the data, counts one
    hit on the entry and one in the statistics.  Once [dt] exceeds the time
    to live it is a miss: nothing is returned, the entry is dropped and the
    statistics count one miss. *)
Theorem get_returns_what_set_stored
    (c : Cache) (key : jstr) (d : CacheData) (ttl_ : option Z) (dt : Z) :
  let entryTTL := match ttl_ with
                  | Some v => if (v =? 0)%Z then defaultTTL (options c) else v
                  | None => defaultTTL (options c)
                  end in
  let out := get (advance (set c key d ttl_) dt) key in
  ((dt <= entryTTL)%Z ->
   snd out = Some d
   /\ statHits (fst out) = (statHits c + 1)%Z
   /\ statMisses (fst out) = statMisses c
   /\ exists entry,
        JsMap.get key (cache (fst out)) = Some entry
        /\ data entry = d /\ hits entry = 1%Z /\ timestamp entry = now c)
  /\ ((dt > entryTTL)%Z ->
      snd out = None
      /\ statHits (fst out) = statHits c
      /\ statMisses (fst out) = (statMisses c + 1)%Z
      /\ JsMap.get key (cache (fst out)) = None).
Proof.
  intros entryTTL out. subst out.
  destruct (set_stores c key d ttl_) as (Hg & Hh & Hm & _ & Hn).
  fold entryTTL in Hg.
  set (c1 := set c key d ttl_) in *.
  unfold get. cbn [advance cache now statHits statMisses]. rewrite Hg.
  cbn [timestamp ttl]. rewrite Hn.
  replace (now c + dt - now c)%Z with dt by lia.
  split; intros Hdt.
  - replace (dt >? entryTTL)%Z with false
      by (symmetry; rewrite Z.gtb_ltb; apply Z.ltb_ge; exact Hdt).
    cbn [fst snd log setStats setEntries cache statHits statMisses data hits].
    change (statHits (advance c1 dt)) with (statHits c1).
    change (statMisses (advance c1 dt)) with (statMisses c1).
    split; [reflexivity|]. split; [now rewrite Hh|]. split; [exact Hm|].
    eexists. split; [apply get_set_same|]. cbn. auto.
  - replace (dt >? entryTTL)%Z with true
      by (symmetry; rewrite Z.gtb_ltb; apply Z.ltb_lt; lia).
    cbn [fst snd setStats setEntries cache statHits statMisses].
    change (statHits (advance c1 dt)) with (statHits c1).
    change (statMisses (advance c1 dt)) with (statMisses c1).
    split; [reflexivity|]. split; [exact Hh|]. split; [now rewrite Hm|].
    apply get_delete_same.
Qed.

Lemma insertSorted_In x y l : In x (insertSorted y l) <-> x = y \/ In x l.
Proof.
  induction l as [| z l IH]; cbn.
  - intuition.
  - destruct (compareEntries (snd y) (snd z) <? 0)%Z; cbn; [intuition|].
    rewrite IH. intuition.
Qed.

Lemma sortEntries_In x l : In x (sortEntries l) <-> In x l.
Proof.
  unfold sortEntries.
  assert (G : forall acc, In x (fold_left (fun acc x => insertSorted x acc) l acc)
                          <-> In x acc \/ In x l).
  { induction l as [| z l IH]; intros acc; cbn; [tauto|].
    rewrite IH, insertSorted_In. intuition. }
  rewrite G. cbn. tauto.
Qed.

Lemma entriesToEvict_head requiredSpace freedSpace k e rest :
  exists more, entriesToEvict requiredSpace freedSpace ((k, e) :: rest) = k :: more.
Proof.
  cbn. destruct (freedSpace + size e >=? requiredSpace)%Z; eauto.
Qed.

Lemma evictEntries_length c requiredSpace :
  (List.length (cache (evictEntries c requiredSpace)) <= List.length (cache c))%nat
  /\ (cache c <> [] ->
      (List.length (cache (evictEntries c requiredSpace)) < List.length (cache c))%nat).
Proof.
  unfold evictEntries.
  assert (E : forall victims,
             cache (let c0 := setEntries c (fold_left (fun m k => JsMap.delete k m)
                                              victims (cache c)) in
                    match victims with
                    | [] => c0
                    | _ :: _ => log c0 info (JS.lit "Cache eviction completed") []
                    end)
             = deleteKeys victims (cache c)).
  { intros [|]; reflexivity. }
  rewrite E. split; [apply deleteKeys_length|].
  intros Hne.
  destruct (sortEntries (cache c)) as [| [k e] rest] eqn:Es.
  - exfalso. destruct (cache c) as [| x l]; [congruence|].
    assert (H : In x (sortEntries (x :: l))) by (apply sortEntries_In; now left).
    rewrite Es in H. destruct H.
  - destruct (entriesToEvict_head requiredSpace 0 k e rest) as (more & ->).
    unfold deleteKeys. cbn [fold_left].
    assert (Hk : In k (map fst (cache c))).
    { apply in_map_iff. exists (k, e). split; [reflexivity|].
      apply sortEntries_In. rewrite Es. now left. }
    pose proof (delete_length_lt k (cache c) Hk).
    pose proof (deleteKeys_length more (JsMap.delete k (cache c))) as H2.
    unfold deleteKeys in H2. lia.
Qed.

Lemma set_length {V : Type} (k : jstr) (v : V) (m : JsMap.t V) :
  (List.length (JsMap.set k v m) <= S (List.length m))%nat.
Proof.
  induction m as [| [k0 v0] rest IH]; cbn; [lia|].
  destruct (JS.eqb k k0); cbn; lia.
Qed.

(** X14.  [set] keeps the number of entries within [maxEntries]: on a
    cache that holds at most [maxEntries] entries (and [maxEntries] is at
    least 1), the cache after a [set] holds at most [maxEntries] entries.
    A full cache makes room first, even when the key is already there. *)
Theorem set_keeps_entry_count_bounded
    (c : Cache) (key : jstr) (d : CacheData) (ttl_ : option Z) :
  (1 <= maxEntries (options c))%Z ->
  (Z.of_nat (List.length (cache c)) <= maxEntries (options c))%Z ->
  (Z.of_nat (List.length (cache (set c key d ttl_))) <= maxEntries (options c))%Z
  /\ options (set c key d ttl_) = options c
  /\ ((Z.of_nat (List.length (cache c)) = maxEntries (options c))%Z ->
      (List.length (cache (set c key d ttl_)) <= List.length (cache c))%nat).
Proof.
  intros H1 Hb.
  destruct (set_stores c key d ttl_) as (_ & _ & _ & Ho & _).
  assert (K : (List.length (cache (set c key d ttl_))
               <= if (Z.of_nat (List.length (cache c)) >=? maxEntries (options c))%Z
                  then List.length (cache c) else S (List.length (cache c)))%nat).
  { unfold set. cbn [log setEntries cache].
    set (entry := {| data := d |}).
    unfold shouldEvict.
    destruct (Z.of_nat (List.length (cache c)) >=? maxEntries (options c))%Z eqn:Efull;
      cbn [orb].
    - rewrite Z.geb_le in Efull.
      assert (Hne : cache c <> []) by (intros E; rewrite E in Efull; cbn in Efull; lia).
      destruct (evictEntries_length c (estimateSize d)) as (_ & Hlt). specialize (Hlt Hne).
      pose proof (set_length key entry (cache (evictEntries c (estimateSize d)))). lia.
    - destruct (getTotalSize c + estimateSize d >? maxSize (options c))%Z.
      + destruct (evictEntries_length c (estimateSize d)) as (Hle & _).
        pose proof (set_length key entry (cache (evictEntries c (estimateSize d)))). lia.
      + apply set_length. }
  destruct (Z.of_nat (List.length (cache c)) >=? maxEntries (options c))%Z eqn:Efull.
  - split; [lia|]. split; [exact Ho|]. intros _. exact K.
  - rewrite Z.geb_leb in Efull. apply Z.leb_gt in Efull.
    split; [lia|]. split; [exact Ho|]. intros E. lia.
Qed.

Lemma sum_insertSorted (x : jstr * CacheEntry) l :
  MultiDb.sum (map (fun kv => size (snd kv)) (insertSorted x l))
  = (size (snd x) + MultiDb.sum (map (fun kv => size (snd kv)) l))%Z.
Proof.
  induction l as [| y l IH]; cbn; [reflexivity|].
  destruct (compareEntries (snd x) (snd y) <? 0)%Z; cbn; [reflexivity|].
  unfold MultiDb.sum in *. rewrite IH. cbn. lia.
Qed.

Lemma sum_sortEntries l :
  MultiDb.sum (map (fun kv => size (snd kv)) (sortEntries l))
  = MultiDb.sum (map (fun kv => size (snd kv)) l).
Proof.
  unfold sortEntries.
  assert (G : forall acc,
             MultiDb.sum (map (fun kv => size (snd kv))
                            (fold_left (fun acc x => insertSorted x acc) l acc))
             = (MultiDb.sum (map (fun kv => size (snd kv)) acc)
                + MultiDb.sum (map (fun kv => size (snd kv)) l))%Z).
  { induction l as [| z l IH]; intros acc; cbn; [unfold MultiDb.sum; cbn; lia|].
    rewrite IH, sum_insertSorted. unfold MultiDb.sum. cbn. lia. }
  rewrite G. unfold MultiDb.sum. cbn. lia.
Qed.

Lemma entriesToEvict_all requiredSpace (sorted : list (jstr * CacheEntry)) :
  forall freedSpace,
    Forall (fun kv => (0 <= size (snd kv))%Z) sorted ->
    (freedSpace + MultiDb.sum (map (fun kv => size (snd kv)) sorted) < requiredSpace)%Z ->
    entriesToEvict requiredSpace freedSpace sorted = map fst sorted.
Proof.
  induction sorted as [| [k e] rest IH]; intros freedSpace Hall Hsum; [reflexivity|].
  inversion Hall as [| ? ? He Hrest]; subst. cbn [snd] in He.
  assert (Hpos : (0 <= MultiDb.sum (map (fun kv => size (snd kv)) rest))%Z).
  { clear -Hrest. induction Hrest as [| x l Hx _ IHl]; unfold MultiDb.sum in *; cbn; lia. }
  unfold MultiDb.sum in *. cbn in Hsum |- *.
  replace (freedSpace + size e >=? requiredSpace)%Z with false
    by (symmetry; rewrite Z.geb_leb; apply Z.leb_gt; lia).
  f_equal. apply IH; [exact Hrest | lia].
Qed.

Lemma deleteKeys_all (ks : list jstr) (m : JsMap.t CacheEntry) :
  (forall x, In x m -> In (fst x) ks) -> deleteKeys ks m = [].
Proof.
  intros H. destruct (deleteKeys ks m) as [| x l] eqn:E; [reflexivity|].
  exfalso. assert (Hx : In x (deleteKeys ks m)) by (rewrite E; now left).
  apply In_deleteKeys in Hx. destruct Hx as [H1 H2]. auto.
Qed.

(** X15.  [maxSize] does not bound a single entry.  When the estimated
    size of the data exceeds [maxSize] and exceeds what the cache holds,
    [set] evicts every entry and then stores the new one all the same: the
    cache is left with that entry alone, and its total size is above
    [maxSize]. *)
Theorem set_stores_oversized_entry
    (c : Cache) (key : jstr) (d : CacheData) (ttl_ : option Z) :
  Forall (fun kv => (0 <= size (snd kv))%Z) (cache c) ->
  (maxSize (options c) < estimateSize d)%Z ->
  (getTotalSize c < estimateSize d)%Z ->
  exists entry,
    cache (set c key d ttl_) = [(key, entry)]
    /\ data entry = d
    /\ getTotalSize (set c key d ttl_) = estimateSize d
    /\ (getTotalSize (set c key d ttl_) > maxSize (options (set c key d ttl_)))%Z.
Proof.
  intros Hall Hmax Htot.
  destruct (set_stores c key d ttl_) as (_ & _ & _ & Ho & _).
  assert (Hsum : getTotalSize c = MultiDb.sum (map (fun kv => size (snd kv)) (cache c))).
  { unfold getTotalSize.
    rewrite (fold_left_sum (fun kv : jstr * CacheEntry => size (snd kv)) (cache c) 0).
    lia. }
  assert (Hpos : (0 <= getTotalSize c)%Z).
  { rewrite Hsum. clear -Hall.
    induction Hall as [| x l Hx _ IHl]; unfold MultiDb.sum in *; cbn; lia. }
  assert (Hev : cache (evictEntries c (estimateSize d)) = []).
  { unfold evictEntries.
    rewrite (entriesToEvict_all (estimateSize d) (sortEntries (cache c)) 0).
    - assert (E : deleteKeys (map fst (sortEntries (cache c))) (cache c) = []).
      { apply deleteKeys_all. intros x Hx. apply in_map. now apply sortEntries_In. }
      unfold deleteKeys in E.
      destruct (map fst (sortEntries (cache c))); cbn [cache setEntries log]; exact E.
    - apply Forall_forall. intros x Hx.
      apply (proj1 (sortEntries_In x (cache c))) in Hx.
      revert x Hx. apply Forall_forall. exact Hall.
    - rewrite sum_sortEntries, <- Hsum. lia. }
  assert (Hcache : cache (set c key d ttl_)
                   = [(key, {| data := d; timestamp := now c;
                               ttl := match ttl_ with
                                      | Some v => if (v =? 0)%Z then defaultTTL (options c) else v
                                      | None => defaultTTL (options c)
                                      end;
                               hits := 0; size := estimateSize d |})]).
  { unfold set. cbn [log setEntries cache].
    replace (shouldEvict c (estimateSize d)) with true.
    - rewrite Hev. reflexivity.
    - symmetry. unfold shouldEvict. apply orb_true_iff. right.
      rewrite Z.gtb_ltb. apply Z.ltb_lt. lia. }
  eexists. split; [exact Hcache|]. split; [reflexivity|].
  assert (Hnew : getTotalSize (set c key d ttl_) = estimateSize d).
  { unfold getTotalSize. rewrite Hcache. cbn. lia. }
  split; [exact Hnew|]. rewrite Hnew, Ho. lia.
Qed.

(** X16.  The timer's [cleanup] cannot be observed through [get]: on a
    cache whose keys are distinct, a [get] after a [cleanup] returns what
    the same [get] would have returned without it.  [cleanup] drops only
    entries that a [get] would have treated as a miss. *)
Theorem cleanup_is_invisible_to_get (c : Cache) (key : jstr) :
  NoDup (map fst (cache c)) ->
  snd (get (cleanup c) key) = snd (get c key)
  /\ (forall k entry,
        JsMap.get k (cache (cleanup c)) = Some entry ->
        JsMap.get k (cache c) = Some entry
        /\ (now c - timestamp entry <= ttl entry)%Z).
Proof.
  intros Hnd.
  set (expired := fun kv : jstr * CacheEntry =>
                    (now c - timestamp (snd kv) >? ttl (snd kv))%Z).
  set (ks := map fst (filter expired (cache c))).
  assert (Hcache : cache (cleanup c) = deleteKeys ks (cache c)).
  { unfold cleanup. fold expired. fold ks. destruct ks; reflexivity. }
  assert (Hnow : now (cleanup c) = now c).
  { unfold cleanup. fold expired. fold ks. destruct ks; reflexivity. }
  assert (Hin : forall k, In k ks <->
                  exists e, JsMap.get k (cache c) = Some e
                            /\ (now c - timestamp e >? ttl e)%Z = true).
  { intros k. unfold ks. rewrite in_map_iff. split.
    - intros ([k0 e] & Hk & Hf). cbn in Hk. subst k0.
      apply filter_In in Hf. destruct Hf as [Hf He].
      exists e. split; [now apply In_get_NoDup | exact He].
    - intros (e & Hg & He). exists (k, e). split; [reflexivity|].
      apply filter_In. split; [now apply get_In | exact He]. }
  assert (Hget : forall k,
             JsMap.get k (cache (cleanup c))
             = match JsMap.get k (cache c) with
               | Some e => if (now c - timestamp e >? ttl e)%Z then None else Some e
               | None => None
               end).
  { intros k. rewrite Hcache.
    destruct (JsMap.get k (cache c)) as [e|] eqn:Eg.
    - destruct (now c - timestamp e >? ttl e)%Z eqn:Ee.
      + apply get_deleteKeys_in. apply Hin. eauto.
      + rewrite get_deleteKeys_other; [exact Eg|].
        intros H. apply Hin in H. destruct H as (e' & Hg' & He'). congruence.
    - rewrite get_deleteKeys_other; [exact Eg|].
      intros H. apply Hin in H. destruct H as (e' & Hg' & _). congruence. }
  split.
  - unfold get. rewrite Hget, Hnow.
    destruct (JsMap.get key (cache c)) as [e|]; [|reflexivity].
    destruct (now c - timestamp e >? ttl e)%Z eqn:Ee; [reflexivity|].
    rewrite Ee. reflexivity.
  - intros k entry. rewrite Hget.
    destruct (JsMap.get k (cache c)) as [e|]; [|discriminate].
    destruct (now c - timestamp e >? ttl e)%Z eqn:Ee; [discriminate|].
    intros H. injection H as <-. split; [reflexivity|].
    rewrite Z.gtb_ltb in Ee. apply Z.ltb_ge in Ee. exact Ee.
Qed.

Lemma lang_word (w s : jstr) : Regex.lang (Regex.word w) s <-> s = w.
Proof.
  unfold Regex.word. revert s. induction w as [| c w IH]; intros s.
  - cbn. split; [apply lang_eps_inv | intros ->; constructor].
  - destruct w as [| c' w'].
    + cbn. split.
      * intros H. apply lang_cls_inv in H. destruct H as (x & -> & Hx).
        apply N.eqb_eq in Hx. now subst.
      * intros ->. constructor. apply N.eqb_refl.
    + change (Regex.seq (map Regex.chr (c :: c' :: w')))
        with (Regex.Cat (Regex.chr c) (Regex.seq (map Regex.chr (c' :: w')))).
      split.
      * intros H. apply lang_cat_inv in H. destruct H as (u & v & -> & Hu & Hv).
        apply lang_cls_inv in Hu. destruct Hu as (x & -> & Hx).
        apply N.eqb_eq in Hx. subst x. apply IH in Hv. now subst.
      * intros ->. change (c :: c' :: w') with ([c] ++ c' :: w').
        constructor; [constructor; apply N.eqb_refl | now apply IH].
Qed.

Lemma lang_alt_words (ws : list jstr) (s : jstr) :
  Regex.lang (Regex.alt (map Regex.word ws)) s <-> In s ws.
Proof.
  induction ws as [| w ws IH].
  - cbn. split; [apply lang_nul_inv | intros []].
  - destruct ws as [| w' ws'].
    + cbn [map Regex.alt]. rewrite lang_word. cbn. intuition.
    + change (Regex.alt (map Regex.word (w :: w' :: ws')))
        with (Regex.Alt (Regex.word w) (Regex.alt (map Regex.word (w' :: ws')))).
      split.
      * intros H. apply lang_alt_inv in H. destruct H as [H | H].
        -- apply lang_word in H. now left.
        -- right. now apply IH.
      * intros [<- | H]; [apply Regex.LAltL; now apply lang_word|].
        apply Regex.LAltR. now apply IH.
Qed.

(** The keys that the pattern of [invalidateDatabase] matches. *)
Lemma databasePattern_matches (databaseName key : jstr) :
  Regex.matchPrefix
    (Regex.Cat (Regex.alt (map Regex.word databaseKinds))
       (Regex.Cat (Regex.chr 58) (Regex.word databaseName))) key = true
  <-> exists kind rest,
        In kind databaseKinds /\ key = kind ++ JS.lit ":" ++ databaseName ++ rest.
Proof.
  rewrite matchPrefix_lang. split.
  - intros (m & rest & -> & H).
    apply lang_cat_inv in H. destruct H as (kind & v & -> & Hk & Hv).
    apply lang_cat_inv in Hv. destruct Hv as (colon & name & -> & Hc & Hn).
    apply lang_alt_words in Hk. apply lang_word in Hn. subst name.
    apply lang_cls_inv in Hc. destruct Hc as (x & -> & Hx).
    apply N.eqb_eq in Hx. subst x.
    exists kind, rest. split; [exact Hk|]. now rewrite <- !app_assoc.
  - intros (kind & rest & Hk & ->).
    exists (kind ++ JS.lit ":" ++ databaseName), rest.
    split; [now rewrite <- !app_assoc|].
    constructor; [now apply lang_alt_words|].
    constructor; [constructor; reflexivity | now apply lang_word].
Qed.

(** X17.  [invalidateDatabase] matches keys by prefix.  For a database
    name that the pattern takes literally, it drops every entry whose key
    is one of the five kinds, a colon, the name, and then anything: the
    entries of the database, of its tables, and of every other database
    whose name starts with that name.  Every other entry stays, and the
    hit and miss counters are not reset. *)
Theorem invalidateDatabase_matches_by_prefix (c : Cache) (databaseName : jstr) :
  isLiteralName databaseName = true ->
  let after := invalidateDatabase c databaseName in
  (forall kind rest,
      In kind databaseKinds ->
      JsMap.get (kind ++ JS.lit ":" ++ databaseName ++ rest) (cache after) = None)
  /\ (forall key,
        (forall kind rest,
            In kind databaseKinds -> key <> kind ++ JS.lit ":" ++ databaseName ++ rest) ->
        JsMap.get key (cache after) = JsMap.get key (cache c))
  /\ statHits after = statHits c
  /\ statMisses after = statMisses c.
Proof.
  intros _ after. subst after. unfold invalidateDatabase, invalidateAnchored.
  cbn [log setEntries cache statHits statMisses].
  set (r := Regex.Cat _ _).
  split; [|split; [|split; reflexivity]].
  - intros kind rest Hk.
    set (key := kind ++ JS.lit ":" ++ databaseName ++ rest).
    assert (Hm : Regex.matchPrefix r key = true)
      by (apply databasePattern_matches; exists kind, rest; split; [exact Hk | reflexivity]).
    destruct (JsMap.get key (cache c)) as [e|] eqn:Eg.
    + apply get_deleteKeys_in. apply filter_In. split; [|exact Hm].
      apply in_map_iff. exists (key, e). split; [reflexivity | now apply get_In].
    + rewrite get_deleteKeys_other; [exact Eg|].
      intros H. apply filter_In in H. destruct H as [H _].
      apply in_map_iff in H. destruct H as ([k0 e0] & Hk0 & Hin). cbn in Hk0. subst k0.
      clear -Eg Hin. induction (cache c) as [| [k1 e1] l IH]; [destruct Hin|].
      cbn in Eg. destruct (JS.eqb key k1) eqn:E; [discriminate|].
      destruct Hin as [H | H]; [|auto].
      injection H as -> _. rewrite (proj2 (eqb_eq _ _) eq_refl) in E. discriminate.
  - intros key Hkey. apply get_deleteKeys_other.
    intros H. apply filter_In in H. destruct H as [_ H].
    apply databasePattern_matches in H. destruct H as (kind & rest & Hk & E).
    exact (Hkey kind rest Hk E).
Qed.

End SchemaCacheCoverage.

Lemma get_returns_what_set_stored_witness :
  snd (SchemaCache.get
         (SchemaCache.advance
            (SchemaCache.set SchemaCache.emptyCache (JS.lit "dbinfo:shop")
               (SchemaCache.DatabaseInfo (Some 80%Z)) (Some 0%Z)) 300000)
         (JS.lit "dbinfo:shop"))
  = Some (SchemaCache.DatabaseInfo (Some 80%Z))
  /\ snd (SchemaCache.get
            (SchemaCache.advance
               (SchemaCache.set SchemaCache.emptyCache (JS.lit "dbinfo:shop")
                  (SchemaCache.DatabaseInfo (Some 80%Z)) (Some 1000%Z)) 1001)
            (JS.lit "dbinfo:shop"))
     = None.
Proof.
  split.
  - apply (get_returns_what_set_stored SchemaCache.emptyCache (JS.lit "dbinfo:shop")
             (SchemaCache.DatabaseInfo (Some 80%Z)) (Some 0%Z) 300000).
    vm_compute. discriminate.
  - apply (get_returns_what_set_stored SchemaCache.emptyCache (JS.lit "dbinfo:shop")
             (SchemaCache.DatabaseInfo (Some 80%Z)) (Some 1000%Z) 1001).
    vm_compute. reflexivity.
Defined.

Lemma set_keeps_entry_count_bounded_witness :
  List.length (SchemaCache.cache Scenario.tinyCache) = 1%nat
  /\ (List.length
        (SchemaCache.cache
           (SchemaCache.set Scenario.tinyCache (JS.lit "schema:shop")
              (SchemaCache.FullSchema Scenario.shopSchema) None)) <= 1)%nat.
Proof.
  split; [reflexivity|].
  apply (set_keeps_entry_count_bounded Scenario.tinyCache (JS.lit "schema:shop")
           (SchemaCache.FullSchema Scenario.shopSchema) None).
  - vm_compute. discriminate.
  - vm_compute. discriminate.
  - reflexivity.
Defined.

Lemma set_stores_oversized_entry_witness :
  exists entry,
    SchemaCache.cache
      (SchemaCache.set Scenario.tinyCache (JS.lit "schema:shop")
         (SchemaCache.FullSchema Scenario.shopSchema) None)
    = [(JS.lit "schema:shop", entry)]
    /\ SchemaCache.size entry = 600%Z.
Proof.
  destruct (set_stores_oversized_entry Scenario.tinyCache (JS.lit "schema:shop")
              (SchemaCache.FullSchema Scenario.shopSchema) None)
    as (entry & Hc & _ & Hs & _).
  - repeat constructor. vm_compute. discriminate.
  - vm_compute. reflexivity.
  - vm_compute. reflexivity.
  - exists entry. split; [exact Hc|].
    unfold SchemaCache.getTotalSize in Hs. rewrite Hc in Hs. cbn in Hs.
    rewrite Hs. reflexivity.
Defined.

Lemma cleanup_is_invisible_to_get_witness :
  snd (SchemaCache.get
         (SchemaCache.cleanup (SchemaCache.advance Scenario.threeDatabases 400000))
         (JS.lit "schema:shop"))
  = None.
Proof.
  destruct (cleanup_is_invisible_to_get
              (SchemaCache.advance Scenario.threeDatabases 400000) (JS.lit "schema:shop"))
    as (H & _).
  - repeat constructor; vm_compute; intuition discriminate.
  - rewrite H. vm_compute. reflexivity.
Defined.

Lemma invalidateDatabase_matches_by_prefix_witness :
  JsMap.get (JS.lit "schema:shop2") (SchemaCache.cache Scenario.threeDatabases) <> None
  /\ JsMap.get (JS.lit "schema:shop2")
       (SchemaCache.cache (SchemaCache.invalidateDatabase Scenario.threeDatabases (JS.lit "shop")))
     = None
  /\ JsMap.get (JS.lit "dbinfo:warehouse")
       (SchemaCache.cache (SchemaCache.invalidateDatabase Scenario.threeDatabases (JS.lit "shop")))
     = JsMap.get (JS.lit "dbinfo:warehouse") (SchemaCache.cache Scenario.threeDatabases).
Proof.
  split; [vm_compute; discriminate|].
  destruct (invalidateDatabase_matches_by_prefix Scenario.threeDatabases (JS.lit "shop") eq_refl)
    as (Hgone & Hkept & _).
  split.
  - apply (Hgone (JS.lit "schema") (JS.lit "2")). now left.
  - apply Hkept. intros kind rest Hk E.
    cbn in Hk. repeat (destruct Hk as [<- | Hk]; [discriminate E|]). exact Hk.
Defined.

(* ================================================================== *)
(** * Further properties of the MySQL adapter *)
(* ================================================================== *)

Section AdapterCoverage.

Import MySQLAdapter.

Lemma query_guarded a sql params_ elapsed reply :
  isShuttingDown a = true ->
  exists message,
    query a sql params_ elapsed reply = (a, inl message)
    /\ (message = JS.lit "MySQL adapter not connected"
        \/ message = JS.lit "MySQL adapter is shutting down").
Proof.
  intros Hs. unfold query, queryBegin. rewrite Hs.
  destruct (pool a); cbn [negb]; eauto.
Qed.

Lemma call_keeps_shutting_down a c :
  isShuttingDown a = true -> isShuttingDown (call a c) = true.
Proof.
  intros Hs. destruct c as [reply | reply | sql params_ elapsed reply]; cbn [call].
  - unfold connect. destruct (pool a); [exact Hs|].
    destruct reply; exact Hs.
  - unfold disconnect. destruct (pool a); cbn [negb]; [|exact Hs].
    destruct reply; reflexivity.
  - destruct (query_guarded a sql params_ elapsed reply Hs) as (m & -> & _). exact Hs.
Qed.

Lemma calls_keep_shutting_down (calls : list Call) :
  forall a, isShuttingDown a = true -> isShuttingDown (fold_left call calls a) = true.
Proof.
  induction calls as [| c calls IH]; intros a Hs; [exact Hs|].
  cbn. apply IH. now apply call_keeps_shutting_down.
Qed.

(** X18.  [disconnect] is final.  Once [disconnect] has been called on a
    connected adapter, whether [pool.end()] resolves or rejects, the flag
    [isShuttingDown] stays set through every later call: a new [connect]
    assigns a pool again but does not clear it.  Every later [query] is
    therefore stopped by one of the two guards and changes nothing. *)
Theorem disconnect_is_final
    (a : Adapter) (reply : EndReply) (calls : list Call)
    (sql : jstr) (params_ : list JsValue.t) (elapsed : Z) (answer : ExecuteReply) :
  pool a = true ->
  let later := fold_left call calls (fst (disconnect a reply)) in
  isShuttingDown later = true
  /\ (exists message,
        query later sql params_ elapsed answer = (later, inl message)
        /\ (message = JS.lit "MySQL adapter not connected"
            \/ message = JS.lit "MySQL adapter is shutting down"))
  /\ (pool later = true ->
      query later sql params_ elapsed answer
      = (later, inl (JS.lit "MySQL adapter is shutting down"))).
Proof.
  intros Hp later.
  assert (Hs : isShuttingDown later = true).
  { subst later. apply calls_keep_shutting_down.
    unfold disconnect. rewrite Hp. cbn [negb]. destruct reply; reflexivity. }
  split; [exact Hs|]. split; [now apply query_guarded|].
  intros Hpl. unfold query, queryBegin. now rewrite Hpl, Hs.
Qed.

(** X19.  A [connect] whose test connection fails leaves the pool
    assigned.  The call rejects with [MySQL connection failed: ] and the
    message, yet [this.pool] is set: a second [connect] returns at once
    without trying anything, and [query] is no longer stopped by the
    not-connected guard.  When [createPool] itself throws, the pool stays
    unassigned and a second [connect] tries again. *)
Theorem connect_failure_leaves_pool_assigned (a : Adapter) (message : jstr) :
  pool a = false ->
  let failed := connect a (PingRejects message) in
  snd failed = inl (JS.lit "MySQL connection failed: " ++ message)
  /\ pool (fst failed) = true
  /\ (forall reply, connect (fst failed) reply = (fst failed, inr tt))
  /\ (isShuttingDown a = false ->
      queryBegin (fst failed)
      = inr (setActiveQueries (fst failed) (activeQueries a + 1)))
  /\ pool (fst (connect a (CreatePoolThrows message))) = false
  /\ snd (connect (fst (connect a (CreatePoolThrows message))) PingResolves) = inr tt
  /\ pool (fst (connect (fst (connect a (CreatePoolThrows message))) PingResolves)) = true.
Proof.
  intros Hp failed. subst failed.
  assert (E : connect a (PingRejects message)
              = (emit (setPool a true) (disconnected (Some message)),
                 inl (JS.lit "MySQL connection failed: " ++ message)))
    by (unfold connect; now rewrite Hp).
  assert (E' : connect a (CreatePoolThrows message)
               = (emit a (disconnected (Some message)),
                  inl (JS.lit "MySQL connection failed: " ++ message)))
    by (unfold connect; now rewrite Hp).
  rewrite E, E'. cbn [fst snd].
  split; [reflexivity|]. split; [reflexivity|]. split; [|split].
  - intros reply. reflexivity.
  - intros Hs. unfold queryBegin. cbn [emit setPool pool isShuttingDown negb activeQueries].
    rewrite Hs. reflexivity.
  - unfold connect. cbn [emit pool]. rewrite Hp. cbn. auto.
Qed.

(** X20.  What one [query] that passes the guards adds to the metrics
    and to the events, with metrics enabled: one query counted, its time
    added, one error counted exactly when [pool.execute] rejected, so the
    error count stays between 0 and the query count; and one event, emitted
    last, [query_failed] or [query_executed], with the statement cut to 100
    code units.  When the query count reaches a multiple of 100 a
    [metrics_collected] event precedes it. *)
Theorem query_updates_metrics_and_events
    (a : Adapter) (sql : jstr) (params_ : list JsValue.t) (elapsed : Z) (reply : ExecuteReply) :
  pool a = true -> isShuttingDown a = false -> metricsEnabled a = true ->
  let after := fst (query a sql params_ elapsed reply) in
  let failures := match reply with ExecuteError _ => 1%Z | _ => 0%Z end in
  queriesExecuted (metrics after) = (queriesExecuted (metrics a) + 1)%Z
  /\ totalExecutionTime (metrics after) = (totalExecutionTime (metrics a) + elapsed)%Z
  /\ errorCount (metrics after) = (errorCount (metrics a) + failures)%Z
  /\ ((0 <= errorCount (metrics a) <= queriesExecuted (metrics a))%Z ->
      (0 <= errorCount (metrics after) <= queriesExecuted (metrics after))%Z)
  /\ emitted after
     = emitted a
       ++ (if ((queriesExecuted (metrics a) + 1) mod 100 =? 0)%Z
           then [metrics_collected (metrics after)] else [])
       ++ [match reply with
           | ExecuteError message => query_failed (JS.substring0 100 sql) message
           | ExecuteRows found _ =>
               query_executed (JS.substring0 100 sql) elapsed (Z.of_nat (List.length found))
           | ExecuteHeader _ => query_executed (JS.substring0 100 sql) elapsed 0
           end].
Proof.
  intros Hp Hs Hm after failures. subst after failures.
  unfold query. rewrite (queryBegin_connected a Hp Hs).
  unfold queryEnd, updateMetrics.
  cbn [advance setActiveQueries metricsEnabled now metrics].
  rewrite Hm. cbn [negb].
  replace (now a + elapsed - now a)%Z with elapsed by lia.
  cbn [queriesExecuted totalExecutionTime errorCount].
  destruct ((queriesExecuted (metrics a) + 1) mod 100 =? 0)%Z;
    destruct reply as [found f | f | message];
    cbn [fst emit setActiveQueries metrics emitted queriesExecuted totalExecutionTime
         errorCount rowCount List.length app];
    rewrite <- ?app_assoc; cbn [app];
    (split; [reflexivity|]); (split; [reflexivity|]); (split; [lia|]);
    (split; [intros H; lia|]); reflexivity.
Qed.


Lemma setActiveQueries_keeps a n :
  pool (setActiveQueries a n) = pool a
  /\ isShuttingDown (setActiveQueries a n) = isShuttingDown a
  /\ activeQueries (setActiveQueries a n) = n.
Proof. cbn. auto. Qed.






End AdapterCoverage.

Lemma disconnect_is_final_witness :
  MySQLAdapter.pool
    (fold_left MySQLAdapter.call [MySQLAdapter.Connect MySQLAdapter.PingResolves]
       (fst (MySQLAdapter.disconnect Scenario.idleAdapter MySQLAdapter.EndResolves)))
  = true
  /\ snd (MySQLAdapter.query
            (fold_left MySQLAdapter.call [MySQLAdapter.Connect MySQLAdapter.PingResolves]
               (fst (MySQLAdapter.disconnect Scenario.idleAdapter MySQLAdapter.EndResolves)))
            Scenario.select1 [] 5 (MySQLAdapter.ExecuteRows [Scenario.idRow 1] []))
     = inl (JS.lit "MySQL adapter is shutting down").
Proof.
  split; [reflexivity|].
  destruct (disconnect_is_final Scenario.idleAdapter MySQLAdapter.EndResolves
              [MySQLAdapter.Connect MySQLAdapter.PingResolves]
              Scenario.select1 [] 5 (MySQLAdapter.ExecuteRows [Scenario.idRow 1] []) eq_refl)
    as (_ & _ & H).
  rewrite (H eq_refl). reflexivity.
Defined.

Lemma connect_failure_witness :
  MySQLAdapter.pool
    (fst (MySQLAdapter.connect (MySQLAdapter.setPool Scenario.idleAdapter false)
            (MySQLAdapter.PingRejects (JS.lit "connect ECONNREFUSED"))))
  = true.
Proof.
  exact (proj1 (proj2 (connect_failure_leaves_pool_assigned
                         (MySQLAdapter.setPool Scenario.idleAdapter false)
                         (JS.lit "connect ECONNREFUSED") eq_refl))).
Defined.

Lemma query_updates_metrics_witness :
  MySQLAdapter.errorCount
    (MySQLAdapter.metrics
       (fst (MySQLAdapter.query Scenario.idleAdapter Scenario.select1 [] 7
               (MySQLAdapter.ExecuteError (JS.lit "read ETIMEDOUT")))))
  = 1%Z.
Proof.
  destruct (query_updates_metrics_and_events Scenario.idleAdapter Scenario.select1 [] 7
              (MySQLAdapter.ExecuteError (JS.lit "read ETIMEDOUT")) eq_refl eq_refl eq_refl)
    as (_ & _ & H & _).
  rewrite H. reflexivity.
Defined.

Lemma activeQueries_in_flight_witness :
  MySQLAdapter.activeQueries
    (fold_left MySQLAdapter.turn
       [MySQLAdapter.Begins; MySQLAdapter.Begins;
        MySQLAdapter.Ends 0 Scenario.select1 [] 5
          (MySQLAdapter.ExecuteError (JS.lit "read ETIMEDOUT"))]
       Scenario.idleAdapter)
  = 1%Z.
Proof.
  rewrite (activeQueries_counts_calls_in_flight
             [MySQLAdapter.Begins; MySQLAdapter.Begins;
              MySQLAdapter.Ends 0 Scenario.select1 [] 5
                (MySQLAdapter.ExecuteError (JS.lit "read ETIMEDOUT"))]
             Scenario.idleAdapter 0 1 eq_refl eq_refl eq_refl).
  reflexivity.
Defined.



(* ================================================================== *)
(** * Further properties of the multi-database server *)
(* ================================================================== *)

Section DispatcherCoverage.

Import MultiDb.

Lemma lang_star_cls (f : N -> bool) (s : jstr) :
  Regex.lang (Regex.Star (Regex.Cls f)) s <-> forallb f s = true.
Proof.
  split.
  - remember (Regex.Star (Regex.Cls f)) as r eqn:Er. intros H.
    induction H; try discriminate Er.
    + reflexivity.
    + injection Er as ->. apply lang_cls_inv in H. destruct H as (c & -> & Hc).
      cbn. rewrite Hc. cbn. now apply IHlang2.
  - induction s as [| c s IH]; cbn.
    + intros _. constructor.
    + intros H. apply andb_true_iff in H. destruct H as [Hc Hs].
      change (c :: s) with ([c] ++ s). constructor; [now constructor | now apply IH].
Qed.

Lemma lang_plus_cls (f : N -> bool) (s : jstr) :
  Regex.lang (Regex.plus (Regex.Cls f)) s <-> s <> [] /\ forallb f s = true.
Proof.
  unfold Regex.plus. split.
  - intros H. apply lang_cat_inv in H. destruct H as (u & v & -> & Hu & Hv).
    apply lang_cls_inv in Hu. destruct Hu as (c & -> & Hc).
    apply lang_star_cls in Hv. cbn. rewrite Hc, Hv. split; [discriminate | reflexivity].
  - intros [Hne H]. destruct s as [| c s]; [congruence|].
    cbn in H. apply andb_true_iff in H. destruct H as [Hc Hs].
    change (c :: s) with ([c] ++ s). constructor; [now constructor | now apply lang_star_cls].
Qed.

Lemma spanLen_stop (p : N -> bool) (d : jstr) (c : N) (r : jstr) :
  forallb p d = true -> p c = false ->
  JS.spanLen p (d ++ c :: r) = List.length d.
Proof.
  intros Hd Hc. induction d as [| x d IH]; cbn.
  - now rewrite Hc.
  - cbn in Hd. apply andb_true_iff in Hd. destruct Hd as [Hx Hd]. rewrite Hx.
    f_equal. now apply IH.
Qed.

Lemma spanLen_split (p : N -> bool) (s : jstr) :
  forallb p (firstn (JS.spanLen p s) s) = true
  /\ match skipn (JS.spanLen p s) s with
     | [] => True
     | c :: _ => p c = false
     end.
Proof.
  induction s as [| c s IH]; cbn; [auto|].
  destruct (p c) eqn:E; cbn; [|auto].
  rewrite E. cbn. exact IH.
Qed.

(** The two groups that [matchResourceUri] returns are those of the
    pattern. *)
Lemma matchResourceUri_spec (uri database_ resource : jstr) :
  matchResourceUri uri = Some (database_, resource)
  <-> uri = JS.lit "database://" ++ database_ ++ JS.lit "/" ++ resource
      /\ database_ <> [] /\ forallb notSlash database_ = true
      /\ resource <> []
      /\ forallb (fun c => negb (JS.isLineTerminator c)) resource = true.
Proof.
  unfold matchResourceUri. split.
  - destruct (JS.startsWith (JS.lit "database://") uri) eqn:Es; [|discriminate].
    apply startsWith_inv in Es. destruct Es as (rest & ->).
    change (skipn 11 (JS.lit "database://" ++ rest)) with rest. cbv zeta.
    destruct (spanLen_split notSlash rest) as (Hd & Hstop).
    pose proof (firstn_skipn (JS.spanLen notSlash rest) rest) as Hsplit.
    destruct (JS.spanLen notSlash rest) as [| n] eqn:En; [discriminate|].
    destruct (skipn (S n) rest) as [| c [| r0 r]] eqn:Er; try discriminate.
    destruct (forallb (fun c => negb (JS.isLineTerminator c)) (r0 :: r)) eqn:Ef;
      [|discriminate].
    intros H. injection H as <- <-.
    assert (Hc : c = 47%N).
    { unfold notSlash in Hstop. apply negb_false_iff, N.eqb_eq in Hstop. exact Hstop. }
    subst c. split; [now rewrite <- Hsplit at 1|].
    split.
    { destruct rest as [| x l]; [discriminate En|]. cbn. discriminate. }
    split; [exact Hd|]. split; [discriminate | exact Ef].
  - intros (-> & Hne & Hd & Hr & Hl).
    assert (Es : JS.startsWith (JS.lit "database://")
                   (JS.lit "database://" ++ database_ ++ JS.lit "/" ++ resource) = true)
      by (apply startsWith_self).
    rewrite Es.
    change (skipn 11 (JS.lit "database://" ++ database_ ++ JS.lit "/" ++ resource))
      with (database_ ++ 47%N :: resource). cbv zeta.
    rewrite (spanLen_stop notSlash database_ 47 resource Hd eq_refl).
    destruct (List.length database_) as [| n0] eqn:El;
      [destruct database_; [congruence | discriminate El]|].
    rewrite <- El.
    rewrite skipn_app, skipn_all, Nat.sub_diag, firstn_app, firstn_all, Nat.sub_diag.
    cbn [app skipn firstn]. rewrite app_nil_r.
    destruct resource as [| r0 r]; [congruence|]. now rewrite Hl.
Qed.

(** X24.  The groups that the [ReadResource] handler reads off a URI are
    those of its pattern: [matchResourceUri] finds a database and a
    resource exactly when the whole URI is in the language of
    [^database:\/\/([^\/]+)\/(.+)$], and the two groups are the only way to
    cut the URI into the prefix, a non-empty run without a slash, a slash,
    and a non-empty run without a line terminator. *)
Theorem matchResourceUri_is_the_pattern (uri : jstr) :
  ((exists database_ resource, matchResourceUri uri = Some (database_, resource))
   <-> Regex.lang resourcePattern uri)
  /\ (forall database_ resource,
        matchResourceUri uri = Some (database_, resource)
        <-> uri = JS.lit "database://" ++ database_ ++ JS.lit "/" ++ resource
            /\ Regex.lang (Regex.plus (Regex.Cls notSlash)) database_
            /\ Regex.lang (Regex.plus Regex.dot) resource).
Proof.
  assert (G : forall database_ resource,
             matchResourceUri uri = Some (database_, resource)
             <-> uri = JS.lit "database://" ++ database_ ++ JS.lit "/" ++ resource
                 /\ Regex.lang (Regex.plus (Regex.Cls notSlash)) database_
                 /\ Regex.lang (Regex.plus Regex.dot) resource).
  { intros database_ resource. rewrite matchResourceUri_spec.
    unfold Regex.dot. rewrite !lang_plus_cls. tauto. }
  split; [|exact G].
  unfold resourcePattern. split.
  - intros (database_ & resource & H). apply G in H. destruct H as (-> & Hd & Hr).
    constructor; [now apply lang_word|].
    constructor; [exact Hd|].
    change (JS.lit "/" ++ resource) with ([47%N] ++ resource).
    constructor; [constructor; reflexivity | exact Hr].
  - intros H. apply lang_cat_inv in H. destruct H as (p & v & -> & Hp & Hv).
    apply lang_word in Hp. subst p.
    apply lang_cat_inv in Hv. destruct Hv as (database_ & v' & -> & Hd & Hv').
    apply lang_cat_inv in Hv'. destruct Hv' as (slash & resource & -> & Hs & Hr).
    apply lang_cls_inv in Hs. destruct Hs as (c & -> & Hc). apply N.eqb_eq in Hc. subst c.
    exists database_, resource. apply G. auto.
Qed.

Lemma listed_uri_is_not_connections (name kind : jstr) :
  JS.eqb (JS.lit "database://" ++ name ++ JS.lit "/" ++ kind) (JS.lit "database://connections")
  = false.
Proof.
  destruct (JS.eqb _ _) eqn:E; [|reflexivity].
  apply eqb_eq in E.
  change (JS.lit "database://connections")
    with (JS.lit "database://" ++ JS.lit "connections") in E.
  apply app_inv_head in E.
  assert (H : In 47%N (name ++ JS.lit "/" ++ kind)).
  { apply in_or_app. right. now left. }
  rewrite E in H. cbn in H.
  repeat (destruct H as [H | H]; [discriminate H|]). destruct H.
Qed.

(** X25.  Which published resources can be read back.  For a registered
    connection, the handler of [ListResources] publishes
    [database://<name>/schema] and [database://<name>/tables]; the handler
    of [ReadResource] sends such a URI to that connection and that resource
    exactly when the name is not empty and holds no slash.  For a name with
    a slash the URI is never sent to that connection, whatever the
    resource. *)
Theorem listed_resource_routes_to_its_connection
    (mgr : ConnectionManager) (name kind : jstr) :
  In name (connections mgr) ->
  kind = JS.lit "schema" \/ kind = JS.lit "tables" ->
  let uri := JS.lit "database://" ++ name ++ JS.lit "/" ++ kind in
  In uri (listedResources mgr)
  /\ (routeResource uri = ReadDatabaseResource name kind
      <-> name <> [] /\ forallb notSlash name = true)
  /\ (forallb notSlash name = false ->
      forall resource, routeResource uri <> ReadDatabaseResource name resource).
Proof.
  intros Hin Hkind uri.
  assert (Hk : kind <> []
               /\ forallb (fun c => negb (JS.isLineTerminator c)) kind = true).
  { destruct Hkind as [-> | ->]; split; (discriminate || reflexivity). }
  destruct Hk as (Hkne & Hkl).
  split; [|split].
  - unfold listedResources. right. apply in_flat_map. exists name. split; [exact Hin|].
    subst uri. destruct Hkind as [-> | ->]; cbn; auto.
  - unfold routeResource. subst uri. rewrite listed_uri_is_not_connections. split.
    + destruct (matchResourceUri _) as [[d r] |] eqn:E; [|discriminate].
      intros H. injection H as -> ->. apply matchResourceUri_spec in E. tauto.
    + intros (Hne & Hns).
      rewrite (proj2 (matchResourceUri_spec _ name kind)); [reflexivity|]. auto.
  - intros Hslash resource. unfold routeResource. subst uri.
    rewrite listed_uri_is_not_connections.
    destruct (matchResourceUri _) as [[d r] |] eqn:E; [|discriminate].
    intros H. injection H as -> ->. apply matchResourceUri_spec in E.
    destruct E as (_ & _ & Hns & _). congruence.
Qed.

(** X26.  The tool [execute_query] of the multi-database server hands the
    statement to the adapter as it was given: no validator and no executor
    stand between the request and [adapter.query].  The adapter is called
    exactly when the query is a non-empty string and the database argument,
    or the default connection in its absence, names a registered
    connection; it is then called once, on that connection, with the query
    unchanged and the parameters given (none when they are missing). *)
Theorem handleExecuteQuery_forwards_query_unchecked
    (mgr : ConnectionManager) (query database_ : option jstr)
    (parameters : option (list jstr)) (reply : jstr + AdapterResult) :
  let target := match database_ with Some d => d | None => [] end in
  let calls := fst (handleExecuteQuery mgr query database_ parameters reply) in
  (forall q name,
      query = Some q -> q <> [] -> getConnection mgr target = inr name ->
      calls = [{| callConnection := name; callSql := q;
                  callParams := match parameters with Some ps => ps | None => [] end |}]
      /\ In name (connections mgr))
  /\ (calls <> [] ->
      exists q name,
        query = Some q /\ q <> [] /\ getConnection mgr target = inr name)
  /\ (forall q, query = Some q -> q <> [] ->
      forall message,
        getConnection mgr target = inl message ->
        calls = []
        /\ exists message',
             snd (handleExecuteQuery mgr query database_ parameters reply) = inl message').
Proof.
  intros target calls. subst target calls.
  assert (Hin : forall n name, getConnection mgr n = inr name -> In name (connections mgr)).
  { intros n name. unfold getConnection.
    destruct (match n with [] => defaultConnectionName mgr | _ :: _ => Some n end)
      as [[| c w] |]; try discriminate.
    destruct (JS.arrayIncludes (c :: w) (connections mgr)) eqn:E; [|discriminate].
    intros H. injection H as <-. unfold JS.arrayIncludes in E.
    apply existsb_exists in E. destruct E as (x & Hx & Ex). apply eqb_eq in Ex. now subst. }
  assert (Hres :
             getConnection mgr
               (match database_ with Some d => d | None => [] end)
             = match (match database_ with
                      | Some ((_ :: _) as d) => Some d
                      | _ => defaultConnectionName mgr
                      end) with
               | Some ((_ :: _) as n') => getConnection mgr n'
               | _ => inl (JS.lit "No connection name specified and no default connection configured")
               end).
  { destruct database_ as [[| c d] |]; try reflexivity;
      unfold getConnection; cbn;
      destruct (defaultConnectionName mgr) as [[| c w] |]; reflexivity. }
  rewrite Hres. clear Hres.
  unfold handleExecuteQuery.
  destruct query as [[| q0 q] |].
  1,3: (split; [intros q' name H; try discriminate H; injection H as <-; congruence|];
        split; [intros H; cbn in H; congruence|];
        intros q' H; try discriminate H; injection H as <-; congruence).
  destruct (match database_ with
            | Some ((_ :: _) as d) => Some d
            | _ => defaultConnectionName mgr
            end) as [[| n0 n] |].
  1,3: (split; [intros q' name _ _ H; discriminate H|];
        split; [intros H; cbn in H; congruence|];
        intros q' _ _ message _; split; [reflexivity | eexists; reflexivity]).
  destruct (getConnection mgr (n0 :: n)) as [e | name] eqn:Eg.
  - split; [intros q' name _ _ H; discriminate H|].
    split; [intros H; cbn in H; congruence|].
    intros q' _ _ message _. split; [reflexivity | eexists; reflexivity].
  - split.
    + intros q' name' H _ H'. injection H as <-. injection H' as <-.
      split; [reflexivity | exact (Hin _ _ Eg)].
    + split.
      * intros _. exists (q0 :: q), name. split; [reflexivity|]. split; [discriminate | reflexivity].
      * intros q' _ _ message H. discriminate H.
Qed.

End DispatcherCoverage.

Lemma matchResourceUri_witness :
  MultiDb.matchResourceUri (JS.lit "database://shop/tables/orders")
  = Some (JS.lit "shop", JS.lit "tables/orders").
Proof.
  apply (proj2 (matchResourceUri_is_the_pattern (JS.lit "database://shop/tables/orders"))).
  split; [reflexivity|].
  split; apply lang_plus_cls; (split; [discriminate | reflexivity]).
Defined.

Lemma listed_resource_witness :
  MultiDb.routeResource (JS.lit "database://a/schema")
  = MultiDb.ReadDatabaseResource (JS.lit "a") (JS.lit "schema")
  /\ MultiDb.routeResource (JS.lit "database://eu/orders/tables")
     <> MultiDb.ReadDatabaseResource (JS.lit "eu/orders") (JS.lit "tables").
Proof.
  split.
  - apply (listed_resource_routes_to_its_connection Scenario.twoPools
             (JS.lit "a") (JS.lit "schema")).
    + now left.
    + now left.
    + split; [discriminate | reflexivity].
  - apply (listed_resource_routes_to_its_connection
             {| MultiDb.connections := [JS.lit "eu/orders"];
                MultiDb.defaultConnectionName := None |}
             (JS.lit "eu/orders") (JS.lit "tables")).
    + now left.
    + now right.
    + reflexivity.
Defined.

Lemma handleExecuteQuery_forwards_witness :
  QueryValidator.isValid (QueryValidator.validate Config.securityConfig Scenario.deleteUsers)
  = false
  /\ fst (MultiDb.handleExecuteQuery Scenario.twoPools (Some Scenario.deleteUsers) None None
            (inr (Scenario.rowsOf 0 1)))
     = [{| MultiDb.callConnection := JS.lit "a";
           MultiDb.callSql := Scenario.deleteUsers;
           MultiDb.callParams := [] |}].
Proof.
  split; [vm_compute; reflexivity|].
  apply (proj1 (handleExecuteQuery_forwards_query_unchecked Scenario.twoPools
                  (Some Scenario.deleteUsers) None None (inr (Scenario.rowsOf 0 1)))
           Scenario.deleteUsers (JS.lit "a")).
  - reflexivity.
  - discriminate.
  - reflexivity.
Defined.

(* ================================================================== *)
(** * Further properties of the configuration loader *)
(* ================================================================== *)

Section ConfigLoaderCoverage.

Import MultiDatabaseConfigLoader.

Lemma set_keys {V : Type} (k k' : jstr) (v : V) (m : JsMap.t V) :
  In k' (map fst (JsMap.set k v m)) <-> k' = k \/ In k' (map fst m).
Proof.
  induction m as [| [k0 v0] rest IH]; cbn.
  - intuition.
  - destruct (JS.eqb k k0) eqn:E; cbn.
    + apply eqb_eq in E. subst k0. intuition.
    + rewrite IH. intuition.
Qed.

Lemma get_set_other {V : Type} (k k' : jstr) (v : V) (m : JsMap.t V) :
  JS.eqb k' k = false -> JsMap.get k' (JsMap.set k v m) = JsMap.get k' m.
Proof.
  intros E. induction m as [| [k0 v0] rest IH]; cbn.
  - now rewrite E.
  - destruct (JS.eqb k k0) eqn:E0; cbn.
    + apply eqb_eq in E0. subst k0. now rewrite E.
    + destruct (JS.eqb k' k0); [reflexivity | exact IH].
Qed.

Lemma In_keys_get {V : Type} (k : jstr) (m : JsMap.t V) :
  In k (map fst m) -> exists v, JsMap.get k m = Some v.
Proof.
  induction m as [| [k0 v0] rest IH]; cbn; [intros []|].
  destruct (JS.eqb k k0) eqn:E; [eauto|].
  intros [H | H]; [|auto].
  subst k0. rewrite (proj2 (eqb_eq k k) eq_refl) in E. discriminate.
Qed.

Lemma loadVariable_keeps_keys conns variable n :
  In n (map fst conns) -> In n (map fst (loadVariable conns variable)).
Proof.
  intros H. destruct variable as [key value]. unfold loadVariable.
  destruct value as [| v0 v]; [exact H|].
  destruct (parseKey key) as [[connectionName property] |]; [|exact H].
  destruct (JS.eqb connectionName (JS.lit "constructor")); [exact H|].
  apply set_keys. now right.
Qed.

Lemma fold_keeps_keys (env : list (jstr * jstr)) :
  forall conns n,
    In n (map fst conns) -> In n (map fst (fold_left loadVariable env conns)).
Proof.
  induction env as [| variable env IH]; intros conns n H; [exact H|].
  cbn. apply IH. now apply loadVariable_keeps_keys.
Qed.

(** Every variable that names a connection creates it. *)
Lemma named_connection_created (env : list (jstr * jstr)) :
  forall conns key value n property,
    In (key, value) env -> value <> [] ->
    parseKey key = Some (n, property) ->
    n <> JS.lit "constructor" ->
    In n (map fst (fold_left loadVariable env conns)).
Proof.
  induction env as [| variable env IH]; intros conns key value n property Hin Hv Hk Hn;
    [destruct Hin|].
  cbn. destruct Hin as [-> | Hin]; [|now apply IH with key value property].
  apply fold_keeps_keys. unfold loadVariable.
  destruct value as [| v0 v]; [congruence|]. rewrite Hk.
  destruct (JS.eqb n (JS.lit "constructor")) eqn:E; [apply eqb_eq in E; congruence|].
  apply set_keys. now left.
Qed.

Lemma insertByIndex_In {V : Type} (x y : N * (jstr * V)) l :
  In x (insertByIndex y l) <-> x = y \/ In x l.
Proof.
  induction l as [| z l IH]; cbn; [intuition|].
  destruct (fst y <? fst z)%N; cbn; [intuition|].
  rewrite IH. intuition.
Qed.

Lemma entries_In {V : Type} (m : JsMap.t V) (x : jstr * V) :
  In x (entries m) <-> In x m.
Proof.
  unfold entries. rewrite in_app_iff, filter_In, in_map_iff.
  assert (G : forall acc y,
             In y (fold_left (fun acc kv => match arrayIndex (fst kv) with
                                            | Some i => insertByIndex (i, kv) acc
                                            | None => acc
                                            end) m acc)
             <-> In y acc \/ (In (snd y) m /\ arrayIndex (fst (snd y)) = Some (fst y))).
  { induction m as [| kv m IH]; intros acc y; cbn [fold_left In].
    - tauto.
    - rewrite IH. destruct (arrayIndex (fst kv)) as [i |] eqn:E.
      + rewrite insertByIndex_In. split.
        * intros [[Hy | H] | [H1 H2]].
          -- subst y. right. cbn [fst snd]. split; [now left | exact E].
          -- now left.
          -- right. split; [now right | exact H2].
        * intros [H | [[Hy | H1] H2]].
          -- left. now right.
          -- left. left. destruct y as [i' kv']. cbn [fst snd] in *. subst kv'.
             rewrite E in H2. now injection H2 as ->.
          -- right. split; assumption.
      + split.
        * intros [H | [H1 H2]]; [now left|]. right. split; [now right | exact H2].
        * intros [H | [[Hy | H1] H2]]; [now left | | right; split; assumption].
          subst kv. rewrite E in H2. discriminate H2. }
  split.
  - intros [(y & <- & Hy) | [H _]]; [|exact H].
    apply G in Hy. destruct Hy as [[] | [H _]]. exact H.
  - intros H. destruct (arrayIndex (fst x)) as [i |] eqn:E; [left | right; auto].
    exists (i, x). split; [reflexivity|]. apply G. right. auto.
Qed.

Lemma firstComplaint_none l :
  firstComplaint l = None ->
  forall n c, In (n, c) l -> checkConnection n c = None.
Proof.
  induction l as [| [n0 c0] l IH]; cbn; [intros _ n c []|].
  destruct (checkConnection n0 c0) eqn:E; [discriminate|].
  intros H n c [Heq | Hin]; [injection Heq as <- <-; exact E | now apply IH].
Qed.

Lemma firstComplaint_some l n c :
  In (n, c) l -> checkConnection n c <> None -> firstComplaint l <> None.
Proof.
  intros Hin Hc H. apply Hc. now apply (firstComplaint_none l H).
Qed.

Lemma checkConnection_none n c :
  checkConnection n c = None <->
  host c <> [] /\ (exists p, port c = Some p /\ (0 < p)%Z)
  /\ user c <> [] /\ password c <> [] /\ database c <> [].
Proof.
  unfold checkConnection.
  destruct (host c) as [| h0 h].
  { split; [discriminate | intros (H & _); congruence]. }
  destruct (port c) as [p |].
  2:{ split; [discriminate | intros (_ & (p & H & _) & _); discriminate H]. }
  destruct (p <=? 0)%Z eqn:Ep.
  { split; [discriminate|]. intros (_ & (p' & H & Hp) & _). injection H as <-.
    apply Z.leb_le in Ep. lia. }
  apply Z.leb_gt in Ep.
  destruct (user c) as [| u0 u].
  { split; [discriminate | intros (_ & _ & H & _); congruence]. }
  destruct (password c) as [| w0 w].
  { split; [discriminate | intros (_ & _ & _ & H & _); congruence]. }
  destruct (database c) as [| d0 d].
  { split; [discriminate | intros (_ & _ & _ & _ & H); congruence]. }
  split; [|reflexivity]. intros _.
  split; [discriminate|]. split; [eauto|]. repeat split; discriminate.
Qed.

Lemma loadFromEnvironment_inv env config :
  loadFromEnvironment env = inr config ->
  connections config = fold_left loadVariable env []
  /\ firstComplaint (entries (connections config)) = None.
Proof.
  unfold loadFromEnvironment.
  match goal with |- context [validateConfig ?c] => set (cfg0 := c) end.
  destruct (validateConfig cfg0) as [m |] eqn:E; [discriminate|].
  intros H. injection H as <-. split; [reflexivity|].
  unfold validateConfig in E.
  destruct (connections cfg0); [discriminate|].
  destruct (firstComplaint _); [discriminate | reflexivity].
Qed.

Lemma toLowerCase_app a b :
  JS.toLowerCase (a ++ b) = JS.toLowerCase a ++ JS.toLowerCase b.
Proof. unfold JS.toLowerCase. apply flat_map_app. Qed.


Lemma splitOnFrom_nonempty sep (s : jstr) :
  forall cur, splitOnFrom sep cur s <> [].
Proof.
  induction s as [| c s IH]; intros cur; cbn; [discriminate|].
  destruct (c =? sep)%N; [discriminate | apply IH].
Qed.

(** What a successful load has checked about the connection [default]
    when [DB_DEFAULT_CONNECTION] is set. *)
Lemma loadFromEnvironment_completes_default env value config :
  In (JS.lit "DB_DEFAULT_CONNECTION", value) env ->
  value <> [] ->
  loadFromEnvironment env = inr config ->
  exists c, JsMap.get (JS.lit "default") (connections config) = Some c /\ host c <> [].
Proof.
  intros Hin Hv Hload.
  destruct (loadFromEnvironment_inv env config Hload) as (Hc & Hok).
  assert (Hk : parseKey (JS.lit "DB_DEFAULT_CONNECTION")
               = Some (JS.lit "default", JS.lit "connection")) by reflexivity.
  assert (Hn : JS.lit "default" <> JS.lit "constructor") by discriminate.
  pose proof (named_connection_created env [] _ _ _ _ Hin Hv Hk Hn) as Hkey.
  rewrite <- Hc in Hkey.
  destruct (In_keys_get _ _ Hkey) as (c & Hg).
  exists c. split; [exact Hg|].
  apply (checkConnection_none (JS.lit "default") c).
  apply (firstComplaint_none _ Hok). apply entries_In. now apply get_In.
Qed.



Lemma assign_host c property value :
  host (assign c property value)
  = if JS.eqb property (JS.lit "host") then value else host c.
Proof.
  unfold assign.
  repeat match goal with
         | |- context [if JS.eqb property ?l || JS.eqb property ?l' then _ else _] =>
             destruct (JS.eqb property l || JS.eqb property l')
         | |- context [if JS.eqb property ?l then _ else _] =>
             destruct (JS.eqb property l)
         end; reflexivity.
Qed.

Lemma join_cons (sep x : jstr) (rest : list jstr) :
  rest <> [] -> JS.join sep (x :: rest) = x ++ sep ++ JS.join sep rest.
Proof. destruct rest; [congruence | reflexivity]. Qed.

Lemma join_splitOnFrom sep (s : jstr) :
  forall cur, JS.join [sep] (splitOnFrom sep cur s) = cur ++ s.
Proof.
  induction s as [| c s IH]; intros cur; cbn [splitOnFrom].
  - cbn. now rewrite app_nil_r.
  - destruct (c =? sep)%N eqn:E.
    + apply N.eqb_eq in E. subst c.
      rewrite join_cons by apply splitOnFrom_nonempty.
      rewrite IH. reflexivity.
    + rewrite IH. now rewrite <- app_assoc.
Qed.

(** The name of a variable, in lower case, from what [parseKey] reads. *)
Lemma parseKey_lower key n property :
  parseKey key = Some (n, property) ->
  JS.toLowerCase key = JS.lit "db_" ++ n ++ JS.lit "_" ++ property.
Proof.
  unfold parseKey.
  destruct (JS.startsWith (JS.lit "DB_") key) eqn:Es; [|discriminate].
  apply startsWith_inv in Es. destruct Es as (r & ->).
  change (splitOn 95 (JS.lit "DB_" ++ r)) with (JS.lit "DB" :: splitOnFrom 95 [] r).
  pose proof (join_splitOnFrom 95 r []) as J.
  destruct (splitOnFrom 95 [] r) as [| connectionName [| r0 rest]]; try discriminate.
  intros H. injection H as <- <-.
  rewrite join_cons in J by discriminate. cbn [app] in J.
  rewrite <- J. rewrite !toLowerCase_app. reflexivity.
Qed.

(** A connection has a host only if some variable gave it one. *)
Lemma host_origin (env : list (jstr * jstr)) :
  forall conns n c,
    JsMap.get n (fold_left loadVariable env conns) = Some c ->
    host c <> [] ->
    (exists c0, JsMap.get n conns = Some c0 /\ host c0 <> [])
    \/ (exists key value,
          In (key, value) env /\ parseKey key = Some (n, JS.lit "host")).
Proof.
  induction env as [| [key value] env IH]; intros conns n c Hg Hh.
  - left. eauto.
  - cbn [fold_left] in Hg. destruct (IH _ _ _ Hg Hh) as [(c0 & Hg0 & Hh0) | (k & v & Hin & Hk)].
    2:{ right. exists k, v. split; [now right | exact Hk]. }
    unfold loadVariable in Hg0.
    destruct value as [| v0 v]; [left; eauto|].
    destruct (parseKey key) as [[connectionName property] |] eqn:Ek; [|left; eauto].
    destruct (JS.eqb connectionName (JS.lit "constructor")); [left; eauto|].
    destruct (JS.eqb n connectionName) eqn:En.
    + apply eqb_eq in En. subst connectionName.
      rewrite get_set_same in Hg0. injection Hg0 as <-.
      rewrite assign_host in Hh0.
      destruct (JS.eqb property (JS.lit "host")) eqn:Ep.
      * apply eqb_eq in Ep. subst property. right. exists key, (v0 :: v).
        split; [now left | exact Ek].
      * destruct (JsMap.get n conns) as [c1 |]; [left; eauto|].
        cbn in Hh0. congruence.
    + rewrite get_set_other in Hg0 by exact En. left. eauto.
Qed.

(** X28.  [DB_DEFAULT_CONNECTION] alone makes the load fail.  The variable
    is itself read as a property of a connection named [default]; unless
    some variable [DB_DEFAULT_HOST] (in any letter case) is set as well,
    that connection has no host and [loadFromEnvironment] throws. *)
Theorem loadFromEnvironment_rejects_a_bare_default
    (env : list (jstr * jstr)) (value : jstr) :
  In (JS.lit "DB_DEFAULT_CONNECTION", value) env ->
  value <> [] ->
  (forall key v, In (key, v) env -> JS.toLowerCase key <> JS.lit "db_default_host") ->
  exists message, loadFromEnvironment env = inl message.
Proof.
  intros Hin Hv Hnone.
  destruct (loadFromEnvironment env) as [message | config] eqn:Hload; [eauto|].
  exfalso.
  destruct (loadFromEnvironment_completes_default env value config Hin Hv Hload)
    as (c & Hg & Hh).
  destruct (loadFromEnvironment_inv env config Hload) as (Hc & _).
  rewrite Hc in Hg.
  destruct (host_origin env [] _ _ Hg Hh) as [(c0 & H0 & _) | (key & v & Hk & Hp)];
    [discriminate H0|].
  apply (Hnone key v Hk). now rewrite (parseKey_lower _ _ _ Hp).
Qed.

End ConfigLoaderCoverage.


Lemma loadFromEnvironment_bare_default_witness :
  MultiDatabaseConfigLoader.loadFromEnvironment Scenario.mainAsDefault
  = inl (JS.lit "Connection 'default': host is required").
Proof.
  destruct (loadFromEnvironment_rejects_a_bare_default Scenario.mainAsDefault (JS.lit "main"))
    as (message & H).
  - apply in_or_app. right. now left.
  - discriminate.
  - intros key v Hin.
    cbn in Hin.
    repeat (destruct Hin as [Hin | Hin]; [injection Hin as <- _; discriminate|]).
    destruct Hin.
  - rewrite H. vm_compute in H. injection H as <-. reflexivity.
Defined.
